(** * stt-benchmark: the dataset catalog of [dataset.py]

    A shallow embedding of [dataset.py]: the Python string operations the
    builders use, the file system and the two audio libraries they talk to,
    the three catalog builders, the factory and the accessors, followed by
    the properties of the catalog.

    Conventions of the model.
    - A Python [str] is a [string]; characters are 8-bit, so [lower] is the
      ASCII part of [str.lower].
    - A Python [int] is a [Z].
    - An exception is a value of [exn]; a computation that may raise and
      that may touch the file system is a function
      [world -> (exn + A) * world], which leaves a world also when it
      raises.
    - A path names a node of the file system through its components (the
      path split at [/]); [.], [..] and symbolic links are not resolved.
    - The builders and the accessors are first given on the catalog as a
      value. [Obj] then has the dataset as an object in a heap, with its
      catalog a list that can be changed in place, and the accessors as
      methods on that heap. *)

From Stdlib Require Import String Ascii ZArith List Bool Lia QArith.
From stdpp Require Import gmap strings list.

Set Default Proof Using "Type".
Local Open Scope string_scope.
Local Open Scope Z_scope.
Local Open Scope list_scope.

(** [simpl] may unfold the concatenation of strings again, and compares
    characters only where both are known. *)
#[local] Arguments String.append !_ _ : simpl nomatch.
#[local] Arguments Ascii.eqb !_ !_ : simpl nomatch.

(** ** Python strings *)

Module Str.

(** [s.startswith(pre)] *)
Fixpoint startswith (s pre : string) {struct pre} : bool :=
  match pre with
  | EmptyString => true
  | String a pre' =>
      match s with
      | EmptyString => false
      | String b s' => Ascii.eqb a b && startswith s' pre'
      end
  end.

(** [s.endswith(suf)]: [s] is [suf], or the tail of [s] ends with [suf]. *)
Fixpoint endswith (s suf : string) : bool :=
  String.eqb s suf ||
  match s with
  | EmptyString => false
  | String _ s' => endswith s' suf
  end.

(** [s.replace(old, new)] for a non-empty [old]: the occurrences of [old]
    are found from the left and do not overlap. [skip] counts the
    characters of a matched occurrence that are still to be dropped. *)
Fixpoint replace_from (old new : string) (skip : nat) (s : string) : string :=
  match s with
  | EmptyString => EmptyString
  | String c s' =>
      match skip with
      | S k => replace_from old new k s'
      | O =>
          if startswith s old
          then new +:+ replace_from old new (Nat.pred (String.length old)) s'
          else String c (replace_from old new O s')
      end
  end.

(** For an empty [old] Python puts [new] before every character and at the
    end. *)
Fixpoint intersperse (new s : string) : string :=
  match s with
  | EmptyString => new
  | String c s' => new +:+ String c (intersperse new s')
  end.

Definition replace (old new s : string) : string :=
  match old with
  | EmptyString => intersperse new s
  | _ => replace_from old new O s
  end.

(** [s.lower()] on ASCII. *)
Definition lower_char (c : ascii) : ascii :=
  let n := nat_of_ascii c in
  if (65 <=? n)%nat && (n <=? 90)%nat then ascii_of_nat (n + 32) else c.

Fixpoint lower (s : string) : string :=
  match s with
  | EmptyString => EmptyString
  | String c s' => String (lower_char c) (lower s')
  end.

(** [s.split(' ', maxsplit=1)]: one field when [s] has no separator,
    otherwise the text before the first separator and the text after it. *)
Fixpoint split1 (sep : ascii) (s : string) : string * option string :=
  match s with
  | EmptyString => (EmptyString, None)
  | String c s' =>
      if Ascii.eqb c sep then (EmptyString, Some s')
      else let '(h, t) := split1 sep s' in (String c h, t)
  end.

(** [f.readlines()]: the lines of a text, each with its terminating
    newline; the last line has none when the text does not end in one. *)
Definition newline : ascii := Ascii.ascii_of_nat 10.

Fixpoint readlines_from (cur : string) (s : string) : list string :=
  match s with
  | EmptyString =>
      match cur with EmptyString => [] | _ => [cur] end
  | String c s' =>
      if Ascii.eqb c newline
      then (cur +:+ String c EmptyString) :: readlines_from EmptyString s'
      else readlines_from (cur +:+ String c EmptyString) s'
  end.

Definition readlines (s : string) : list string := readlines_from EmptyString s.

(** [int(s)] for a decimal literal: blanks around it (the space and the
    characters 9 to 13), an optional sign, digits, with single underscores
    allowed between digits. *)
Definition is_space (c : ascii) : bool :=
  let n := nat_of_ascii c in
  (n =? 32)%nat || ((9 <=? n)%nat && (n <=? 13)%nat).

Definition digit_of (c : ascii) : option Z :=
  let n := nat_of_ascii c in
  if (48 <=? n)%nat && (n <=? 57)%nat then Some (Z.of_nat (n - 48)) else None.

Fixpoint lstrip (s : string) : string :=
  match s with
  | String c s' => if is_space c then lstrip s' else s
  | EmptyString => EmptyString
  end.

Fixpoint rstrip (s : string) : string :=
  match s with
  | EmptyString => EmptyString
  | String c s' =>
      match rstrip s' with
      | EmptyString => if is_space c then EmptyString else String c EmptyString
      | r => String c r
      end
  end.

Definition strip (s : string) : string := rstrip (lstrip s).

(** [digits acc after_digit s]: [after_digit] tells whether the previous
    character was a digit, which is where an underscore may stand. *)
Fixpoint digits (acc : Z) (after_digit : bool) (s : string) : option Z :=
  match s with
  | EmptyString => if after_digit then Some acc else None
  | String c s' =>
      match digit_of c with
      | Some d => digits (10 * acc + d) true s'
      | None =>
          if Ascii.eqb c "_" && after_digit then digits acc false s' else None
      end
  end.

Definition int (s : string) : option Z :=
  match strip s with
  | String "-" r => Z.opp <$> digits 0 false r
  | String "+" r => digits 0 false r
  | r => digits 0 false r
  end.

End Str.

(** ** Paths *)

Module Path.

(** The components of a path: the non-empty pieces between slashes. *)
Fixpoint comps_from (cur : string) (s : string) : list string :=
  match s with
  | EmptyString =>
      match cur with EmptyString => [] | _ => [cur] end
  | String c s' =>
      if Ascii.eqb c "/"
      then match cur with
           | EmptyString => comps_from EmptyString s'
           | _ => cur :: comps_from EmptyString s'
           end
      else comps_from (cur +:+ String c EmptyString) s'
  end.

Definition comps (p : string) : list string := comps_from EmptyString p.

(** [os.path.join(a, b)] on POSIX. *)
Definition join (a b : string) : string :=
  if Str.startswith b "/" then b
  else if String.eqb a EmptyString || Str.endswith a "/" then a +:+ b
  else a +:+ "/" +:+ b.

End Path.

(** ** Exceptions, the file system and the audio libraries *)

Inductive exn :=
| KeyError (key : string)
| ValueError (msg : string)
| TypeError
| AttributeError
| IndexError
| NotImplementedError
| FileNotFoundError (path : string)
| NotADirectoryError (path : string)
| IsADirectoryError (path : string)
| UnicodeDecodeError
| SoxError
| LibsndfileError.

(** Decoded audio: what [soundfile.read] returns, as far as the program
    looks at it. *)
Record audio := Audio { frames : N; channels : N; samplerate : N }.

Inductive node :=
| Dir (entries : list string)   (* names in the order [os.listdir] gives *)
| TextFile (content : string)
| AudioFile (a : audio).

Inductive event :=
| SoxBuild (src dst : string)   (* [sox.Transformer.build] wrote [dst] *)
| SfWrite (dst : string).       (* [soundfile.write] wrote [dst] *)

Record world := World {
  nodes : gmap (list string) node;
  journal : list event            (* audio files written so far *)
}.

(** A computation returns or raises, and leaves a world behind either
    way. *)
Definition M (A : Type) : Type := world -> (exn + A) * world.

Definition ret {A} (a : A) : M A := fun w => (inr a, w).
Definition raise {A} (e : exn) : M A := fun w => (inl e, w).
Definition bind {A B} (m : M A) (k : A -> M B) : M B :=
  fun w => match m w with
           | (inl e, w') => (inl e, w')
           | (inr a, w') => k a w'
           end.

Declare Scope py_scope.
Delimit Scope py_scope with py.
Notation "'let*' x := m 'in' k" := (bind m (fun x => k))
  (at level 10, x name, m at level 100, k at level 200, only parsing) : py_scope.
Local Open Scope py_scope.

(** [for x in xs: s = body x s] *)
Fixpoint for_each {A St} (xs : list A) (body : A -> St -> M St) (s : St) : M St :=
  match xs with
  | [] => ret s
  | x :: xs' => let* s' := body x s in for_each xs' body s'
  end.

Definition unsnoc {A} (l : list A) : option (list A * A) :=
  match rev l with
  | [] => None
  | x :: r => Some (rev r, x)
  end.

Definition lookup_path (p : string) (w : world) : option node :=
  nodes w !! Path.comps p.

(** [os.path.exists(p)] *)
Definition exists_ (p : string) : M bool :=
  fun w => (inr match lookup_path p w with
                | Some _ => negb (String.eqb p EmptyString)
                | None => false
                end, w).

(** [os.listdir(p)] *)
Definition listdir (p : string) : M (list string) :=
  fun w => (match lookup_path p w with
            | Some (Dir names) => inr names
            | Some _ => inl (NotADirectoryError p)
            | None => inl (FileNotFoundError p)
            end, w).

(** [open(p).read()], with newlines translated as Python's text mode does *)
Definition read_text (p : string) : M string :=
  fun w => (match lookup_path p w with
            | Some (TextFile s) => inr s
            | Some (AudioFile _) => inl UnicodeDecodeError
            | Some (Dir _) => inl (IsADirectoryError p)
            | None => inl (FileNotFoundError p)
            end, w).

(** Creating or overwriting the file at [p]: its directory must exist, and
    lists the new name. [os.listdir] promises no order; here the new name
    comes after the names the directory had. *)
Definition write_file (p : string) (a : audio) (w : world) : option (gmap (list string) node) :=
  match unsnoc (Path.comps p) with
  | None => None
  | Some (parent, name) =>
      match nodes w !! parent, nodes w !! (Path.comps p) with
      | Some (Dir names), Some (Dir _) => None
      | Some (Dir names), _ =>
          Some (<[Path.comps p := AudioFile a]>
                  (<[parent := Dir (if bool_decide (name ∈ names) then names
                                    else names ++ [name])]> (nodes w)))
      | _, _ => None
      end
  end.

(** [soundfile.read(p)] *)
Definition sf_read (p : string) : M audio :=
  fun w => (match lookup_path p w with
            | Some (AudioFile a) => inr a
            | _ => inl LibsndfileError
            end, w).

(** [soundfile.write(p, pcm, sample_rate)] *)
Definition sf_write (p : string) (a : audio) : M unit :=
  fun w => match write_file p a w with
           | Some n => (inr tt, World n (journal w ++ [SfWrite p]))
           | None => (inl LibsndfileError, w)
           end.

(** [transformer.convert(samplerate=16000, bitdepth=16, n_channels=1)]
    followed by [transformer.build(src, dst)]: the converter is outside the
    program; it reads [src] and writes a mono file at 16 kHz to [dst]. *)
Definition resample (a : audio) : audio :=
  Audio (frames a * 16000 / samplerate a) 1 16000.

Definition sox_build (src dst : string) : M unit :=
  fun w => match lookup_path src w with
           | Some (AudioFile a) =>
               match write_file dst (resample a) w with
               | Some n => (inr tt, World n (journal w ++ [SoxBuild src dst]))
               | None => (inl SoxError, w)
               end
           | _ => (inl SoxError, w)
           end.

(** ** The dataset classes *)

(** [self._data] *)
Abbreviation catalog := (list (string * string)).

Inductive dataset :=
| Dataset                                  (* the base class itself *)
| CommonVoiceDataset (_data : catalog)
| LibriSpeechDataset (_data : catalog)
| CustomDataset (_data : catalog).

Inductive pyclass := ClsDataset | ClsCommonVoice | ClsLibriSpeech | ClsCustom.

(** [cls.__name__] *)
Definition class_name (cls : pyclass) : string :=
  match cls with
  | ClsDataset => "Dataset"
  | ClsCommonVoice => "CommonVoiceDataset"
  | ClsLibriSpeech => "LibriSpeechDataset"
  | ClsCustom => "CustomDataset"
  end.

(** [d[k]] on a row of [csv.DictReader]: the value is [None] where the
    record was shorter than the header. *)
Definition getitem (d : gmap string (option string)) (k : string) : M (option string) :=
  match d !! k with
  | Some v => ret v
  | None => raise (KeyError k)
  end.

(** [int(v)] *)
Definition py_int (v : option string) : M Z :=
  match v with
  | None => raise TypeError
  | Some s =>
      match Str.int s with
      | Some z => ret z
      | None => raise (ValueError ("invalid literal for int() with base 10: " +:+ s))
      end
  end.

(** [os.path.join(a, v)] where [v] may be [None] *)
Definition path_join (a : string) (v : option string) : M string :=
  match v with
  | None => raise TypeError
  | Some b => ret (Path.join a b)
  end.

(** [l[i]] on a list *)
Definition list_getitem {A} (l : list A) (i : Z) : M A :=
  let n := Z.of_nat (length l) in
  let j := if i <? 0 then i + n else i in
  if (j <? 0) || (n <=? j) then raise IndexError
  else match l !! Z.to_nat j with
       | Some x => ret x
       | None => raise IndexError
       end.

(** [range(n)] *)
Definition range (n : Z) : list Z := Z.of_nat <$> seq 0 (Z.to_nat n).

Section Program.

(** [csv.reader] is outside the program: it turns the text of a file into
    records, each a list of fields. *)
Variable csv_reader : string -> list (list string).

(** One row of [csv.DictReader]: [dict(zip(fieldnames, record))], then
    [None] for the fields the record lacks. The surplus fields of a long
    record go under the key [None], which no builder reads. *)
Definition dict_row (fieldnames record : list string) : gmap string (option string) :=
  fold_left (fun d kv => <[fst kv := snd kv]> d)
    (zip fieldnames (Some <$> record) ++
     ((fun k => (k, None)) <$> drop (length record) fieldnames)) ∅.

Definition nonempty_record (record : list string) : bool :=
  match record with [] => false | _ => true end.

Definition DictReader (text : string) : list (gmap string (option string)) :=
  match csv_reader text with
  | [] => []
  | fieldnames :: records => dict_row fieldnames <$> List.filter nonempty_record records
  end.

(** *** CommonVoiceDataset *)

(** The body of the loop over the rows, lines 77 to 92. *)
Definition CommonVoice_row (root : string) (row : gmap string (option string))
    (data : catalog) : M catalog :=
  let* v := getitem row "text" in
  let* text := match v with
               | Some s => ret (Str.lower s)
               | None => raise AttributeError
               end in
  let* v := getitem row "up_votes" in
  let* up_votes := py_int v in
  let* v := getitem row "down_votes" in
  let* down_votes := py_int v in
  if (up_votes <? 2) || (0 <? down_votes) || (String.length text =? 0)%nat
  then ret data
  else
    let* v := getitem row "filename" in
    let* mp3_path := path_join root v in
    let wav_path := Str.replace ".mp3" ".wav" mp3_path in
    let* e := exists_ wav_path in
    let* _ := if e then ret tt else sox_build mp3_path wav_path in
    ret (data ++ [(wav_path, text)]).

Definition CommonVoiceDataset_init (root : string) : M dataset :=
  let metadata_path := Path.join root "cv-valid-test.csv" in
  let* f := read_text metadata_path in
  let* data := for_each (DictReader f) (CommonVoice_row root) [] in
  ret (CommonVoiceDataset data).

(** *** LibriSpeechDataset *)

(** [dict([tuple(x.split(' ', maxsplit=1)) for x in lines])] *)
Definition dict_of_lines (lines : list string) : M (gmap string string) :=
  for_each lines
    (fun x d =>
       match Str.split1 " " x with
       | (k, Some v) => ret (<[k := v]> d)
       | (_, None) =>
           raise (ValueError "dictionary update sequence element has length 1; 2 is required")
       end) ∅.

(** The body of the loop over the names of a chapter directory, lines 120
    to 128. *)
Definition LibriSpeech_file (chapter_dir : string) (transcripts : gmap string string)
    (flac_file : string) (data : catalog) : M catalog :=
  if Str.endswith flac_file ".flac" then
    let wav_file := Str.replace ".flac" ".wav" flac_file in
    let wav_path := Path.join chapter_dir wav_file in
    let* e := exists_ wav_path in
    let* _ := if e then ret tt
              else let flac_path := Path.join chapter_dir flac_file in
                   let* pcm := sf_read flac_path in
                   sf_write wav_path pcm in
    let key := Str.replace ".wav" EmptyString wav_file in
    match transcripts !! key with
    | Some t => ret (data ++ [(wav_path, t)])
    | None => raise (KeyError key)
    end
  else ret data.

Definition LibriSpeech_chapter (speaker_dir speaker_id chapter_id : string)
    (data : catalog) : M catalog :=
  let chapter_dir := Path.join speaker_dir chapter_id in
  let transcript_path :=
    Path.join chapter_dir (speaker_id +:+ "-" +:+ chapter_id +:+ ".trans.txt") in
  let* f := read_text transcript_path in
  let* transcripts := dict_of_lines (Str.readlines f) in
  let* names := listdir chapter_dir in
  for_each names (LibriSpeech_file chapter_dir transcripts) data.

Definition LibriSpeech_speaker (root speaker_id : string) (data : catalog) : M catalog :=
  let speaker_dir := Path.join root speaker_id in
  let* chapters := listdir speaker_dir in
  for_each chapters (LibriSpeech_chapter speaker_dir speaker_id) data.

Definition LibriSpeechDataset_init (root : string) : M dataset :=
  let* speakers := listdir root in
  let* data := for_each speakers (LibriSpeech_speaker root) [] in
  ret (LibriSpeechDataset data).

(** *** CustomDataset *)

(** The body of the loop over the rows, lines 149 to 162. In
    [d['text'] and d['language'] == "EN"] the language is looked up only
    when the text is neither [None] nor empty. *)
Definition Custom_row (root : string) (d : gmap string (option string))
    (data : catalog) : M catalog :=
  let* text := getitem d "text" in
  match text with
  | None | Some EmptyString => ret data
  | Some text =>
      let* language := getitem d "language" in
      if bool_decide (language = Some "EN") then
        let* file := getitem d "file" in
        let* p := path_join root file in
        let row := (p, text) in
        let* orig_path := path_join (Path.join root "original") file in
        let* wav_path := path_join root file in
        let* e := exists_ wav_path in
        let* _ := if e then ret tt else sox_build orig_path wav_path in
        let data := data ++ [(wav_path, text)] in
        ret (data ++ [row])
      else ret data
  end.

Definition CustomDataset_init (root : string) : M dataset :=
  let* f := read_text (Path.join root "annotations.csv") in
  let* data := for_each (DictReader f) (Custom_row root) [] in
  ret (CustomDataset data).

(** *** The factory *)

Definition create (cls : pyclass) (dataset_type root : string) : M dataset :=
  if String.eqb dataset_type "commonvoice" then CommonVoiceDataset_init root
  else if String.eqb dataset_type "librispeech" then LibriSpeechDataset_init root
  else if String.eqb dataset_type "custom" then CustomDataset_init root
  else raise (ValueError ("cannot create " +:+ class_name cls +:+ " of type '"
                          +:+ dataset_type +:+ "'")).

End Program.

(** *** The accessors *)

Definition size (self : dataset) : M Z :=
  match self with
  | Dataset => raise NotImplementedError
  | CommonVoiceDataset data | LibriSpeechDataset data | CustomDataset data =>
      ret (Z.of_nat (length data))
  end.

Definition get (self : dataset) (index : Z) : M (string * string) :=
  match self with
  | Dataset => raise NotImplementedError
  | CommonVoiceDataset data | LibriSpeechDataset data | CustomDataset data =>
      list_getitem data index
  end.

(** [__str__] *)
Definition label (self : dataset) : M string :=
  match self with
  | Dataset => raise NotImplementedError
  | CommonVoiceDataset _ => ret "Common Voice Dataset"
  | LibriSpeechDataset _ => ret "LibriSpeech Dataset"
  | CustomDataset _ => ret "Custom Dataset"
  end.

Definition all_data (self : dataset) : M catalog :=
  match self with
  | CustomDataset data => ret data
  | _ => raise NotImplementedError
  end.

(** [soundfile.read(self.get(i)[0])[0].size / per] for every [i] of
    [range(self.size())], summed. The quotient is kept exact; the program
    rounds it to a float. *)
Definition size_in (per : positive) (self : dataset) : M Q :=
  let* n := size self in
  let* parts :=
    for_each (range n)
      (fun i acc =>
         let* e := get self i in
         let* pcm := sf_read (fst e) in
         ret (acc ++ [Z.of_N (frames pcm * channels pcm) # per])) [] in
  ret (fold_left Qplus parts 0%Q).

Definition size_hours (self : dataset) : M Q := size_in (16000 * 3600) self.
Definition size_seconds (self : dataset) : M Q := size_in 16000 self.

(** *** A caller of the accessors *)

Inductive call :=
| CallSize
| CallGet (index : Z)
| CallSizeSeconds
| CallSizeHours
| CallLabel.

Inductive value :=
| VInt (n : Z)
| VEntry (e : string * string)
| VFloat (q : Q)
| VStr (s : string).

Definition invoke (self : dataset) (c : call) : M value :=
  match c with
  | CallSize => let* n := size self in ret (VInt n)
  | CallGet index => let* e := get self index in ret (VEntry e)
  | CallSizeSeconds => let* q := size_seconds self in ret (VFloat q)
  | CallSizeHours => let* q := size_hours self in ret (VFloat q)
  | CallLabel => let* s := label self in ret (VStr s)
  end.

(** The calls made one after the other by a caller that catches what they
    raise: the outcomes, and the world after the last call. *)
Fixpoint invoke_all (self : dataset) (cs : list call) (w : world)
    : list (exn + value) * world :=
  match cs with
  | [] => ([], w)
  | c :: cs' =>
      let '(r, w1) := invoke self c w in
      let '(rs, w2) := invoke_all self cs' w1 in
      (r :: rs, w2)
  end.

(** [self._data] of an instance of one of the three corpus classes. *)
Definition entries (self : dataset) : option catalog :=
  match self with
  | Dataset => None
  | CommonVoiceDataset data | LibriSpeechDataset data | CustomDataset data => Some data
  end.

(** ** Names *)

(** [pat in s] *)
Fixpoint contains (s pat : string) : bool :=
  Str.startswith s pat ||
  match s with
  | EmptyString => false
  | String _ s' => contains s' pat
  end.

(** Whether the character [c] is absent from [s]. *)
Fixpoint char_free (c : ascii) (s : string) : bool :=
  match s with
  | EmptyString => true
  | String b s' => negb (Ascii.eqb c b) && char_free c s'
  end.

(** The component that [Path.comps_from] has gathered in [cur]. *)
Definition piece (cur : string) : list string :=
  match cur with EmptyString => [] | _ => [cur] end.

(** A name that a directory can list: not empty, and without a slash. *)
Definition valid_name (s : string) : Prop :=
  s <> EmptyString /\ char_free "/" s = true.

(** A world in which directories list names. *)
Definition wf (w : world) : Prop :=
  forall k names, nodes w !! k = Some (Dir names) -> Forall valid_name names.

(** The same as [wf], by computation. *)
Definition valid_nameb (s : string) : bool :=
  negb (String.eqb s EmptyString) && char_free "/" s.

Definition wf_node (v : node) : bool :=
  match v with
  | Dir names => forallb valid_nameb names
  | _ => true
  end.

Definition wfb (w : world) : bool :=
  bool_decide (map_Forall (fun _ v => wf_node v = true) (nodes w)).

(** ** How a builder changes the world *)

(** A file stays as it is; a directory lists further names, after those
    it listed, and [P] says which names may come to which directory. *)
Definition node_grows (P : list string -> list string -> Prop) (k : list string)
    (v v' : node) : Prop :=
  match v with
  | Dir names => exists extra, v' = Dir (names ++ extra) /\ P k extra
  | _ => v' = v
  end.

Definition grows (P : list string -> list string -> Prop) (w w' : world) : Prop :=
  forall k v, nodes w !! k = Some v ->
    exists v', nodes w' !! k = Some v' /\ node_grows P k v v'.

Class Additive (P : list string -> list string -> Prop) : Prop := {
  additive_nil : forall k, P k [];
  additive_app : forall k e1 e2, P k e1 -> P k e2 -> P k (e1 ++ e2)
}.

(** Any name, to any directory. *)
Definition any_names : list string -> list string -> Prop := fun _ _ => True.

(** Names that do not end in [.flac], to directories [n] components
    deep. *)
Definition wav_names (n : nat) (k extra : list string) : Prop :=
  Forall (fun x => Str.endswith x ".flac" = false) extra /\
  (length k <> n -> extra = []).

(** The world [w'] is [w] after a file was written at [p], where there
    was nothing. *)
Definition wrote (p : string) (w w' : world) : Prop :=
  nodes w !! Path.comps p = None /\
  exists a n ev, write_file p a w = Some n /\ w' = World n (journal w ++ [ev]).

(** What [if not os.path.exists(p): <write p>] leaves. *)
Definition ensured (p : string) (w w' : world) : Prop :=
  exists_ p w' = (inr true, w') /\ (w' = w \/ wrote p w w').

(** A part [m] of a builder that keeps [Inv], changes the world as [P]
    allows, appends to the catalog, and that can be run again in any
    later world, where it appends the same entries and leaves the world
    as it finds it. *)
Definition replayable (P : list string -> list string -> Prop) (Inv : world -> Prop)
    (m : catalog -> M catalog) : Prop :=
  forall s w s' w',
    Inv w -> m s w = (inr s', w') ->
    Inv w' /\ grows P w w' /\
    exists suf, s' = s ++ suf /\
      forall wF s0, grows P w' wF -> m s0 wF = (inr (s0 ++ suf), wF).

(** The catalog grew at its end and the world grew. *)
Definition extends (a b : catalog * world) : Prop :=
  (exists suf, fst b = fst a ++ suf) /\ grows any_names (snd a) (snd b).

(** The directory [p] lists [name]. *)
Definition lists (p name : string) (w : world) : Prop :=
  exists names, listdir p w = (inr names, w) /\ name ∈ names.

(** The world [wt] that the LibriSpeech builder has reached from [w], in
    a corpus whose chapter directories are [n] components deep. *)
Definition scanning (n : nat) (w wt : world) : Prop :=
  grows (wav_names n) w wt /\ wf wt.

(** ** The catalogs of the builders that read a CSV file *)

(** What the Common Voice builder reads in a row: the text, and the two
    vote counts as [int] parses them. *)
Definition cv_fields (row : gmap string (option string)) : option (string * Z * Z) :=
  match row !! "text", row !! "up_votes", row !! "down_votes" with
  | Some (Some text), Some (Some up_votes), Some (Some down_votes) =>
      match Str.int up_votes, Str.int down_votes with
      | Some up, Some down => Some (text, up, down)
      | _, _ => None
      end
  | _, _, _ => None
  end.

(** The catalog of a list of rows under a retention rule: a row that the
    rule rejects adds nothing, a row that it retains adds the path of its
    WAV file and its text in lower case. There is no catalog when a row
    lacks a field that is read. *)
Fixpoint cv_catalog (retains : string -> Z -> Z -> bool) (root : string)
    (rows : list (gmap string (option string))) : option catalog :=
  match rows with
  | [] => Some []
  | row :: rows' =>
      match cv_fields row, cv_catalog retains root rows' with
      | Some (text, up, down), Some c =>
          if retains text up down then
            match row !! "filename" with
            | Some (Some filename) =>
                Some ((Str.replace ".mp3" ".wav" (Path.join root filename),
                       Str.lower text) :: c)
            | _ => None
            end
          else Some c
      | _, _ => None
      end
  end.

(** The rule of the program: at least two up votes, no positive count of
    down votes, a text that is not empty. *)
Definition cv_retains (text : string) (up_votes down_votes : Z) : bool :=
  (2 <=? up_votes) && (down_votes <=? 0) && negb (String.eqb text EmptyString).

(** Whether the custom builder keeps a row: [None] when a column that is
    read is missing. *)
Definition custom_keeps (row : gmap string (option string)) : option bool :=
  match row !! "text" with
  | None => None
  | Some None | Some (Some EmptyString) => Some false
  | Some (Some _) =>
      match row !! "language" with
      | None => None
      | Some language => Some (bool_decide (language = Some "EN"))
      end
  end.

(** The catalog of a list of rows when every kept row adds its entry
    [copies] times. *)
Fixpoint custom_catalog (copies : nat) (root : string)
    (rows : list (gmap string (option string))) : option catalog :=
  match rows with
  | [] => Some []
  | row :: rows' =>
      match custom_keeps row, custom_catalog copies root rows' with
      | Some true, Some c =>
          match row !! "file", row !! "text" with
          | Some (Some file), Some (Some text) =>
              Some (replicate copies (Path.join root file, text) ++ c)
          | _, _ => None
          end
      | Some false, Some c => Some c
      | _, _ => None
      end
  end.

(** ** The LibriSpeech catalog, from the corpus as it is found *)

(** A loop that returns or raises, without a world. *)
Fixpoint fold_ok {A St} (xs : list A) (body : A -> St -> exn + St) (s : St) : exn + St :=
  match xs with
  | [] => inr s
  | x :: xs' =>
      match body x s with
      | inl e => inl e
      | inr s' => fold_ok xs' body s'
      end
  end.

(** The base name of an audio file: its name without the extension
    [.flac]. *)
Fixpoint base_name (name : string) : string :=
  if String.eqb name ".flac" then EmptyString
  else match name with
       | EmptyString => EmptyString
       | String c s => String c (base_name s)
       end.

(** A base name that holds neither [.flac] nor [.wav]. *)
Definition plain (uid : string) : bool :=
  negb (contains uid ".flac") && negb (contains uid ".wav").

(** What a directory lists, and the mapping that a transcript file
    holds. *)
Definition names_of (p : string) (w : world) : list string :=
  match fst (listdir p w) with
  | inr names => names
  | inl _ => []
  end.

Definition transcripts_of (p : string) (w : world) : gmap string string :=
  match fst (read_text p w) with
  | inr f =>
      match fst (dict_of_lines (Str.readlines f) w) with
      | inr tr => tr
      | inl _ => ∅
      end
  | inl _ => ∅
  end.

(** The [.flac] files of a corpus in the order of the scan, each with its
    chapter directory and the transcript mapping of its chapter. *)
Definition chapter_flacs (w : world) (speaker_dir speaker_id chapter_id : string)
    : list (string * gmap string string * string) :=
  let chapter_dir := Path.join speaker_dir chapter_id in
  let transcripts :=
    transcripts_of
      (Path.join chapter_dir (speaker_id +:+ "-" +:+ chapter_id +:+ ".trans.txt")) w in
  (fun name => (chapter_dir, transcripts, name))
    <$> List.filter (fun name => Str.endswith name ".flac") (names_of chapter_dir w).

Definition speaker_flacs (w : world) (root speaker_id : string)
    : list (string * gmap string string * string) :=
  flat_map (chapter_flacs w (Path.join root speaker_id) speaker_id)
    (names_of (Path.join root speaker_id) w).

Definition corpus_flacs (root : string) (w : world)
    : list (string * gmap string string * string) :=
  flat_map (speaker_flacs w root) (names_of root w).

(** The entry of a [.flac] file: the WAV file next to it, with the
    transcript that the mapping has for its base name; a lookup error
    when the mapping has none. *)
Definition expected_entry (x : string * gmap string string * string) (data : catalog)
    : exn + catalog :=
  let '(chapter_dir, transcripts, name) := x in
  match transcripts !! base_name name with
  | Some t => inr (data ++ [(Path.join chapter_dir (base_name name +:+ ".wav"), t)])
  | None => inl (KeyError (base_name name))
  end.

(** A chapter that the builder can read: the transcript file is a text of
    lines with a space, the directory is listed, and each of its [.flac]
    files has either its WAV file next to it or audio in it. *)
Definition readable_chapter (w : world) (speaker_dir speaker_id chapter_id : string)
    : Prop :=
  let chapter_dir := Path.join speaker_dir chapter_id in
  (exists f tr,
     read_text (Path.join chapter_dir
                  (speaker_id +:+ "-" +:+ chapter_id +:+ ".trans.txt")) w = (inr f, w) /\
     dict_of_lines (Str.readlines f) w = (inr tr, w)) /\
  (exists names, listdir chapter_dir w = (inr names, w)) /\
  forall name,
    name ∈ names_of chapter_dir w -> Str.endswith name ".flac" = true ->
    exists_ (Path.join chapter_dir (base_name name +:+ ".wav")) w = (inr true, w) \/
    exists a, sf_read (Path.join chapter_dir name) w = (inr a, w).

Definition readable_corpus (root : string) (w : world) : Prop :=
  (exists speakers, listdir root w = (inr speakers, w)) /\
  forall speaker_id, speaker_id ∈ names_of root w ->
    (exists chapters, listdir (Path.join root speaker_id) w = (inr chapters, w)) /\
    forall chapter_id, chapter_id ∈ names_of (Path.join root speaker_id) w ->
      readable_chapter w (Path.join root speaker_id) speaker_id chapter_id.

(** The base names of the [.flac] files of the corpus are plain. *)
Definition plain_names (root : string) (w : world) : Prop :=
  forall cd tr name,
    (cd, tr, name) ∈ corpus_flacs root w -> plain (base_name name) = true.

(** ** What the program does not meet, as the specification words it *)

(** C3: [get] refuses whatever index lies outside [0, size()). *)
Definition get_refuses_outside_0_size (self : dataset) : Prop :=
  forall data index w,
    entries self = Some data ->
    ~ (0 <= index < Z.of_nat (length data)) ->
    get self index w = (inl IndexError, w).

(** The rule of C2: [up_votes >= 2 and down_votes == 0] and a text that is
    not empty. *)
Definition cv_retains_claimed (text : string) (up_votes down_votes : Z) : bool :=
  (2 <=? up_votes) && (down_votes =? 0) && negb (String.eqb text EmptyString).

(** C2, as the specification words it. *)
Definition cv_filter_claimed csv (root : string) (w : world) : Prop :=
  forall d w', CommonVoiceDataset_init csv root w = (inr d, w') ->
    exists f data,
      read_text (Path.join root "cv-valid-test.csv") w = (inr f, w) /\
      d = CommonVoiceDataset data /\
      cv_catalog cv_retains_claimed root (DictReader csv f) = Some data.

(** The text without its trailing newline, when it has one. *)
Fixpoint strip_newline (s : string) : string :=
  match s with
  | EmptyString => EmptyString
  | String c EmptyString => if Ascii.eqb c Str.newline then EmptyString else s
  | String c s' => String c (strip_newline s')
  end.

(** What the LibriSpeech catalog holds for an utterance, where [stored]
    says how the text of its line in the transcript file is kept: the
    chapter directory lists [uid.flac], the name [uid] holds neither
    [.flac] nor [.wav], and the last line of the transcript file that
    begins with [uid] and a space goes on with [rest]. *)
Definition libri_pairs (stored : string -> string) (root : string) (w : world) : Prop :=
  forall d w' speaker_id chapter_id uid f before rest after,
    LibriSpeechDataset_init root w = (inr d, w') ->
    lists root speaker_id w ->
    lists (Path.join root speaker_id) chapter_id w ->
    lists (Path.join (Path.join root speaker_id) chapter_id) (uid +:+ ".flac") w ->
    contains uid ".flac" = false ->
    contains uid ".wav" = false ->
    char_free " " uid = true ->
    read_text (Path.join (Path.join (Path.join root speaker_id) chapter_id)
                 (speaker_id +:+ "-" +:+ chapter_id +:+ ".trans.txt")) w = (inr f, w) ->
    Str.readlines f = before ++ (uid +:+ " " +:+ rest) :: after ->
    Forall (fun line => fst (Str.split1 " " line) <> uid) after ->
    exists data,
      d = LibriSpeechDataset data /\
      (Path.join (Path.join (Path.join root speaker_id) chapter_id) (uid +:+ ".wav"),
       stored rest) ∈ data.

(** C7, as the specification words it: a [.flac] file whose base name is
    not a key of the transcript mapping of its chapter makes the
    construction raise a lookup error, and where every base name is a key
    the construction returns a catalog with one entry for each [.flac]
    file. *)
Definition libri_lookup_claimed (root : string) (w : world) : Prop :=
  (forall cd tr name,
     (cd, tr, name) ∈ corpus_flacs root w -> tr !! base_name name = None ->
     exists key, fst (LibriSpeechDataset_init root w) = inl (KeyError key)) /\
  ((forall cd tr name,
      (cd, tr, name) ∈ corpus_flacs root w -> is_Some (tr !! base_name name)) ->
   exists data,
     fst (LibriSpeechDataset_init root w) = inr (LibriSpeechDataset data) /\
     length data = length (corpus_flacs root w)).

(** ** Fixtures: a tokeniser and small corpora to run the program on *)

Module Fixture.

(** The pieces of [s] between occurrences of [sep]. *)
Fixpoint pieces_from (sep : ascii) (cur : string) (s : string) : list string :=
  match s with
  | EmptyString => [cur]
  | String c s' =>
      if Ascii.eqb c sep then cur :: pieces_from sep EmptyString s'
      else pieces_from sep (cur +:+ String c EmptyString) s'
  end.

(** A tokeniser for texts without quoted fields: a record per line, a
    field per comma, no record for the text after the last newline when it
    is empty, and an empty record for an empty line. *)
Definition plain_csv (text : string) : list (list string) :=
  (fun line => match line with
               | EmptyString => []
               | _ => pieces_from "," EmptyString line
               end)
    <$> match rev (pieces_from Str.newline EmptyString text) with
        | EmptyString :: r => rev r
        | _ => pieces_from Str.newline EmptyString text
        end.

Definition nl : string := String Str.newline EmptyString.

Definition clip : node := AudioFile (Audio 32000 1 16000).

(** A Common Voice corpus whose second row has a negative count of down
    votes. *)
Definition cv_world : world :=
  World (list_to_map
    [ ([], Dir ["cv"]);
      (["cv"], Dir ["cv-valid-test.csv"; "a.mp3"; "b.mp3"; "c.mp3"]);
      (["cv"; "cv-valid-test.csv"],
       TextFile ("filename,text,up_votes,down_votes" +:+ nl +:+
                 "a.mp3,Hello,2,0" +:+ nl +:+
                 "b.mp3,There,3,-1" +:+ nl +:+
                 "c.mp3,x,1,0" +:+ nl));
      (["cv"; "a.mp3"], clip);
      (["cv"; "b.mp3"], clip);
      (["cv"; "c.mp3"], clip) ]) [].

(** A Common Voice corpus with a file name that holds [.mp3] twice. *)
Definition cv_world_mp3 : world :=
  World (list_to_map
    [ ([], Dir ["cv"]);
      (["cv"], Dir ["cv-valid-test.csv"; "a.mp3.mp3"]);
      (["cv"; "cv-valid-test.csv"],
       TextFile ("filename,text,up_votes,down_votes" +:+ nl +:+
                 "a.mp3.mp3,Hello,2,0" +:+ nl));
      (["cv"; "a.mp3.mp3"], clip) ]) [].

(** A Common Voice corpus in a directory whose name holds [.mp3]. *)
Definition cv_world_root : world :=
  World (list_to_map
    [ ([], Dir ["cv.mp3"]);
      (["cv.mp3"], Dir ["cv-valid-test.csv"; "a.mp3"]);
      (["cv.mp3"; "cv-valid-test.csv"],
       TextFile ("filename,text,up_votes,down_votes" +:+ nl +:+
                 "a.mp3,Hello,2,0" +:+ nl));
      (["cv.mp3"; "a.mp3"], clip) ]) [].

(** A custom corpus of three rows, one of them kept. *)
Definition custom_world : world :=
  World (list_to_map
    [ ([], Dir ["c"]);
      (["c"], Dir ["annotations.csv"; "original"]);
      (["c"; "annotations.csv"],
       TextFile ("file,text,language" +:+ nl +:+
                 "a.wav,bonjour,FR" +:+ nl +:+
                 "b.wav,,EN" +:+ nl +:+
                 "c.wav,hi,EN" +:+ nl));
      (["c"; "original"], Dir ["c.mp3"; "c.wav"]);
      (["c"; "original"; "c.wav"], clip) ]) [].

(** A LibriSpeech corpus of one speaker, one chapter and two utterances. *)
Definition libri_world : world :=
  World (list_to_map
    [ ([], Dir ["ls"]);
      (["ls"], Dir ["1"]);
      (["ls"; "1"], Dir ["2"]);
      (["ls"; "1"; "2"], Dir ["1-2.trans.txt"; "1-2-0.flac"; "1-2-1.flac"]);
      (["ls"; "1"; "2"; "1-2.trans.txt"],
       TextFile ("1-2-0 HELLO WORLD" +:+ nl +:+ "1-2-1 BYE" +:+ nl));
      (["ls"; "1"; "2"; "1-2-0.flac"], clip);
      (["ls"; "1"; "2"; "1-2-1.flac"], clip) ]) [].

(** A chapter whose audio file is called [a.wav.flac]; the transcript
    has a line for [a.wav], the name without its extension. *)
Definition libri_world_odd : world :=
  World (list_to_map
    [ ([], Dir ["ls"]);
      (["ls"], Dir ["1"]);
      (["ls"; "1"], Dir ["2"]);
      (["ls"; "1"; "2"], Dir ["1-2.trans.txt"; "a.wav.flac"]);
      (["ls"; "1"; "2"; "1-2.trans.txt"], TextFile ("a.wav HELLO" +:+ nl));
      (["ls"; "1"; "2"; "a.wav.flac"], clip) ]) [].

(** The same chapter with a transcript that has no line for [a.wav], but
    one for [a]. *)
Definition libri_world_odd' : world :=
  World (list_to_map
    [ ([], Dir ["ls"]);
      (["ls"], Dir ["1"]);
      (["ls"; "1"], Dir ["2"]);
      (["ls"; "1"; "2"], Dir ["1-2.trans.txt"; "a.wav.flac"]);
      (["ls"; "1"; "2"; "1-2.trans.txt"], TextFile ("a HELLO" +:+ nl));
      (["ls"; "1"; "2"; "a.wav.flac"], clip) ]) [].

(** A chapter whose transcript has no line for its second utterance. *)
Definition libri_world_missing : world :=
  World (list_to_map
    [ ([], Dir ["ls"]);
      (["ls"], Dir ["1"]);
      (["ls"; "1"], Dir ["2"]);
      (["ls"; "1"; "2"], Dir ["1-2.trans.txt"; "1-2-0.flac"; "1-2-1.flac"]);
      (["ls"; "1"; "2"; "1-2.trans.txt"], TextFile ("1-2-0 HELLO WORLD" +:+ nl));
      (["ls"; "1"; "2"; "1-2-0.flac"], clip);
      (["ls"; "1"; "2"; "1-2-1.flac"], clip) ]) [].

(** A chapter whose audio file cannot be decoded and has no WAV file
    next to it. *)
Definition libri_world_undecodable : world :=
  World (list_to_map
    [ ([], Dir ["ls"]);
      (["ls"], Dir ["1"]);
      (["ls"; "1"], Dir ["2"]);
      (["ls"; "1"; "2"], Dir ["1-2.trans.txt"; "1-2-0.flac"]);
      (["ls"; "1"; "2"; "1-2.trans.txt"], TextFile ("1-2-0 HELLO WORLD" +:+ nl));
      (["ls"; "1"; "2"; "1-2-0.flac"], TextFile "not audio") ]) [].

End Fixture.

(** ** What a construction has built *)

(** The file that an audio library wrote. *)
Definition event_dst (ev : event) : string :=
  match ev with
  | SoxBuild _ dst => dst
  | SfWrite dst => dst
  end.

(** From the catalog and the world of [a] to those of [b]: entries were
    appended whose audio files are there in the end, files were kept,
    and each audio file that was written is the file of an appended
    entry and was not there at the start. *)
Definition built (a b : catalog * world) : Prop :=
  exists suf evs,
    fst b = fst a ++ suf /\
    journal (snd b) = journal (snd a) ++ evs /\
    grows any_names (snd a) (snd b) /\
    (forall e, e ∈ suf -> exists_ (fst e) (snd b) = (inr true, snd b)) /\
    (forall ev, ev ∈ evs ->
       event_dst ev ∈ (fst <$> suf) /\
       exists_ (event_dst ev) (snd a) = (inr false, snd a)).

(** ** Audio that can be decoded *)

(** Whether [soundfile.read] decodes the file at [p]. *)
Definition is_audio (p : string) (w : world) : bool :=
  match lookup_path p w with
  | Some (AudioFile _) => true
  | _ => false
  end.

(** The number of samples that [soundfile.read] finds at [p]. *)
Definition samples_at (p : string) (w : world) : Z :=
  match lookup_path p w with
  | Some (AudioFile a) => Z.of_N (frames a * channels a)
  | _ => 0
  end.

(** ** Datasets as objects *)

(** A dataset of the program is an object, and its catalog a list that the
    attribute [_data] of the object refers to: whoever holds the dataset,
    or the list, can change the list in place. Here the objects live in a
    heap, and a method is a computation on the heap and on the files. *)
Module Obj.

Definition ref := positive.

Inductive object :=
| Instance (cls : pyclass) (attrs : gmap string ref)
| PyList (items : catalog).

Record machine := Machine { heap : gmap ref object; files : world }.

Definition P (A : Type) : Type := machine -> (exn + A) * machine.

Definition ret {A} (a : A) : P A := fun s => (inr a, s).
Definition raise {A} (e : exn) : P A := fun s => (inl e, s).
Definition bind {A B} (m : P A) (k : A -> P B) : P B :=
  fun s => match m s with
           | (inl e, s') => (inl e, s')
           | (inr a, s') => k a s'
           end.

Notation "'let+' x := m 'in' k" := (bind m (fun x => k))
  (at level 10, x name, m at level 100, k at level 200, only parsing).

Fixpoint for_each {A St} (xs : list A) (body : A -> St -> P St) (acc : St) : P St :=
  match xs with
  | [] => ret acc
  | x :: xs' => let+ acc' := body x acc in for_each xs' body acc'
  end.

(** A computation on the files, which knows of no object. *)
Definition lift {A} (m : M A) : P A :=
  fun s => let '(r, w) := m (files s) in (r, Machine (heap s) w).

(** [type(self)] of an instance of one of the four classes *)
Definition class_of (self : ref) : P pyclass :=
  fun s => (match heap s !! self with
            | Some (Instance cls _) => inr cls
            | _ => inl AttributeError
            end, s).

(** [self.<name>] *)
Definition getattr (self : ref) (name : string) : P ref :=
  fun s => (match heap s !! self with
            | Some (Instance _ attrs) =>
                match attrs !! name with
                | Some r => inr r
                | None => inl AttributeError
                end
            | _ => inl AttributeError
            end, s).

(** [len(l)] *)
Definition len (l : ref) : P Z :=
  fun s => (match heap s !! l with
            | Some (PyList items) => inr (Z.of_nat (length items))
            | _ => inl TypeError
            end, s).

(** [l[index]] *)
Definition item (l : ref) (index : Z) : P (string * string) :=
  fun s => match heap s !! l with
           | Some (PyList items) => lift (list_getitem items index) s
           | _ => (inl TypeError, s)
           end.

(** [l.append(e)]: the list is changed where it is. *)
Definition append (l : ref) (e : string * string) : P unit :=
  fun s => match heap s !! l with
           | Some (PyList items) =>
               (inr tt, Machine (<[l := PyList (items ++ [e])]> (heap s)) (files s))
           | _ => (inl AttributeError, s)
           end.

(** A new object, at a reference that nothing holds. *)
Definition alloc (o : object) : P ref :=
  fun s => let r := fresh (dom (heap s)) in
           (inr r, Machine (<[r := o]> (heap s)) (files s)).

(** *** The accessors, as methods

    A call [self.size()] runs the method of the class of [self]: the three
    corpus classes define [size], [get] and [__str__] with the same bodies
    but for the label, and the base class raises. *)

Definition size (self : ref) : P Z :=
  let+ cls := class_of self in
  match cls with
  | ClsDataset => raise NotImplementedError
  | ClsCommonVoice | ClsLibriSpeech | ClsCustom =>
      let+ l := getattr self "_data" in len l
  end.

Definition get (self : ref) (index : Z) : P (string * string) :=
  let+ cls := class_of self in
  match cls with
  | ClsDataset => raise NotImplementedError
  | ClsCommonVoice | ClsLibriSpeech | ClsCustom =>
      let+ l := getattr self "_data" in item l index
  end.

(** [__str__] *)
Definition label (self : ref) : P string :=
  let+ cls := class_of self in
  match cls with
  | ClsDataset => raise NotImplementedError
  | ClsCommonVoice => ret "Common Voice Dataset"
  | ClsLibriSpeech => ret "LibriSpeech Dataset"
  | ClsCustom => ret "Custom Dataset"
  end.

(** [all_data] returns the list itself, not a copy of it. *)
Definition all_data (self : ref) : P ref :=
  let+ cls := class_of self in
  match cls with
  | ClsCustom => getattr self "_data"
  | _ => raise NotImplementedError
  end.

Definition size_in (per : positive) (self : ref) : P Q :=
  let+ n := size self in
  let+ parts :=
    for_each (range n)
      (fun i acc =>
         let+ e := get self i in
         let+ pcm := lift (sf_read (fst e)) in
         ret (acc ++ [Z.of_N (frames pcm * channels pcm) # per])) [] in
  ret (fold_left Qplus parts 0%Q).

Definition size_hours (self : ref) : P Q := size_in (16000 * 3600) self.
Definition size_seconds (self : ref) : P Q := size_in 16000 self.

Definition invoke (self : ref) (c : call) : P value :=
  match c with
  | CallSize => let+ n := size self in ret (VInt n)
  | CallGet index => let+ e := get self index in ret (VEntry e)
  | CallSizeSeconds => let+ q := size_seconds self in ret (VFloat q)
  | CallSizeHours => let+ q := size_hours self in ret (VFloat q)
  | CallLabel => let+ s := label self in ret (VStr s)
  end.

(** The calls made one after the other by a caller that catches what they
    raise: the outcomes, and the heap and the files after the last call. *)
Fixpoint invoke_all (self : ref) (cs : list call) (s : machine)
    : list (exn + value) * machine :=
  match cs with
  | [] => ([], s)
  | c :: cs' =>
      let '(r, s1) := invoke self c s in
      let '(rs, s2) := invoke_all self cs' s1 in
      (r :: rs, s2)
  end.

(** *** Construction

    [cls(root)] makes the object and runs [__init__] on it, which binds a
    new list to [_data] and appends to it. Until [__init__] returns, the
    program holds no other reference to the object or to the list, so the
    builders above return the list that [__init__] has filled, and the
    object is made of it here. Where [__init__] raises, the program never
    gets hold of the object. *)
Definition new (d : dataset) : P ref :=
  match d with
  | Dataset => alloc (Instance ClsDataset ∅)
  | CommonVoiceDataset data =>
      let+ l := alloc (PyList data) in alloc (Instance ClsCommonVoice {["_data" := l]})
  | LibriSpeechDataset data =>
      let+ l := alloc (PyList data) in alloc (Instance ClsLibriSpeech {["_data" := l]})
  | CustomDataset data =>
      let+ l := alloc (PyList data) in alloc (Instance ClsCustom {["_data" := l]})
  end.

Definition create (csv_reader : string -> list (list string)) (cls : pyclass)
    (dataset_type root : string) : P ref :=
  let+ d := lift (create csv_reader cls dataset_type root) in new d.

(** *** What an object stands for *)

(** The dataset that the object at [self] is, where it is one. *)
Definition dataset_of (self : ref) (s : machine) : option dataset :=
  match heap s !! self with
  | Some (Instance ClsDataset _) => Some Dataset
  | Some (Instance cls attrs) =>
      match attrs !! "_data" with
      | Some l =>
          match heap s !! l with
          | Some (PyList data) =>
              Some match cls with
                   | ClsCommonVoice => CommonVoiceDataset data
                   | ClsLibriSpeech => LibriSpeechDataset data
                   | _ => CustomDataset data
                   end
          | _ => None
          end
      | None => None
      end
  | _ => None
  end.

End Obj.

(** A heap with one dataset: what the construction of the custom corpus
    of [Fixture.custom_world] leaves on an empty heap. *)
Definition custom_machine : Obj.machine :=
  snd (Obj.create Fixture.plain_csv ClsDataset "custom" "/c"
         (Obj.Machine ∅ Fixture.custom_world)).

(** * Properties *)

Example ex_replace_1 : Str.replace ".mp3" ".wav" "a.mp3.mp3" = "a.wav.wav".
Proof. reflexivity. Qed.
Example ex_replace_2 : Str.replace ".wav" EmptyString "a.wav.wav" = "a".
Proof. reflexivity. Qed.
Example ex_replace_3 : Str.replace EmptyString "-" "ab" = "-a-b-".
Proof. reflexivity. Qed.
Example ex_int_1 : Str.int " -1_0 " = Some (-10).
Proof. reflexivity. Qed.
Example ex_int_2 : Str.int "1__0" = None.
Proof. reflexivity. Qed.
Example ex_split : Str.split1 " " "a b c" = ("a", Some "b c").
Proof. reflexivity. Qed.
Example ex_lines :
  Str.readlines ("ab" +:+ Fixture.nl +:+ "cd") = ["ab" +:+ Fixture.nl; "cd"].
Proof. reflexivity. Qed.
Example ex_comps : Path.comps "/data//ls/1/" = ["data"; "ls"; "1"].
Proof. reflexivity. Qed.
Example ex_join : Path.join "/data/" "x" = "/data/x" /\ Path.join "/data" "x" = "/data/x" /\ Path.join "/data" "/x" = "/x".
Proof. repeat split; reflexivity. Qed.
Example ex_lower : Str.lower "Hello W" = "hello w".
Proof. reflexivity. Qed.

(** ** The monad *)

Lemma bind_ok {A B} (m : M A) (k : A -> M B) w b w' :
  bind m k w = (inr b, w') ->
  exists a w1, m w = (inr a, w1) /\ k a w1 = (inr b, w').
Proof.
  unfold bind. destruct (m w) as [[e|a] w1]; [discriminate|]. eauto.
Qed.

Lemma bind_ret_l {A B} (a : A) (k : A -> M B) w : bind (ret a) k w = k a w.
Proof. reflexivity. Qed.

Lemma bind_eq {A B} (m : M A) (k : A -> M B) w a w1 :
  m w = (inr a, w1) -> bind m k w = k a w1.
Proof. unfold bind. intros ->. reflexivity. Qed.

Lemma ret_ok {A} (a b : A) w w' : ret a w = (inr b, w') -> a = b /\ w = w'.
Proof. unfold ret. intros [= -> ->]. auto. Qed.

Lemma raise_ok {A} e (b : A) w w' : raise e w = (inr b, w') -> False.
Proof. discriminate. Qed.

(** Takes a successful run of a sequence of binds apart, one bind at a
    time. *)
Ltac step_ok H :=
  first
    [ apply bind_ok in H as (? & ? & ? & H)
    | apply ret_ok in H as [? ?]; subst
    | apply raise_ok in H; contradiction ].

Tactic Notation "bind_ok" hyp(H) "as" simple_intropattern(a) ident(H1) :=
  let w := fresh "w" in
  apply bind_ok in H as (a & w & H1 & H).

Lemma for_each_app {A St} (xs ys : list A) (body : A -> St -> M St) s w :
  for_each (xs ++ ys) body s w =
  bind (for_each xs body s) (for_each ys body) w.
Proof.
  revert s w. induction xs as [|x xs IH]; intros s w; simpl.
  - reflexivity.
  - unfold bind. destruct (body x s w) as [[e|s1] w1]; [reflexivity|].
    apply IH.
Qed.

(** A relation that every successful pass of the body respects is
    respected by the whole loop. *)
Lemma for_each_ok_rel {A St} (R : St * world -> St * world -> Prop)
    (xs : list A) (body : A -> St -> M St) :
  (forall st, R st st) ->
  (forall a b c, R a b -> R b c -> R a c) ->
  (forall x s w s' w', x ∈ xs -> body x s w = (inr s', w') -> R (s, w) (s', w')) ->
  forall s w s' w',
    for_each xs body s w = (inr s', w') -> R (s, w) (s', w').
Proof.
  intros Hrefl Htrans. induction xs as [|x xs IH]; intros Hbody s w s' w' Hrun.
  - simpl in Hrun. step_ok Hrun. apply Hrefl.
  - simpl in Hrun. step_ok Hrun.
    eapply Htrans.
    + eapply Hbody; [left|eassumption].
    + apply IH; [|assumption]. intros; eapply Hbody; [right|]; eassumption.
Qed.

(** A successful loop ran the body on each of its elements, from a state
    the loop had reached and to one it went on from. *)
Lemma for_each_ok_elem {A St} (R : St * world -> St * world -> Prop)
    (xs : list A) (body : A -> St -> M St) x :
  (forall st, R st st) ->
  (forall a b c, R a b -> R b c -> R a c) ->
  (forall x s w s' w', x ∈ xs -> body x s w = (inr s', w') -> R (s, w) (s', w')) ->
  x ∈ xs ->
  forall s w s' w',
    for_each xs body s w = (inr s', w') ->
    exists s1 w1 s2 w2,
      R (s, w) (s1, w1) /\ body x s1 w1 = (inr s2, w2) /\ R (s2, w2) (s', w').
Proof.
  intros Hrefl Htrans Hbody Hin s w s' w' Hrun.
  apply list_elem_of_split in Hin as (l1 & l2 & ->).
  rewrite for_each_app in Hrun. step_ok Hrun. simpl in Hrun. step_ok Hrun.
  do 4 eexists. split; [|split; [eassumption|]].
  - eapply for_each_ok_rel; [done|done| |eassumption].
    intros. eapply Hbody; [|eassumption]. set_solver.
  - eapply for_each_ok_rel; [done|done| |eassumption].
    intros. eapply Hbody; [|eassumption]. set_solver.
Qed.

(** ** Indexed access *)

Lemma list_getitem_in_range {A} (l : list A) (i : Z) w :
  0 <= i < Z.of_nat (length l) ->
  exists x, l !! Z.to_nat i = Some x /\ list_getitem l i w = (inr x, w).
Proof.
  intros Hi. unfold list_getitem.
  destruct (Z.ltb_spec i 0) as [?|_]; [lia|].
  destruct (Z.ltb_spec i 0) as [?|_]; [lia|].
  destruct (Z.leb_spec (Z.of_nat (length l)) i) as [?|_]; [lia|]. simpl.
  destruct (lookup_lt_is_Some_2 l (Z.to_nat i)) as [x Hx]; [lia|].
  exists x. rewrite Hx. auto.
Qed.

Lemma list_getitem_negative {A} (l : list A) (i : Z) w :
  - Z.of_nat (length l) <= i < 0 ->
  exists x, l !! Z.to_nat (Z.of_nat (length l) + i) = Some x /\
            list_getitem l i w = (inr x, w).
Proof.
  intros Hi. unfold list_getitem.
  destruct (Z.ltb_spec i 0) as [_|?]; [|lia].
  destruct (Z.ltb_spec (i + Z.of_nat (length l)) 0) as [?|_]; [lia|].
  destruct (Z.leb_spec (Z.of_nat (length l)) (i + Z.of_nat (length l))) as [?|_]; [lia|].
  simpl. replace (Z.of_nat (length l) + i) with (i + Z.of_nat (length l)) by lia.
  destruct (lookup_lt_is_Some_2 l (Z.to_nat (i + Z.of_nat (length l)))) as [x Hx]; [lia|].
  exists x. rewrite Hx. auto.
Qed.

Lemma list_getitem_outside {A} (l : list A) (i : Z) w :
  i < - Z.of_nat (length l) \/ Z.of_nat (length l) <= i ->
  list_getitem l i w = (inl IndexError, w).
Proof.
  intros Hi. unfold list_getitem.
  destruct (Z.ltb_spec i 0) as [?|?].
  - destruct (Z.ltb_spec (i + Z.of_nat (length l)) 0) as [?|?]; [reflexivity|lia].
  - destruct (Z.ltb_spec i 0) as [?|_]; [lia|].
    destruct (Z.leb_spec (Z.of_nat (length l)) i) as [?|?]; [reflexivity|lia].
Qed.

Lemma get_entries self data index w :
  entries self = Some data -> get self index w = list_getitem data index w.
Proof. destruct self; intros [= <-]; reflexivity. Qed.

Lemma size_entries self data w :
  entries self = Some data -> size self w = (inr (Z.of_nat (length data)), w).
Proof. destruct self; intros [= <-]; reflexivity. Qed.

(** C3 does not hold as worded: on a catalog of one entry, [get(-1)]
    returns that entry. *)
Lemma get_minus_one_returns_last :
  ~ get_refuses_outside_0_size (CommonVoiceDataset [("/cv/a.wav", "hello")]).
Proof.
  intros H.
  specialize (H [("/cv/a.wav", "hello")] (-1) (World ∅ []) eq_refl).
  simpl in H. discriminate H. lia.
Qed.

(** C3, amended: for each of the three corpus classes, [get(index)] raises
    [IndexError] when [index < -size()] or [index >= size()], returns the
    entry at position [index] when [0 <= index < size()], and the entry at
    position [size() + index] when [-size() <= index < 0]; it writes
    nothing. *)
Theorem get_by_index (self : dataset) (data : catalog) (index : Z) (w : world) :
  entries self = Some data ->
  (index < - Z.of_nat (length data) \/ Z.of_nat (length data) <= index ->
   get self index w = (inl IndexError, w)) /\
  (0 <= index < Z.of_nat (length data) ->
   exists e, data !! Z.to_nat index = Some e /\ get self index w = (inr e, w)) /\
  (- Z.of_nat (length data) <= index < 0 ->
   exists e, data !! Z.to_nat (Z.of_nat (length data) + index) = Some e /\
             get self index w = (inr e, w)).
Proof.
  intros Hself. rewrite (get_entries _ _ _ _ Hself).
  split; [|split].
  - apply list_getitem_outside.
  - apply list_getitem_in_range.
  - apply list_getitem_negative.
Qed.

Lemma get_by_index_witness :
  get (LibriSpeechDataset [("/ls/a.wav", "A"); ("/ls/b.wav", "B")]) 2 (World ∅ [])
  = (inl IndexError, World ∅ []).
Proof.
  apply (get_by_index (LibriSpeechDataset [("/ls/a.wav", "A"); ("/ls/b.wav", "B")])
           [("/ls/a.wav", "A"); ("/ls/b.wav", "B")] 2 (World ∅ []) eq_refl).
  simpl. lia.
Defined.

(** ** The factory *)

Lemma CommonVoiceDataset_init_class csv root w d w' :
  CommonVoiceDataset_init csv root w = (inr d, w') ->
  exists data, d = CommonVoiceDataset data.
Proof.
  unfold CommonVoiceDataset_init. intros H. repeat step_ok H. eauto.
Qed.

Lemma LibriSpeechDataset_init_class root w d w' :
  LibriSpeechDataset_init root w = (inr d, w') ->
  exists data, d = LibriSpeechDataset data.
Proof.
  unfold LibriSpeechDataset_init. intros H. repeat step_ok H. eauto.
Qed.

Lemma CustomDataset_init_class csv root w d w' :
  CustomDataset_init csv root w = (inr d, w') ->
  exists data, d = CustomDataset data.
Proof.
  unfold CustomDataset_init. intros H. repeat step_ok H. eauto.
Qed.

(** C5: [create] hands the three recognised type names to the three
    constructors, so that whatever it returns is an instance of the class
    of that name and carries the label of that class; for any other type
    name it raises [ValueError] with a message that quotes the name. *)
Theorem create_by_type csv (cls : pyclass) (dataset_type root : string) (w : world) :
  (dataset_type = "commonvoice" ->
   create csv cls dataset_type root w = CommonVoiceDataset_init csv root w /\
   forall d w', create csv cls dataset_type root w = (inr d, w') ->
     (exists data, d = CommonVoiceDataset data) /\
     label d w' = (inr "Common Voice Dataset", w')) /\
  (dataset_type = "librispeech" ->
   create csv cls dataset_type root w = LibriSpeechDataset_init root w /\
   forall d w', create csv cls dataset_type root w = (inr d, w') ->
     (exists data, d = LibriSpeechDataset data) /\
     label d w' = (inr "LibriSpeech Dataset", w')) /\
  (dataset_type = "custom" ->
   create csv cls dataset_type root w = CustomDataset_init csv root w /\
   forall d w', create csv cls dataset_type root w = (inr d, w') ->
     (exists data, d = CustomDataset data) /\
     label d w' = (inr "Custom Dataset", w')) /\
  (dataset_type <> "commonvoice" -> dataset_type <> "librispeech" ->
   dataset_type <> "custom" ->
   create csv cls dataset_type root w =
   (inl (ValueError ("cannot create " +:+ class_name cls +:+ " of type '"
                     +:+ dataset_type +:+ "'")), w)).
Proof.
  repeat split.
  - subst. reflexivity.
  - subst. apply CommonVoiceDataset_init_class in H0 as [data ->]. eauto.
  - subst. apply CommonVoiceDataset_init_class in H0 as [data ->]. reflexivity.
  - subst. reflexivity.
  - subst. apply LibriSpeechDataset_init_class in H0 as [data ->]. eauto.
  - subst. apply LibriSpeechDataset_init_class in H0 as [data ->]. reflexivity.
  - subst. reflexivity.
  - subst. apply CustomDataset_init_class in H0 as [data ->]. eauto.
  - subst. apply CustomDataset_init_class in H0 as [data ->]. reflexivity.
  - intros H1 H2 H3. unfold create.
    destruct (String.eqb_spec dataset_type "commonvoice"); [contradiction|].
    destruct (String.eqb_spec dataset_type "librispeech"); [contradiction|].
    destruct (String.eqb_spec dataset_type "custom"); [contradiction|].
    reflexivity.
Qed.

Lemma create_by_type_witness :
  (exists data w',
     create Fixture.plain_csv ClsDataset "custom" "/c" Fixture.custom_world
     = (inr (CustomDataset data), w') /\
     label (CustomDataset data) w' = (inr "Custom Dataset", w')) /\
  create Fixture.plain_csv ClsDataset "tedlium" "/c" Fixture.custom_world
  = (inl (ValueError "cannot create Dataset of type 'tedlium'"), Fixture.custom_world).
Proof.
  pose proof (create_by_type Fixture.plain_csv ClsDataset "custom" "/c"
                Fixture.custom_world) as (_ & _ & Hcustom & _).
  pose proof (create_by_type Fixture.plain_csv ClsDataset "tedlium" "/c"
                Fixture.custom_world) as (_ & _ & _ & Hother).
  split.
  - destruct (Hcustom eq_refl) as [Hinit Hlabel].
    destruct (create Fixture.plain_csv ClsDataset "custom" "/c" Fixture.custom_world)
      as [[e|d] w'] eqn:Hrun.
    + vm_compute in Hinit. discriminate Hinit.
    + destruct (Hlabel d w' eq_refl) as [[data ->] Hl]. eauto.
  - apply Hother; discriminate.
Defined.

(** ** The bulk accessor *)

(** C10: [all_data()] raises [NotImplementedError] on a Common Voice and
    on a LibriSpeech dataset, which have it from the base class; on a
    custom dataset it returns the catalog, the list whose length [size()]
    returns and whose entries [get] returns. *)
Theorem all_data_only_custom (data : catalog) (w : world) :
  all_data Dataset w = (inl NotImplementedError, w) /\
  all_data (CommonVoiceDataset data) w = (inl NotImplementedError, w) /\
  all_data (LibriSpeechDataset data) w = (inl NotImplementedError, w) /\
  all_data (CustomDataset data) w = (inr data, w) /\
  size (CustomDataset data) w = (inr (Z.of_nat (length data)), w) /\
  forall (i : nat) e, data !! i = Some e ->
    get (CustomDataset data) (Z.of_nat i) w = (inr e, w).
Proof.
  repeat split. intros i e Hi. simpl.
  destruct (list_getitem_in_range data (Z.of_nat i) w) as (x & Hx & ->).
  - split; [lia|]. apply lookup_lt_Some in Hi. lia.
  - rewrite Nat2Z.id in Hx. congruence.
Qed.

Lemma all_data_only_custom_witness :
  all_data (CustomDataset [("/c/c.wav", "hi"); ("/c/c.wav", "hi")]) Fixture.custom_world
  = (inr [("/c/c.wav", "hi"); ("/c/c.wav", "hi")], Fixture.custom_world) /\
  get (CustomDataset [("/c/c.wav", "hi"); ("/c/c.wav", "hi")]) 1 Fixture.custom_world
  = (inr ("/c/c.wav", "hi"), Fixture.custom_world).
Proof.
  pose proof (all_data_only_custom [("/c/c.wav", "hi"); ("/c/c.wav", "hi")]
                Fixture.custom_world) as (_ & _ & _ & Hall & _ & Hget).
  split; [exact Hall|]. apply (Hget 1%nat). reflexivity.
Defined.

(** ** The accessors leave the catalog alone *)

Lemma for_each_reads {A St} (xs : list A) (body : A -> St -> M St) :
  (forall x s w, snd (body x s w) = w) ->
  forall s w, snd (for_each xs body s w) = w.
Proof.
  intros Hbody. induction xs as [|x xs IH]; intros s w; simpl; [reflexivity|].
  unfold bind. specialize (Hbody x s w).
  destruct (body x s w) as [[e|s1] w1]; simpl in *; subst; [reflexivity|apply IH].
Qed.

Lemma list_getitem_reads {A} (l : list A) i w : snd (list_getitem l i w) = w.
Proof.
  unfold list_getitem.
  destruct (_ || _); [reflexivity|]. destruct (l !! _); reflexivity.
Qed.

Lemma size_reads self w : snd (size self w) = w.
Proof. destruct self; reflexivity. Qed.

Lemma get_reads self i w : snd (get self i w) = w.
Proof. destruct self; try reflexivity; apply list_getitem_reads. Qed.

Lemma label_reads self w : snd (label self w) = w.
Proof. destruct self; reflexivity. Qed.

Lemma sf_read_reads p w : snd (sf_read p w) = w.
Proof. reflexivity. Qed.

Lemma bind_reads {A B} (m : M A) (k : A -> M B) w :
  snd (m w) = w -> (forall a, snd (k a w) = w) -> snd (bind m k w) = w.
Proof.
  unfold bind. intros Hm Hk. destruct (m w) as [[e|a] w1]; simpl in *; subst; auto.
Qed.

Lemma size_in_reads per self w : snd (size_in per self w) = w.
Proof.
  unfold size_in. apply bind_reads; [apply size_reads|]. intros n.
  apply bind_reads; [|reflexivity].
  apply for_each_reads. intros i acc w0.
  apply bind_reads; [apply get_reads|]. intros e.
  apply bind_reads; [apply sf_read_reads|]. reflexivity.
Qed.

Lemma invoke_reads self c w : snd (invoke self c w) = w.
Proof.
  destruct c; simpl; (apply bind_reads; [|reflexivity]).
  - apply size_reads.
  - apply get_reads.
  - apply size_in_reads.
  - apply size_in_reads.
  - apply label_reads.
Qed.

Lemma invoke_all_reads self cs w : snd (invoke_all self cs w) = w.
Proof.
  revert w. induction cs as [|c cs IH]; intros w; simpl; [reflexivity|].
  pose proof (invoke_reads self c w) as Hc.
  destruct (invoke self c w) as [r w1]. simpl in Hc. subst w1.
  specialize (IH w). destruct (invoke_all self cs w) as [rs w2]. exact IH.
Qed.

Lemma machine_eta (s : Obj.machine) : Obj.Machine (Obj.heap s) (Obj.files s) = s.
Proof. destruct s; reflexivity. Qed.

Lemma obj_lift_reads {A} (m : M A) (s : Obj.machine) :
  snd (m (Obj.files s)) = Obj.files s ->
  Obj.lift m s = (fst (m (Obj.files s)), s).
Proof.
  unfold Obj.lift. destruct (m (Obj.files s)) as [r w]. simpl.
  intros ->. rewrite machine_eta. reflexivity.
Qed.

(** On an object that stands for the dataset [d], a method returns or
    raises what the accessor of [d] does on the files, and leaves the heap
    and the files as they are. *)
Lemma obj_size_of self d s :
  Obj.dataset_of self s = Some d ->
  Obj.size self s = (fst (size d (Obj.files s)), s).
Proof.
  unfold Obj.dataset_of, Obj.size, Obj.bind, Obj.class_of, Obj.getattr, Obj.len.
  destruct (Obj.heap s !! self) as [[cls attrs|items]|] eqn:Hself; [|discriminate..].
  destruct cls; [intros [= <-]; reflexivity|..];
    (destruct (attrs !! "_data") as [l|] eqn:Hl; [|discriminate]);
    rewrite Hself, Hl;
    (destruct (Obj.heap s !! l) as [[|data]|]; [discriminate| |discriminate]);
    intros [= <-]; reflexivity.
Qed.

Lemma obj_get_of self d index s :
  Obj.dataset_of self s = Some d ->
  Obj.get self index s = (fst (get d index (Obj.files s)), s).
Proof.
  unfold Obj.dataset_of, Obj.get, Obj.bind, Obj.class_of, Obj.getattr, Obj.item.
  destruct (Obj.heap s !! self) as [[cls attrs|items]|] eqn:Hself; [|discriminate..].
  destruct cls; [intros [= <-]; reflexivity|..];
    (destruct (attrs !! "_data") as [l|] eqn:Hl; [|discriminate]);
    rewrite Hself, Hl;
    (destruct (Obj.heap s !! l) as [[|data]|]; [discriminate| |discriminate]);
    intros [= <-]; apply obj_lift_reads, list_getitem_reads.
Qed.

Lemma obj_label_of self d s :
  Obj.dataset_of self s = Some d ->
  Obj.label self s = (fst (label d (Obj.files s)), s).
Proof.
  unfold Obj.dataset_of, Obj.label, Obj.bind, Obj.class_of.
  destruct (Obj.heap s !! self) as [[cls attrs|items]|] eqn:Hself; [|discriminate..].
  destruct cls; [intros [= <-]; reflexivity|..];
    (destruct (attrs !! "_data") as [l|] eqn:Hl; [|discriminate]);
    (destruct (Obj.heap s !! l) as [[|data]|]; [discriminate| |discriminate]);
    intros [= <-]; reflexivity.
Qed.

Lemma obj_bind_of {A B} (mP : Obj.P A) (kP : A -> Obj.P B) (m : M A) (k : A -> M B)
    (s : Obj.machine) :
  mP s = (fst (m (Obj.files s)), s) ->
  snd (m (Obj.files s)) = Obj.files s ->
  (forall a, kP a s = (fst (k a (Obj.files s)), s)) ->
  Obj.bind mP kP s = (fst (bind m k (Obj.files s)), s).
Proof.
  intros Hm Hw Hk. unfold Obj.bind, bind. rewrite Hm.
  destruct (m (Obj.files s)) as [[e|a] w]; simpl in Hw |- *; [reflexivity|].
  subst w. apply Hk.
Qed.

Lemma obj_for_each_of {A St} (xs : list A) (bodyP : A -> St -> Obj.P St)
    (body : A -> St -> M St) (s : Obj.machine) :
  (forall x acc, bodyP x acc s = (fst (body x acc (Obj.files s)), s)) ->
  (forall x acc w, snd (body x acc w) = w) ->
  forall acc,
    Obj.for_each xs bodyP acc s = (fst (for_each xs body acc (Obj.files s)), s).
Proof.
  intros Hbody Hreads. induction xs as [|x xs IH]; intros acc; [reflexivity|].
  cbn [Obj.for_each for_each]. apply obj_bind_of; auto.
Qed.

Lemma obj_size_in_of per self d s :
  Obj.dataset_of self s = Some d ->
  Obj.size_in per self s = (fst (size_in per d (Obj.files s)), s).
Proof.
  intros Hd. unfold Obj.size_in, size_in.
  apply obj_bind_of; [apply obj_size_of, Hd|apply size_reads|]. intros n.
  apply obj_bind_of; [| |reflexivity].
  - apply obj_for_each_of.
    + intros i acc.
      apply obj_bind_of; [apply obj_get_of, Hd|apply get_reads|]. intros e.
      apply obj_bind_of; [|apply sf_read_reads|reflexivity].
      apply obj_lift_reads, sf_read_reads.
    + intros i acc w. apply bind_reads; [apply get_reads|]. intros e.
      apply bind_reads; [apply sf_read_reads|]. reflexivity.
  - apply for_each_reads. intros i acc w.
    apply bind_reads; [apply get_reads|]. intros e.
    apply bind_reads; [apply sf_read_reads|]. reflexivity.
Qed.

Lemma obj_invoke_of self d c s :
  Obj.dataset_of self s = Some d ->
  Obj.invoke self c s = (fst (invoke d c (Obj.files s)), s).
Proof.
  intros Hd. destruct c; cbn [Obj.invoke invoke];
    (apply obj_bind_of; [| |reflexivity]).
  - apply obj_size_of, Hd.
  - apply size_reads.
  - apply obj_get_of, Hd.
  - apply get_reads.
  - apply obj_size_in_of, Hd.
  - apply size_in_reads.
  - apply obj_size_in_of, Hd.
  - apply size_in_reads.
  - apply obj_label_of, Hd.
  - apply label_reads.
Qed.

Lemma obj_invoke_all_of self d cs s :
  Obj.dataset_of self s = Some d ->
  Obj.invoke_all self cs s = (fst (invoke_all d cs (Obj.files s)), s).
Proof.
  intros Hd. induction cs as [|c cs IH]; [reflexivity|].
  simpl. rewrite (obj_invoke_of _ _ _ _ Hd), IH.
  pose proof (invoke_reads d c (Obj.files s)) as Hw.
  destruct (invoke d c (Obj.files s)) as [r w]. simpl in Hw. subst w.
  destruct (invoke_all d cs (Obj.files s)) as [rs w]. reflexivity.
Qed.

(** The object that a construction returns stands for the dataset that
    the builder has made. *)
Lemma obj_new_dataset_of d s self s' :
  Obj.new d s = (inr self, s') ->
  Obj.dataset_of self s' = Some d /\ Obj.files s' = Obj.files s.
Proof.
  assert (forall (h : gmap Obj.ref Obj.object) o,
            fresh (dom (<[fresh (dom h) := o]> h)) <> fresh (dom h)) as Hne.
  { intros h o Heq.
    apply (is_fresh (dom (<[fresh (dom h) := o]> h))).
    rewrite Heq. apply elem_of_dom. rewrite lookup_insert_eq. eauto. }
  unfold Obj.dataset_of.
  destruct d as [|data|data|data]; unfold Obj.new, Obj.bind, Obj.alloc; simpl;
    intros [= <- <-]; simpl; rewrite lookup_insert_eq;
    [split; reflexivity|..];
    (rewrite lookup_singleton_eq, lookup_insert_ne by apply Hne;
     rewrite lookup_insert_eq; split; reflexivity).
Qed.

Lemma obj_create_dataset_of csv cls dataset_type root s self s' :
  Obj.create csv cls dataset_type root s = (inr self, s') ->
  exists d,
    create csv cls dataset_type root (Obj.files s) = (inr d, Obj.files s') /\
    Obj.dataset_of self s' = Some d.
Proof.
  unfold Obj.create, Obj.bind, Obj.lift.
  destruct (create csv cls dataset_type root (Obj.files s)) as [[e|d] w]; [discriminate|].
  intros H. apply obj_new_dataset_of in H as [Hd Hf]. simpl in Hf.
  exists d. rewrite Hf. auto.
Qed.

(** The heap can tell a list that is handed out from a copy of it:
    [all_data] hands out the list of the catalog itself, and an [append]
    to what it returns is an entry more in the dataset. *)
Lemma all_data_hands_out_the_list self data e s :
  Obj.dataset_of self s = Some (CustomDataset data) ->
  exists l s',
    Obj.all_data self s = (inr l, s) /\
    Obj.append l e s = (inr tt, s') /\
    Obj.dataset_of self s' = Some (CustomDataset (data ++ [e])) /\
    Obj.size self s' = (inr (Z.of_nat (length data) + 1), s').
Proof.
  intros Hd.
  assert (exists l attrs,
            Obj.heap s !! self = Some (Obj.Instance ClsCustom attrs) /\
            attrs !! "_data" = Some l /\
            Obj.heap s !! l = Some (Obj.PyList data)) as (l & attrs & Hself & Hl & Hlist).
  { unfold Obj.dataset_of in Hd.
    destruct (Obj.heap s !! self) as [[cls attrs|items]|] eqn:Hself; [|discriminate..].
    destruct cls; [discriminate|..];
      (destruct (attrs !! "_data") as [l|] eqn:Hl; [|discriminate]);
      (destruct (Obj.heap s !! l) as [[|data']|] eqn:Hlist; [discriminate| |discriminate]);
      injection Hd as Hd; try discriminate Hd.
    subst data'. eauto. }
  assert (l <> self) as Hne by (intros ->; congruence).
  assert (Obj.dataset_of self
            (Obj.Machine (<[l := Obj.PyList (data ++ [e])]> (Obj.heap s)) (Obj.files s))
          = Some (CustomDataset (data ++ [e]))) as Hd'.
  { unfold Obj.dataset_of. simpl.
    rewrite lookup_insert_ne, Hself by exact Hne. simpl.
    rewrite Hl, lookup_insert_eq. reflexivity. }
  exists l, (Obj.Machine (<[l := Obj.PyList (data ++ [e])]> (Obj.heap s)) (Obj.files s)).
  split; [|split; [|split]].
  - unfold Obj.all_data, Obj.bind, Obj.class_of, Obj.getattr. rewrite Hself. simpl.
    rewrite Hself, Hl. reflexivity.
  - unfold Obj.append. rewrite Hlist. reflexivity.
  - exact Hd'.
  - rewrite (obj_size_of _ _ _ Hd'). simpl. rewrite length_app. simpl.
    f_equal. f_equal. lia.
Qed.

(** C9: whatever calls of [size], [get], [size_seconds], [size_hours] and
    [__str__] a caller makes on a dataset of one of the three classes,
    in whatever order and whether they return or raise, the heap and the
    files after them are those before them: the object is the dataset it
    was, with the list of its catalog as it was, [size()] still returns
    the length of the catalog and [get(i)] still returns its [i]-th
    entry. *)
Theorem accessors_keep_catalog (self : Obj.ref) (d : dataset) (data : catalog)
    (cs : list call) (s : Obj.machine) :
  Obj.dataset_of self s = Some d ->
  entries d = Some data ->
  snd (Obj.invoke_all self cs s) = s /\
  Obj.dataset_of self (snd (Obj.invoke_all self cs s)) = Some d /\
  Obj.size self (snd (Obj.invoke_all self cs s)) = (inr (Z.of_nat (length data)), s) /\
  forall (i : nat) e, data !! i = Some e ->
    Obj.get self (Z.of_nat i) (snd (Obj.invoke_all self cs s)) = (inr e, s).
Proof.
  intros Hd Hdata. rewrite (obj_invoke_all_of _ _ _ _ Hd). simpl.
  split; [reflexivity|]. split; [exact Hd|]. split.
  - rewrite (obj_size_of _ _ _ Hd), (size_entries _ _ _ Hdata). reflexivity.
  - intros i e Hi. rewrite (obj_get_of _ _ _ _ Hd), (get_entries _ _ _ _ Hdata).
    destruct (list_getitem_in_range data (Z.of_nat i) (Obj.files s)) as (x & Hx & ->).
    + split; [lia|]. apply lookup_lt_Some in Hi. lia.
    + rewrite Nat2Z.id in Hx. simpl. congruence.
Qed.

Lemma accessors_keep_catalog_witness :
  Obj.create Fixture.plain_csv ClsDataset "custom" "/c"
    (Obj.Machine ∅ Fixture.custom_world) = (inr 2%positive, custom_machine) /\
  Obj.get 2%positive 1
    (snd (Obj.invoke_all 2%positive
            [CallSizeSeconds; CallGet 7; CallLabel; CallSize; CallSizeHours]
            custom_machine))
  = (inr ("/c/c.wav", "hi"), custom_machine).
Proof.
  split; [vm_compute; reflexivity|].
  apply (accessors_keep_catalog 2%positive
           (CustomDataset [("/c/c.wav", "hi"); ("/c/c.wav", "hi")])
           [("/c/c.wav", "hi"); ("/c/c.wav", "hi")] _ custom_machine)
    with (i := 1%nat).
  - vm_compute. reflexivity.
  - reflexivity.
  - reflexivity.
Defined.

(** ** The Common Voice builder *)

Lemma lower_empty s : (String.length (Str.lower s) =? 0)%nat = String.eqb s EmptyString.
Proof. destruct s; reflexivity. Qed.

Lemma getitem_ok (d : gmap string (option string)) k v w w' :
  getitem d k w = (inr v, w') -> d !! k = Some v /\ w' = w.
Proof.
  unfold getitem. destruct (d !! k); [|discriminate].
  intros H. apply ret_ok in H as [-> ->]. auto.
Qed.

Lemma py_int_ok v z w w' :
  py_int v w = (inr z, w') -> exists s, v = Some s /\ Str.int s = Some z /\ w' = w.
Proof.
  unfold py_int. destruct v as [s|]; [|discriminate].
  destruct (Str.int s) eqn:Hs; [|discriminate].
  intros H. apply ret_ok in H as [-> ->]. eauto.
Qed.

Lemma path_join_ok a v p w w' :
  path_join a v w = (inr p, w') -> exists b, v = Some b /\ p = Path.join a b /\ w' = w.
Proof.
  unfold path_join. destruct v as [b|]; [|discriminate].
  intros H. apply ret_ok in H as [<- ->]. eauto.
Qed.

Lemma exists_ok p e w w' : exists_ p w = (inr e, w') -> w' = w.
Proof. unfold exists_. intros [= _ ->]. reflexivity. Qed.

(** One pass of the loop over the rows. *)
Lemma CommonVoice_row_ok root row data w data' w' :
  CommonVoice_row root row data w = (inr data', w') ->
  exists text up down,
    cv_fields row = Some (text, up, down) /\
    ((cv_retains text up down = false /\ data' = data /\ w' = w) \/
     (cv_retains text up down = true /\
      exists filename,
        row !! "filename" = Some (Some filename) /\
        data' = data ++ [(Str.replace ".mp3" ".wav" (Path.join root filename),
                          Str.lower text)])).
Proof.
  unfold CommonVoice_row. intros H.
  bind_ok H as v Hv. apply getitem_ok in Hv as [Htext ->].
  bind_ok H as lowered Hl. destruct v as [text|]; [|step_ok Hl]. step_ok Hl.
  bind_ok H as vup Hv. apply getitem_ok in Hv as [Hup ->].
  bind_ok H as up Hi. apply py_int_ok in Hi as (sup & -> & Hupz & ->).
  bind_ok H as vdown Hv. apply getitem_ok in Hv as [Hdown ->].
  bind_ok H as down Hi. apply py_int_ok in Hi as (sdown & -> & Hdownz & ->).
  exists text, up, down.
  split; [unfold cv_fields; rewrite Htext, Hup, Hdown, Hupz, Hdownz; reflexivity|].
  unfold cv_retains. rewrite lower_empty in H.
  destruct (Z.ltb_spec up 2), (Z.leb_spec 2 up); try lia;
    destruct (Z.ltb_spec 0 down), (Z.leb_spec down 0); try lia;
    destruct (String.eqb text EmptyString); simpl in *;
    try (step_ok H; left; auto; fail).
  right. split; [reflexivity|].
  bind_ok H as vfile Hv. apply getitem_ok in Hv as [Hfile ->].
  bind_ok H as mp3_path Hj. apply path_join_ok in Hj as (filename & -> & -> & ->).
  bind_ok H as e He. bind_ok H as u Hu. step_ok H. eauto.
Qed.

Lemma CommonVoice_rows_ok root rows data w data' w' :
  for_each rows (CommonVoice_row root) data w = (inr data', w') ->
  exists c, data' = data ++ c /\ cv_catalog cv_retains root rows = Some c.
Proof.
  revert data w. induction rows as [|row rows IH]; intros data w H; simpl in H.
  - step_ok H. exists []. rewrite app_nil_r. split; reflexivity.
  - bind_ok H as data1 Hrow. apply IH in H as (c & -> & Hc).
    apply CommonVoice_row_ok in Hrow
      as (text & up & down & Hreads & [(Hr & -> & ->)|(Hr & filename & Hf & ->)]);
      simpl; rewrite Hreads, Hc, Hr.
    + exists c. split; reflexivity.
    + rewrite Hf. eexists. rewrite <- app_assoc. split; reflexivity.
Qed.

Lemma read_text_ok p f w w' :
  read_text p w = (inr f, w') -> w' = w /\ lookup_path p w = Some (TextFile f).
Proof.
  unfold read_text. destruct (lookup_path p w) as [[| |]|]; intros [= ? ?]; subst; auto.
Qed.

(** The catalog of a successful construction. *)
Lemma CommonVoiceDataset_init_ok csv root w d w' :
  CommonVoiceDataset_init csv root w = (inr d, w') ->
  exists f data,
    read_text (Path.join root "cv-valid-test.csv") w = (inr f, w) /\
    d = CommonVoiceDataset data /\
    cv_catalog cv_retains root (DictReader csv f) = Some data.
Proof.
  unfold CommonVoiceDataset_init. intros H.
  bind_ok H as f Hf. pose proof (read_text_ok _ _ _ _ Hf) as [-> _].
  bind_ok H as data Hrows. step_ok H.
  apply CommonVoice_rows_ok in Hrows as (c & -> & Hc).
  exists f, c. auto.
Qed.

(** C2 does not hold as worded: the second row of the corpus has
    [down_votes = -1], which is not [0], and is in the catalog. *)
Lemma cv_negative_down_votes_retained :
  ~ cv_filter_claimed Fixture.plain_csv "/cv" Fixture.cv_world.
Proof.
  intros H.
  destruct (CommonVoiceDataset_init Fixture.plain_csv "/cv" Fixture.cv_world)
    as [[e|d] w'] eqn:Hrun; [vm_compute in Hrun; discriminate Hrun|].
  destruct (H d w' Hrun) as (f & data & Hf & -> & Hcat).
  vm_compute in Hrun. injection Hrun as <- _.
  vm_compute in Hf. injection Hf as <-.
  vm_compute in Hcat. discriminate Hcat.
Qed.

(** C2, amended: a row of [cv-valid-test.csv] is added to the catalog if
    and only if [up_votes >= 2], [down_votes <= 0] and its text is not
    empty; the entry of a retained row has the row's text in lower case.
    A construction that returns has read every row, and its catalog has
    the entries of the retained rows, in the order of the rows. *)
Theorem cv_filter (csv : string -> list (list string)) (root : string)
    (w w' : world) (d : dataset) :
  CommonVoiceDataset_init csv root w = (inr d, w') ->
  exists f data,
    read_text (Path.join root "cv-valid-test.csv") w = (inr f, w) /\
    d = CommonVoiceDataset data /\
    cv_catalog cv_retains root (DictReader csv f) = Some data /\
    forall text up down,
      cv_retains text up down = true <-> 2 <= up /\ down <= 0 /\ text <> EmptyString.
Proof.
  intros H. apply CommonVoiceDataset_init_ok in H as (f & data & Hf & -> & Hc).
  exists f, data. repeat split; auto.
  - unfold cv_retains in H. lia.
  - unfold cv_retains in H. lia.
  - unfold cv_retains in H. intros ->. rewrite andb_false_r in H. discriminate.
  - intros (Hup & Hdown & Htext). unfold cv_retains.
    destruct (Z.leb_spec 2 up), (Z.leb_spec down 0); try lia.
    destruct (String.eqb_spec text EmptyString); [contradiction|reflexivity].
Qed.

Lemma cv_filter_witness :
  exists f data,
    read_text (Path.join "/cv" "cv-valid-test.csv") Fixture.cv_world
    = (inr f, Fixture.cv_world) /\
    CommonVoiceDataset [("/cv/a.wav", "hello"); ("/cv/b.wav", "there")]
    = CommonVoiceDataset data /\
    cv_catalog cv_retains "/cv" (DictReader Fixture.plain_csv f) = Some data /\
    forall text up down,
      cv_retains text up down = true <-> 2 <= up /\ down <= 0 /\ text <> EmptyString.
Proof.
  apply (cv_filter Fixture.plain_csv "/cv" Fixture.cv_world
           (snd (CommonVoiceDataset_init Fixture.plain_csv "/cv" Fixture.cv_world))
           (CommonVoiceDataset [("/cv/a.wav", "hello"); ("/cv/b.wav", "there")])).
  vm_compute. reflexivity.
Defined.

(** C8 fails on a path that holds [.mp3] before its extension. For the
    file [a.mp3.mp3] the catalog has [/cv/a.wav.wav], where replacing the
    extension alone gives [/cv/a.mp3.wav]. For the root [/cv.mp3] the WAV
    path of [a.mp3] is [/cv.wav/a.wav], in a directory that is not there,
    and the conversion fails. *)
Theorem cv_wav_path_replaces_every_mp3 :
  fst (CommonVoiceDataset_init Fixture.plain_csv "/cv" Fixture.cv_world_mp3)
  = inr (CommonVoiceDataset [("/cv/a.wav.wav", "hello")]) /\
  Str.replace ".mp3" ".wav" (Path.join "/cv.mp3" "a.mp3") = "/cv.wav/a.wav" /\
  fst (CommonVoiceDataset_init Fixture.plain_csv "/cv.mp3" Fixture.cv_world_root)
  = inl SoxError.
Proof. repeat split; vm_compute; reflexivity. Qed.

(** ** The custom builder *)

(** One pass of the loop over the rows: a kept row is appended twice. *)
Lemma Custom_row_ok root row data w data' w' :
  Custom_row root row data w = (inr data', w') ->
  (custom_keeps row = Some false /\ data' = data /\ w' = w) \/
  (custom_keeps row = Some true /\
   exists file text,
     row !! "file" = Some (Some file) /\ row !! "text" = Some (Some text) /\
     data' = data ++ [(Path.join root file, text); (Path.join root file, text)]).
Proof.
  unfold Custom_row, custom_keeps. intros H.
  bind_ok H as v Hv. apply getitem_ok in Hv as [Htext ->]. rewrite Htext.
  destruct v as [[|c text]|]; try (step_ok H; left; auto; fail).
  bind_ok H as language Hv. apply getitem_ok in Hv as [Hlang ->]. rewrite Hlang.
  destruct (bool_decide (language = Some "EN")); [|step_ok H; left; auto].
  right. split; [reflexivity|].
  bind_ok H as vfile Hv. apply getitem_ok in Hv as [Hfile ->].
  bind_ok H as p Hj. apply path_join_ok in Hj as (file & -> & -> & ->).
  bind_ok H as orig Hj. apply path_join_ok in Hj as (file' & _ & _ & ->).
  bind_ok H as wav Hj. apply path_join_ok in Hj as (file'' & [= <-] & -> & ->).
  bind_ok H as e He. bind_ok H as u Hu. step_ok H.
  exists file, (String c text). rewrite <- app_assoc. auto.
Qed.

Lemma Custom_rows_ok root rows data w data' w' :
  for_each rows (Custom_row root) data w = (inr data', w') ->
  exists c, data' = data ++ c /\ custom_catalog 2 root rows = Some c.
Proof.
  revert data w. induction rows as [|row rows IH]; intros data w H; simpl in H.
  - step_ok H. exists []. rewrite app_nil_r. split; reflexivity.
  - bind_ok H as data1 Hrow. apply IH in H as (c & -> & Hc).
    apply Custom_row_ok in Hrow
      as [(Hk & -> & ->)|(Hk & file & text & Hfile & Htext & ->)];
      simpl; rewrite Hk, Hc.
    + exists c. split; reflexivity.
    + rewrite Hfile, Htext. eexists. rewrite <- app_assoc. split; reflexivity.
Qed.

(** The catalog of a successful construction has the entry of every kept
    row twice. *)
Lemma CustomDataset_init_ok csv root w d w' :
  CustomDataset_init csv root w = (inr d, w') ->
  exists f data,
    read_text (Path.join root "annotations.csv") w = (inr f, w) /\
    d = CustomDataset data /\
    custom_catalog 2 root (DictReader csv f) = Some data.
Proof.
  unfold CustomDataset_init. intros H.
  bind_ok H as f Hf. pose proof (read_text_ok _ _ _ _ Hf) as [-> _].
  bind_ok H as data Hrows. step_ok H.
  apply Custom_rows_ok in Hrows as (c & -> & Hc).
  exists f, c. auto.
Qed.

(** C1 fails on a corpus with one kept row: the rows in French and with
    an empty text add nothing, and the row [c.wav,hi,EN] is in the catalog
    twice, where the claim has it once. *)
Theorem custom_kept_row_added_twice :
  fst (CustomDataset_init Fixture.plain_csv "/c" Fixture.custom_world)
  = inr (CustomDataset [("/c/c.wav", "hi"); ("/c/c.wav", "hi")]) /\
  custom_catalog 1 "/c"
    (DictReader Fixture.plain_csv
       ("file,text,language" +:+ Fixture.nl +:+
        "a.wav,bonjour,FR" +:+ Fixture.nl +:+
        "b.wav,,EN" +:+ Fixture.nl +:+
        "c.wav,hi,EN" +:+ Fixture.nl))
  = Some [("/c/c.wav", "hi")].
Proof. split; vm_compute; reflexivity. Qed.

(** ** Strings *)

Lemma append_nil_r s : s +:+ EmptyString = s.
Proof. induction s; simpl; congruence. Qed.

Lemma append_assoc s t u : (s +:+ t) +:+ u = s +:+ (t +:+ u).
Proof. induction s; simpl; congruence. Qed.

Lemma startswith_refl s : Str.startswith s s = true.
Proof. induction s; simpl; [reflexivity|]. rewrite Ascii.eqb_refl. exact IHs. Qed.

Lemma startswith_app s t : Str.startswith (s +:+ t) s = true.
Proof. induction s; simpl; [reflexivity|]. rewrite Ascii.eqb_refl. exact IHs. Qed.

Lemma endswith_refl s : Str.endswith s s = true.
Proof. destruct s; simpl; [reflexivity|]. rewrite Ascii.eqb_refl, String.eqb_refl. reflexivity. Qed.

Lemma endswith_app s suf : Str.endswith (s +:+ suf) suf = true.
Proof.
  induction s as [|c s IH]; simpl.
  - apply endswith_refl.
  - rewrite IH. apply orb_true_r.
Qed.

Lemma endswith_split s suf :
  Str.endswith s suf = true -> exists s', s = s' +:+ suf.
Proof.
  induction s as [|c s IH]; cbn [Str.endswith]; intros H.
  - rewrite orb_false_r in H. apply String.eqb_eq in H as <-. exists EmptyString. reflexivity.
  - apply orb_true_iff in H as [H|H].
    + apply String.eqb_eq in H as <-. exists EmptyString. reflexivity.
    + destruct (IH H) as [s' ->]. exists (String c s'). reflexivity.
Qed.

Lemma char_free_app c s t :
  char_free c (s +:+ t) = char_free c s && char_free c t.
Proof. induction s; simpl; [reflexivity|]. rewrite IHs. apply andb_assoc. Qed.

(** A pattern whose first character does not come back in it cannot begin
    in [u] and end in a copy of itself that follows [u]. *)
Lemma startswith_tail_of_pattern d q p u :
  char_free d p = true ->
  Str.startswith (u +:+ String d q) p = true -> Str.startswith u p = true.
Proof.
  revert u. induction p as [|a p IH]; intros u Hfree H; [reflexivity|].
  simpl in Hfree. apply andb_true_iff in Hfree as [Had Hfree].
  destruct u as [|b u]; simpl in *.
  - rewrite Ascii.eqb_sym in H. destruct (Ascii.eqb d a); discriminate.
  - apply andb_true_iff in H as [-> H]. simpl. apply IH; assumption.
Qed.

Lemma startswith_before_pattern d q c u :
  char_free d q = true ->
  Str.startswith (String c (u +:+ String d q)) (String d q) = true ->
  Str.startswith (String c u) (String d q) = true.
Proof.
  simpl. intros Hfree H. apply andb_true_iff in H as [-> H]. simpl.
  eapply startswith_tail_of_pattern; eassumption.
Qed.

Lemma replace_from_skip_all old new s k :
  (String.length s <= k)%nat -> Str.replace_from old new k s = EmptyString.
Proof.
  revert k. induction s as [|c s IH]; intros k Hk; simpl in *; [reflexivity|].
  destruct k; [lia|]. apply IH. lia.
Qed.

(** A name that does not contain the pattern and is followed by it: the
    one occurrence is the one that is replaced. *)
Lemma replace_from_suffix d q new u :
  char_free d q = true ->
  contains u (String d q) = false ->
  Str.replace_from (String d q) new 0 (u +:+ String d q) = u +:+ new.
Proof.
  intros Hfree. induction u as [|c u IH]; intros Hu.
  - change (EmptyString +:+ String d q) with (String d q).
    cbn [Str.replace_from]. rewrite startswith_refl.
    rewrite replace_from_skip_all by (simpl; lia). apply append_nil_r.
  - cbn [contains] in Hu. apply orb_false_iff in Hu as [Hhere Hu].
    change (String c u +:+ String d q) with (String c (u +:+ String d q)).
    cbn [Str.replace_from].
    destruct (Str.startswith (String c (u +:+ String d q)) (String d q)) eqn:Hs.
    + apply startswith_before_pattern in Hs; [|assumption]. congruence.
    + rewrite (IH Hu). reflexivity.
Qed.

(** What [replace] copies is in the text and what it adds is in [new]. *)
Lemma char_free_replace_from c old new k s :
  char_free c new = true -> char_free c s = true ->
  char_free c (Str.replace_from old new k s) = true.
Proof.
  intros Hnew. revert k. induction s as [|b s IH]; intros k Hs; [reflexivity|].
  simpl in Hs. apply andb_true_iff in Hs as [Hb Hs]. cbn [Str.replace_from].
  destruct k; [|auto].
  destruct (Str.startswith (String b s) old).
  - rewrite char_free_app, Hnew. simpl. auto.
  - simpl. rewrite Hb. simpl. auto.
Qed.

Lemma replace_from_nonempty old c new s :
  s <> EmptyString -> Str.replace_from old (String c new) 0 s <> EmptyString.
Proof.
  destruct s as [|b s]; [contradiction|]. intros _. cbn [Str.replace_from].
  destruct (Str.startswith (String b s) old); discriminate.
Qed.

(** Where the result of a replacement begins with a character other than
    the first of the pattern and of its substitute, that character was
    copied. *)
Lemma replace_from_head d q n c r s :
  Str.replace_from (String d q) (String d n) 0 s = String c r ->
  c <> d ->
  exists s', s = String c s' /\ Str.replace_from (String d q) (String d n) 0 s' = r.
Proof.
  destruct s as [|b s]; [discriminate|]. cbn [Str.replace_from].
  destruct (Str.startswith (String b s) (String d q)).
  - intros [= -> _]. contradiction.
  - intros [= -> <-] _. eauto.
Qed.

Lemma replace_from_empty d q n s :
  Str.replace_from (String d q) (String d n) 0 s = EmptyString -> s = EmptyString.
Proof.
  destruct s as [|b s]; [reflexivity|]. cbn [Str.replace_from].
  destruct (Str.startswith (String b s) (String d q)); discriminate.
Qed.

(** No result of replacing [.flac] by [.wav] ends in [.flac]. *)
Lemma replace_flac_not_flac s k :
  Str.endswith (Str.replace_from ".flac" ".wav" k s) ".flac" = false.
Proof.
  revert k. induction s as [|c s IH]; intros k; [reflexivity|].
  cbn [Str.replace_from]. destruct k; [|apply IH].
  destruct (Str.startswith (String c s) ".flac") eqn:Hs.
  - simpl. apply IH.
  - cbn [Str.endswith]. rewrite IH, orb_false_r.
    destruct (String.eqb_spec (String c (Str.replace_from ".flac" ".wav" 0 s)) ".flac")
      as [Heq|]; [|reflexivity].
    injection Heq as -> Hr.
    apply replace_from_head in Hr as (s1 & -> & Hr); [|discriminate].
    apply replace_from_head in Hr as (s2 & -> & Hr); [|discriminate].
    apply replace_from_head in Hr as (s3 & -> & Hr); [|discriminate].
    apply replace_from_head in Hr as (s4 & -> & Hr); [|discriminate].
    apply replace_from_empty in Hr as ->.
    discriminate Hs.
Qed.

Lemma valid_name_replace_flac s :
  valid_name s -> valid_name (Str.replace ".flac" ".wav" s).
Proof.
  intros [Hne Hfree]. split.
  - apply replace_from_nonempty, Hne.
  - apply char_free_replace_from; [reflexivity|assumption].
Qed.

(** ** Paths *)

Lemma comps_from_slash cur s :
  Path.comps_from cur (String "/" s) = piece cur ++ Path.comps_from EmptyString s.
Proof. destruct cur; reflexivity. Qed.

Lemma comps_from_name cur b :
  char_free "/" b = true -> Path.comps_from cur b = piece (cur +:+ b).
Proof.
  revert cur. induction b as [|c b IH]; intros cur Hb.
  - rewrite append_nil_r. destruct cur; reflexivity.
  - simpl in Hb. apply andb_true_iff in Hb as [Hc Hb].
    cbn [Path.comps_from]. rewrite Ascii.eqb_sym.
    destruct (Ascii.eqb "/" c); [simpl in Hc; discriminate Hc|].
    rewrite IH by assumption. rewrite append_assoc. reflexivity.
Qed.

Lemma comps_name b : valid_name b -> Path.comps b = [b].
Proof.
  intros [Hne Hb]. unfold Path.comps. rewrite comps_from_name by assumption.
  simpl. destruct b; [contradiction|reflexivity].
Qed.

Lemma comps_from_app_slash cur a b :
  Path.comps_from cur (a +:+ String "/" b) =
  Path.comps_from cur a ++ Path.comps_from EmptyString b.
Proof.
  revert cur. induction a as [|c a IH]; intros cur.
  - simpl. destruct cur; reflexivity.
  - change (String c a +:+ String "/" b) with (String c (a +:+ String "/" b)).
    cbn [Path.comps_from]. destruct (Ascii.eqb c "/").
    + destruct cur; rewrite IH; reflexivity.
    + apply IH.
Qed.

(** The components of [os.path.join(a, b)] for a name [b]. *)
Lemma comps_join a b :
  valid_name b -> Path.comps (Path.join a b) = Path.comps a ++ [b].
Proof.
  intros Hb. pose proof (comps_name b Hb) as Hcb. destruct Hb as [Hne Hfree].
  unfold Path.join.
  assert (Str.startswith b "/" = false) as ->.
  { destruct b as [|c b]; [contradiction|]. simpl in *.
    destruct (Ascii.eqb "/" c); [simpl in Hfree; discriminate Hfree|reflexivity]. }
  destruct (String.eqb_spec a EmptyString) as [->|Ha]; [exact Hcb|]. simpl.
  destruct (Str.endswith a "/") eqn:Hend.
  - apply endswith_split in Hend as [a' ->].
    rewrite append_assoc. change ("/" +:+ b) with (String "/" b).
    unfold Path.comps in *. rewrite !comps_from_app_slash, Hcb.
    simpl. rewrite app_nil_r. reflexivity.
  - change ("/" +:+ b) with (String "/" b).
    unfold Path.comps in *. rewrite comps_from_app_slash, Hcb. reflexivity.
Qed.

Lemma valid_name_piece cur :
  char_free "/" cur = true -> Forall valid_name (piece cur).
Proof.
  intros H. destruct cur; [constructor|]. repeat constructor; [discriminate|exact H].
Qed.

Lemma comps_from_valid cur s :
  char_free "/" cur = true -> Forall valid_name (Path.comps_from cur s).
Proof.
  revert cur. induction s as [|c s IH]; intros cur Hcur.
  - apply valid_name_piece, Hcur.
  - cbn [Path.comps_from]. destruct (Ascii.eqb c "/") eqn:Hc.
    + destruct cur; [apply IH; reflexivity|].
      constructor; [split; [discriminate|exact Hcur]|apply IH; reflexivity].
    + apply IH. rewrite char_free_app, Hcur. simpl.
      rewrite Ascii.eqb_sym, Hc. reflexivity.
Qed.

Lemma comps_valid p : Forall valid_name (Path.comps p).
Proof. apply comps_from_valid. reflexivity. Qed.

Lemma unsnoc_snoc {A} (l : list A) x : unsnoc (l ++ [x]) = Some (l, x).
Proof. unfold unsnoc. rewrite rev_app_distr. simpl. rewrite rev_involutive. reflexivity. Qed.

Lemma unsnoc_Some {A} (l p : list A) x : unsnoc l = Some (p, x) -> l = p ++ [x].
Proof.
  unfold unsnoc. destruct (rev l) as [|y r] eqn:Hr; [discriminate|].
  intros [= <- <-]. rewrite <- (rev_involutive l), Hr. reflexivity.
Qed.

(** ** Worlds *)

#[local] Instance any_names_additive : Additive any_names.
Proof. split; constructor. Qed.

#[local] Instance wav_names_additive n : Additive (wav_names n).
Proof.
  split.
  - intros k. split; [constructor|reflexivity].
  - intros k e1 e2 [H1 N1] [H2 N2]. split.
    + apply Forall_app. auto.
    + intros Hk. rewrite N1, N2 by assumption. reflexivity.
Qed.

Lemma node_grows_refl P `{!Additive P} k v : node_grows P k v v.
Proof.
  destruct v; simpl; [|reflexivity..].
  exists []. rewrite app_nil_r. split; [reflexivity|apply additive_nil].
Qed.

Lemma node_grows_trans P `{!Additive P} k v1 v2 v3 :
  node_grows P k v1 v2 -> node_grows P k v2 v3 -> node_grows P k v1 v3.
Proof.
  destruct v1; simpl.
  - intros (e1 & -> & H1) (e2 & -> & H2). exists (e1 ++ e2).
    rewrite app_assoc. split; [reflexivity|]. apply additive_app; assumption.
  - intros ->. simpl. auto.
  - intros ->. simpl. auto.
Qed.

Lemma grows_refl P `{!Additive P} w : grows P w w.
Proof. intros k v Hk. exists v. split; [assumption|]. apply node_grows_refl, _. Qed.

Lemma grows_trans P `{!Additive P} w1 w2 w3 :
  grows P w1 w2 -> grows P w2 w3 -> grows P w1 w3.
Proof.
  intros H12 H23 k v1 Hk.
  destruct (H12 k v1 Hk) as (v2 & Hk2 & G12).
  destruct (H23 k v2 Hk2) as (v3 & Hk3 & G23).
  exists v3. split; [assumption|]. eapply node_grows_trans; eassumption || exact _.
Qed.

Lemma grows_text P w w' p f :
  grows P w w' -> read_text p w = (inr f, w) -> read_text p w' = (inr f, w').
Proof.
  intros G H. apply read_text_ok in H as [_ H]. unfold read_text, lookup_path in *.
  destruct (G _ _ H) as (v' & -> & Hv). simpl in Hv. subst v'. reflexivity.
Qed.

Lemma grows_audio P w w' p a :
  grows P w w' -> sf_read p w = (inr a, w) -> sf_read p w' = (inr a, w').
Proof.
  unfold sf_read, lookup_path. intros G H.
  destruct (nodes w !! Path.comps p) as [[| |a0]|] eqn:Hp; try discriminate.
  injection H as ->.
  destruct (G _ _ Hp) as (v' & -> & Hv). simpl in Hv. subst v'. reflexivity.
Qed.

Lemma grows_exists P w w' p :
  grows P w w' -> exists_ p w = (inr true, w) -> exists_ p w' = (inr true, w').
Proof.
  unfold exists_, lookup_path. intros G H.
  destruct (nodes w !! Path.comps p) as [v|] eqn:Hp; [|discriminate].
  destruct (G _ _ Hp) as (v' & -> & _). injection H as ->. reflexivity.
Qed.

Lemma grows_listdir P w w' p names :
  grows P w w' -> listdir p w = (inr names, w) ->
  exists extra, listdir p w' = (inr (names ++ extra), w') /\ P (Path.comps p) extra.
Proof.
  unfold listdir, lookup_path. intros G H.
  destruct (nodes w !! Path.comps p) as [[names0| |]|] eqn:Hp; try discriminate.
  injection H as ->.
  destruct (G _ _ Hp) as (v' & -> & (extra & -> & Hx)). eauto.
Qed.

Lemma listdir_ok p names w w' :
  listdir p w = (inr names, w') -> w' = w /\ lookup_path p w = Some (Dir names).
Proof.
  unfold listdir. destruct (lookup_path p w) as [[| |]|]; intros [= ? ?]; subst; auto.
Qed.

Lemma sf_read_ok p a w w' : sf_read p w = (inr a, w') -> w' = w.
Proof.
  unfold sf_read. destruct (lookup_path p w) as [[| |]|]; intros [= ? ?]; subst; auto.
Qed.

Lemma write_file_Some p a w n :
  write_file p a w = Some n ->
  exists parent name names,
    Path.comps p = parent ++ [name] /\
    nodes w !! parent = Some (Dir names) /\
    n = <[Path.comps p := AudioFile a]>
          (<[parent := Dir (if bool_decide (name ∈ names) then names
                            else names ++ [name])]> (nodes w)).
Proof.
  unfold write_file. destruct (unsnoc (Path.comps p)) as [[parent name]|] eqn:Hu; [|discriminate].
  apply unsnoc_Some in Hu.
  destruct (nodes w !! parent) as [[names| |]|] eqn:Hparent; try discriminate.
  intros H. exists parent, name, names. split; [assumption|]. split; [assumption|].
  destruct (nodes w !! Path.comps p) as [[| |]|]; congruence.
Qed.

Lemma snoc_ne {A} (l : list A) x : l ++ [x] <> l.
Proof.
  intros H. apply (f_equal length) in H. rewrite length_app in H. simpl in H. lia.
Qed.

Lemma wrote_grows P `{!Additive P} p w w' :
  wrote p w w' ->
  (forall parent name, Path.comps p = parent ++ [name] -> P parent [name]) ->
  grows P w w'.
Proof.
  intros (Hnone & a & n & ev & Hw & ->) HP.
  apply write_file_Some in Hw as (parent & name & names & Hp & Hparent & ->).
  intros k v Hk. simpl.
  destruct (decide (k = Path.comps p)) as [->|Hkp]; [congruence|].
  rewrite lookup_insert_ne by congruence.
  destruct (decide (k = parent)) as [->|Hkparent].
  - rewrite lookup_insert_eq. rewrite Hparent in Hk. injection Hk as <-.
    eexists. split; [reflexivity|]. simpl. case_bool_decide.
    + exists []. rewrite app_nil_r. split; [reflexivity|apply additive_nil].
    + exists [name]. split; [reflexivity|]. apply HP, Hp.
  - rewrite lookup_insert_ne by congruence. exists v. split; [assumption|].
    apply node_grows_refl, _.
Qed.

Lemma comps_nonempty p : Path.comps p <> [] -> p <> EmptyString.
Proof. intros H ->. apply H. reflexivity. Qed.

Lemma wrote_exists p w w' : wrote p w w' -> exists_ p w' = (inr true, w').
Proof.
  intros (Hnone & a & n & ev & Hw & ->).
  apply write_file_Some in Hw as (parent & name & names & Hp & Hparent & ->).
  unfold exists_, lookup_path. simpl. rewrite lookup_insert_eq.
  destruct (String.eqb_spec p EmptyString) as [->|]; [|reflexivity].
  destruct parent; discriminate Hp.
Qed.

Lemma wrote_wf p w w' : wrote p w w' -> wf w -> wf w'.
Proof.
  intros (Hnone & a & n & ev & Hw & ->) Hwf.
  apply write_file_Some in Hw as (parent & name & names & Hp & Hparent & ->).
  intros k names' Hk. simpl in Hk.
  destruct (decide (k = Path.comps p)) as [->|Hkp].
  { rewrite lookup_insert_eq in Hk. discriminate. }
  rewrite lookup_insert_ne in Hk by congruence.
  destruct (decide (k = parent)) as [->|Hkparent].
  - rewrite lookup_insert_eq in Hk. injection Hk as <-.
    pose proof (Hwf _ _ Hparent) as Hnames. case_bool_decide; [assumption|].
    apply Forall_app. split; [assumption|]. constructor; [|constructor].
    pose proof (comps_valid p) as Hv. rewrite Hp in Hv.
    apply Forall_app in Hv as [_ Hv]. inversion Hv; assumption.
  - rewrite lookup_insert_ne in Hk by congruence. eapply Hwf, Hk.
Qed.

Lemma exists_false_None p w n a :
  exists_ p w = (inr false, w) -> write_file p a w = Some n ->
  nodes w !! Path.comps p = None.
Proof.
  unfold exists_, lookup_path. intros He Hw.
  destruct (nodes w !! Path.comps p) as [v|] eqn:Hp; [|reflexivity].
  injection He as He. apply negb_false_iff, String.eqb_eq in He. subst p.
  discriminate Hw.
Qed.

Lemma exists_eq p w : exists e, exists_ p w = (inr e, w).
Proof. unfold exists_. eauto. Qed.

(** [if not os.path.exists(dst): transformer.build(src, dst)] *)
Lemma ensure_sox src dst w e w1 u w2 :
  exists_ dst w = (inr e, w1) ->
  (if e then ret tt else sox_build src dst) w1 = (inr u, w2) ->
  ensured dst w w2.
Proof.
  intros He Hb. pose proof (exists_ok _ _ _ _ He) as ->. destruct e.
  - apply ret_ok in Hb as [_ <-]. split; auto.
  - unfold sox_build in Hb.
    destruct (lookup_path src w) as [[| |a]|]; try discriminate.
    destruct (write_file dst (resample a) w) as [n|] eqn:Hw; [|discriminate].
    injection Hb as _ <-.
    assert (wrote dst w (World n (journal w ++ [SoxBuild src dst]))) as Hwrote.
    { split; [eapply exists_false_None; eassumption|]. eauto 6. }
    split; [eapply wrote_exists; eassumption|auto].
Qed.

(** [if not os.path.exists(wav_path): soundfile.write(wav_path, ...)] *)
Lemma ensure_sf src dst w e w1 u w2 :
  exists_ dst w = (inr e, w1) ->
  (if e then ret tt
   else let* pcm := sf_read src in sf_write dst pcm) w1 = (inr u, w2) ->
  ensured dst w w2.
Proof.
  intros He Hb. pose proof (exists_ok _ _ _ _ He) as ->. destruct e.
  - apply ret_ok in Hb as [_ <-]. split; auto.
  - bind_ok Hb as pcm Hr. apply sf_read_ok in Hr as ->.
    unfold sf_write in Hb.
    destruct (write_file dst pcm w) as [n|] eqn:Hw; [|discriminate].
    injection Hb as _ <-.
    assert (wrote dst w (World n (journal w ++ [SfWrite dst]))) as Hwrote.
    { split; [eapply exists_false_None; eassumption|]. eauto 6. }
    split; [eapply wrote_exists; eassumption|auto].
Qed.

Lemma ensured_grows P `{!Additive P} p w w' :
  ensured p w w' ->
  (forall parent name, Path.comps p = parent ++ [name] -> P parent [name]) ->
  grows P w w'.
Proof.
  intros [_ [->|Hw]] HP; [apply grows_refl, _|eapply wrote_grows; eauto].
Qed.

Lemma ensured_wf p w w' : ensured p w w' -> wf w -> wf w'.
Proof. intros [_ [->|Hw]]; [auto|eapply wrote_wf; eauto]. Qed.

(** Once the file is there, the guarded write does nothing. *)
Lemma ensured_again {A} P p w w' wF (write : M unit) (k : unit -> M A) :
  ensured p w w' -> grows P w' wF ->
  (let* e := exists_ p in let* u := if e then ret tt else write in k u) wF
  = k tt wF.
Proof.
  intros [He _] G. eapply grows_exists in He; [|eassumption].
  unfold bind at 1. rewrite He. reflexivity.
Qed.

(** ** Running a builder again *)

Lemma for_each_replayable {A} P `{!Additive P} Inv (xs : list A)
    (body : A -> catalog -> M catalog) :
  (forall x, x ∈ xs -> replayable P Inv (body x)) ->
  replayable P Inv (for_each xs body).
Proof.
  induction xs as [|x xs IH]; intros Hbody s w s' w' Hinv H; simpl in H.
  - step_ok H. split; [assumption|]. split; [apply grows_refl, _|].
    exists []. rewrite app_nil_r. split; [reflexivity|].
    intros wF s0 _. simpl. rewrite app_nil_r. reflexivity.
  - bind_ok H as s1 Hx.
    destruct (Hbody x (list_elem_of_here _ _) _ _ _ _ Hinv Hx)
      as (Hinv1 & G1 & suf1 & -> & R1).
    destruct (IH (fun y Hy => Hbody y (list_elem_of_further _ _ _ Hy)) _ _ _ _ Hinv1 H)
      as (Hinv2 & G2 & suf2 & -> & R2).
    split; [assumption|]. split; [eapply grows_trans; eassumption || exact _|].
    exists (suf1 ++ suf2). rewrite app_assoc. split; [reflexivity|].
    intros wF s0 G. simpl.
    rewrite (bind_eq _ _ _ _ _ (R1 wF s0 (grows_trans P _ _ _ G2 G))).
    rewrite (R2 wF (s0 ++ suf1) G). rewrite app_assoc. reflexivity.
Qed.

(** *** The builders that read a CSV file *)

Lemma CommonVoice_row_eq root row data w text up down :
  cv_fields row = Some (text, up, down) ->
  CommonVoice_row root row data w =
  if cv_retains text up down then
    match row !! "filename" with
    | Some (Some filename) =>
        let mp3_path := Path.join root filename in
        let wav_path := Str.replace ".mp3" ".wav" mp3_path in
        (let* e := exists_ wav_path in
         let* _ := if e then ret tt else sox_build mp3_path wav_path in
         ret (data ++ [(wav_path, Str.lower text)])) w
    | Some None => (inl TypeError, w)
    | None => (inl (KeyError "filename"), w)
    end
  else (inr data, w).
Proof.
  unfold cv_fields, CommonVoice_row, cv_retains. intros H.
  destruct (row !! "text") as [[text'|]|] eqn:Htext; try discriminate.
  destruct (row !! "up_votes") as [[sup|]|] eqn:Hup; try discriminate.
  destruct (row !! "down_votes") as [[sdown|]|] eqn:Hdown; try discriminate.
  destruct (Str.int sup) as [up'|] eqn:Hupz; try discriminate.
  destruct (Str.int sdown) as [down'|] eqn:Hdownz; try discriminate.
  injection H as -> -> ->.
  unfold bind at 1. unfold getitem at 1. rewrite Htext. unfold ret at 1.
  unfold bind at 1. unfold ret at 1.
  unfold bind at 1. unfold getitem at 1. rewrite Hup. unfold ret at 1.
  unfold bind at 1. unfold py_int at 1. rewrite Hupz. unfold ret at 1.
  unfold bind at 1. unfold getitem at 1. rewrite Hdown. unfold ret at 1.
  unfold bind at 1. unfold py_int at 1. rewrite Hdownz. unfold ret at 1.
  rewrite lower_empty.
  destruct (Z.ltb_spec up 2), (Z.leb_spec 2 up); try lia;
    destruct (Z.ltb_spec 0 down), (Z.leb_spec down 0); try lia;
    destruct (String.eqb text EmptyString); simpl; try reflexivity.
  unfold bind at 1. unfold getitem at 1.
  destruct (row !! "filename") as [[filename|]|]; reflexivity.
Qed.

Lemma CommonVoice_row_replayable root row :
  replayable any_names (fun _ => True) (CommonVoice_row root row).
Proof.
  intros s w s' w' _ H.
  destruct (CommonVoice_row_ok _ _ _ _ _ _ H)
    as (text & up & down & Hf & [(Hr & -> & ->)|(Hr & filename & Hfile & ->)]).
  - split; [trivial|]. split; [apply grows_refl, _|].
    exists []. rewrite app_nil_r. split; [reflexivity|]. intros wF s0 _.
    rewrite (CommonVoice_row_eq _ _ _ _ _ _ _ Hf), Hr, app_nil_r. reflexivity.
  - rewrite (CommonVoice_row_eq _ _ _ _ _ _ _ Hf), Hr, Hfile in H. cbv zeta in H.
    bind_ok H as e He. bind_ok H as u Hu. step_ok H.
    pose proof (ensure_sox _ _ _ _ _ _ _ He Hu) as Hens.
    split; [trivial|]. split; [eapply ensured_grows; [exact _|eassumption|constructor]|].
    eexists. split; [reflexivity|]. intros wF s0 G.
    rewrite (CommonVoice_row_eq _ _ _ _ _ _ _ Hf), Hr, Hfile. cbv zeta.
    rewrite (ensured_again _ _ _ _ _ _ _ Hens G). reflexivity.
Qed.

Lemma CommonVoiceDataset_init_again csv root w d w' :
  CommonVoiceDataset_init csv root w = (inr d, w') ->
  CommonVoiceDataset_init csv root w' = (inr d, w').
Proof.
  unfold CommonVoiceDataset_init. intros H.
  bind_ok H as f Hf. pose proof (read_text_ok _ _ _ _ Hf) as [-> _].
  bind_ok H as data Hrows. step_ok H.
  destruct (for_each_replayable any_names (fun _ => True) _ _
              (fun row _ => CommonVoice_row_replayable root row) _ _ _ _ I Hrows)
    as (_ & G & suf & -> & R).
  rewrite (bind_eq _ _ _ _ _ (grows_text _ _ _ _ _ G Hf)).
  rewrite (bind_eq _ _ _ _ _ (R w' [] (grows_refl _ _))). reflexivity.
Qed.

Lemma Custom_row_eq root row data w :
  custom_keeps row = Some true ->
  Custom_row root row data w =
  match row !! "file", row !! "text" with
  | Some (Some file), Some (Some text) =>
      let wav_path := Path.join root file in
      (let* e := exists_ wav_path in
       let* _ := if e then ret tt
                 else sox_build (Path.join (Path.join root "original") file) wav_path in
       ret ((data ++ [(wav_path, text)]) ++ [(wav_path, text)])) w
  | Some None, _ => (inl TypeError, w)
  | _, _ => (inl (KeyError "file"), w)
  end.
Proof.
  unfold custom_keeps, Custom_row. intros H.
  destruct (row !! "text") as [[[|c text]|]|] eqn:Htext; try discriminate.
  destruct (row !! "language") as [language|] eqn:Hlang; try discriminate.
  injection H as H.
  unfold bind at 1. unfold getitem at 1. rewrite Htext. unfold ret at 1.
  unfold bind at 1. unfold getitem at 1. rewrite Hlang. unfold ret at 1.
  rewrite H.
  unfold bind at 1. unfold getitem at 1.
  destruct (row !! "file") as [[file|]|]; reflexivity.
Qed.

Lemma Custom_row_skip root row data w :
  custom_keeps row = Some false -> Custom_row root row data w = (inr data, w).
Proof.
  unfold custom_keeps, Custom_row, bind, getitem, ret. intros H.
  destruct (row !! "text") as [[[|c text]|]|]; try discriminate; try reflexivity.
  destruct (row !! "language") as [language|]; try discriminate.
  injection H as ->. reflexivity.
Qed.

Lemma Custom_row_replayable root row :
  replayable any_names (fun _ => True) (Custom_row root row).
Proof.
  intros s w s' w' _ H.
  destruct (Custom_row_ok _ _ _ _ _ _ H)
    as [(Hk & -> & ->)|(Hk & file & text & Hfile & Htext & ->)].
  - split; [trivial|]. split; [apply grows_refl, _|].
    exists []. rewrite app_nil_r. split; [reflexivity|]. intros wF s0 _.
    rewrite app_nil_r. apply Custom_row_skip, Hk.
  - rewrite (Custom_row_eq _ _ _ _ Hk), Hfile, Htext in H. cbv zeta in H.
    bind_ok H as e He. bind_ok H as u Hu. step_ok H.
    pose proof (ensure_sox _ _ _ _ _ _ _ He Hu) as Hens.
    split; [trivial|]. split; [eapply ensured_grows; [exact _|eassumption|constructor]|].
    exists [(Path.join root file, text); (Path.join root file, text)].
    split; [reflexivity|]. intros wF s0 G.
    rewrite (Custom_row_eq _ _ _ _ Hk), Hfile, Htext. cbv zeta.
    rewrite (ensured_again _ _ _ _ _ _ _ Hens G).
    rewrite <- app_assoc. reflexivity.
Qed.

Lemma CustomDataset_init_again csv root w d w' :
  CustomDataset_init csv root w = (inr d, w') ->
  CustomDataset_init csv root w' = (inr d, w').
Proof.
  unfold CustomDataset_init. intros H.
  bind_ok H as f Hf. pose proof (read_text_ok _ _ _ _ Hf) as [-> _].
  bind_ok H as data Hrows. step_ok H.
  destruct (for_each_replayable any_names (fun _ => True) _ _
              (fun row _ => Custom_row_replayable root row) _ _ _ _ I Hrows)
    as (_ & G & suf & -> & R).
  rewrite (bind_eq _ _ _ _ _ (grows_text _ _ _ _ _ G Hf)).
  rewrite (bind_eq _ _ _ _ _ (R w' [] (grows_refl _ _))). reflexivity.
Qed.

(** *** The LibriSpeech builder *)

Lemma dict_of_lines_from lines (d : gmap string string) :
  exists r, forall w,
    for_each lines
      (fun x (d : gmap string string) =>
         match Str.split1 " " x with
         | (k, Some v) => ret (<[k := v]> d)
         | (_, None) =>
             raise (ValueError "dictionary update sequence element has length 1; 2 is required")
         end) d w = (r, w).
Proof.
  revert d. induction lines as [|x lines IH]; intros d; simpl.
  - eexists. reflexivity.
  - destruct (Str.split1 " " x) as [k [v|]].
    + destruct (IH (<[k := v]> d)) as [r Hr]. exists r. intros w. apply Hr.
    + eexists. reflexivity.
Qed.

Lemma dict_of_lines_any lines r w w1 :
  dict_of_lines lines w = (r, w1) ->
  w1 = w /\ forall w', dict_of_lines lines w' = (r, w').
Proof.
  unfold dict_of_lines. destruct (dict_of_lines_from lines ∅) as [r' Hr].
  rewrite Hr. intros [= -> ->]. auto.
Qed.

Lemma LibriSpeech_file_skip cd tr name data w :
  Str.endswith name ".flac" = false ->
  LibriSpeech_file cd tr name data w = (inr data, w).
Proof. unfold LibriSpeech_file. intros ->. reflexivity. Qed.

Lemma LibriSpeech_files_skip cd tr names data w :
  Forall (fun x => Str.endswith x ".flac" = false) names ->
  for_each names (LibriSpeech_file cd tr) data w = (inr data, w).
Proof.
  induction 1 as [|name names Hn _ IH]; simpl; [reflexivity|].
  rewrite (bind_eq _ _ _ _ _ (LibriSpeech_file_skip _ _ _ _ _ Hn)). exact IH.
Qed.

(** One pass of the loop over the names of a chapter directory. *)
Lemma LibriSpeech_file_ok cd tr name data w data' w' :
  LibriSpeech_file cd tr name data w = (inr data', w') ->
  (Str.endswith name ".flac" = false /\ data' = data /\ w' = w) \/
  (Str.endswith name ".flac" = true /\
   exists t,
     tr !! Str.replace ".wav" EmptyString (Str.replace ".flac" ".wav" name) = Some t /\
     data' = data ++ [(Path.join cd (Str.replace ".flac" ".wav" name), t)] /\
     ensured (Path.join cd (Str.replace ".flac" ".wav" name)) w w').
Proof.
  unfold LibriSpeech_file. intros H.
  destruct (Str.endswith name ".flac"); [right|step_ok H; left; auto].
  split; [reflexivity|].
  bind_ok H as e He. bind_ok H as u Hu.
  pose proof (ensure_sf _ _ _ _ _ _ _ He Hu) as Hens.
  destruct (tr !! _) as [t|] eqn:Ht; [|step_ok H]. step_ok H. eauto.
Qed.

Lemma LibriSpeech_file_replayable n cd tr name :
  valid_name name -> length (Path.comps cd) = n ->
  replayable (wav_names n) wf (LibriSpeech_file cd tr name).
Proof.
  intros Hname Hcd s w s' w' Hwf H.
  destruct (LibriSpeech_file_ok _ _ _ _ _ _ _ H)
    as [(Hflac & -> & ->)|(Hflac & t & Ht & -> & Hens)].
  - split; [assumption|]. split; [apply grows_refl, _|].
    exists []. rewrite app_nil_r. split; [reflexivity|]. intros wF s0 _.
    rewrite app_nil_r. apply LibriSpeech_file_skip, Hflac.
  - split; [eapply ensured_wf; eassumption|]. split.
    + eapply ensured_grows; [exact _|eassumption|].
      intros parent nm Hp.
      rewrite (comps_join _ _ (valid_name_replace_flac _ Hname)) in Hp.
      apply app_inj_tail in Hp as [<- <-]. split.
      * repeat constructor. apply replace_flac_not_flac.
      * intros Hn. contradiction.
    + eexists. split; [reflexivity|]. intros wF s0 G.
      unfold LibriSpeech_file. rewrite Hflac. cbv zeta.
      rewrite (ensured_again _ _ _ _ _ _ _ Hens G). rewrite Ht. reflexivity.
Qed.

Lemma wf_listdir p names w :
  wf w -> listdir p w = (inr names, w) -> Forall valid_name names.
Proof. intros Hwf H. apply listdir_ok in H as [_ H]. eapply Hwf, H. Qed.

Lemma LibriSpeech_chapter_replayable n sd sp ch :
  length (Path.comps (Path.join sd ch)) = n ->
  replayable (wav_names n) wf (LibriSpeech_chapter sd sp ch).
Proof.
  intros Hcd s w s' w' Hwf H. unfold LibriSpeech_chapter in H. cbv zeta in H.
  bind_ok H as f Hf. pose proof (read_text_ok _ _ _ _ Hf) as [-> _].
  bind_ok H as tr Htr. apply dict_of_lines_any in Htr as [-> Htr].
  bind_ok H as names Hn. pose proof (listdir_ok _ _ _ _ Hn) as [-> _].
  pose proof (wf_listdir _ _ _ Hwf Hn) as Hvalid.
  rewrite Forall_forall in Hvalid.
  destruct (for_each_replayable (wav_names n) wf names _
              (fun x Hx => LibriSpeech_file_replayable n _ tr x (Hvalid x Hx) Hcd)
              _ _ _ _ Hwf H)
    as (Hwf' & G & suf & -> & R).
  split; [assumption|]. split; [assumption|].
  exists suf. split; [reflexivity|]. intros wF s0 GF.
  pose proof (grows_trans _ _ _ _ G GF) as G0.
  unfold LibriSpeech_chapter. cbv zeta.
  rewrite (bind_eq _ _ _ _ _ (grows_text _ _ _ _ _ G0 Hf)).
  rewrite (bind_eq _ _ _ _ _ (Htr wF)).
  destruct (grows_listdir _ _ _ _ _ G0 Hn) as (extra & Hn' & Hextra & _).
  rewrite (bind_eq _ _ _ _ _ Hn').
  rewrite for_each_app. rewrite (bind_eq _ _ _ _ _ (R wF s0 GF)).
  apply LibriSpeech_files_skip, Hextra.
Qed.

Lemma LibriSpeech_speaker_replayable root sp :
  valid_name sp ->
  replayable (wav_names (length (Path.comps root) + 2)) wf (LibriSpeech_speaker root sp).
Proof.
  intros Hsp s w s' w' Hwf H. unfold LibriSpeech_speaker in H. cbv zeta in H.
  bind_ok H as chapters Hn. pose proof (listdir_ok _ _ _ _ Hn) as [-> _].
  pose proof (wf_listdir _ _ _ Hwf Hn) as Hvalid.
  rewrite Forall_forall in Hvalid.
  assert (forall ch, ch ∈ chapters ->
            length (Path.comps (Path.join (Path.join root sp) ch))
            = (length (Path.comps root) + 2)%nat) as Hdepth.
  { intros ch Hch. rewrite !comps_join by auto. rewrite !length_app. simpl. lia. }
  destruct (for_each_replayable (wav_names (length (Path.comps root) + 2)) wf chapters _
              (fun x Hx => LibriSpeech_chapter_replayable _ _ sp x (Hdepth x Hx))
              _ _ _ _ Hwf H)
    as (Hwf' & G & suf & -> & R).
  split; [assumption|]. split; [assumption|].
  exists suf. split; [reflexivity|]. intros wF s0 GF.
  pose proof (grows_trans _ _ _ _ G GF) as G0.
  unfold LibriSpeech_speaker. cbv zeta.
  destruct (grows_listdir _ _ _ _ _ G0 Hn) as (extra & Hn' & _ & Hextra).
  rewrite Hextra, app_nil_r in Hn'.
  2:{ rewrite comps_join by assumption. rewrite length_app. simpl. lia. }
  rewrite (bind_eq _ _ _ _ _ Hn'). apply R, GF.
Qed.

Lemma LibriSpeechDataset_init_again root w d w' :
  wf w ->
  LibriSpeechDataset_init root w = (inr d, w') ->
  LibriSpeechDataset_init root w' = (inr d, w').
Proof.
  unfold LibriSpeechDataset_init. intros Hwf H.
  bind_ok H as speakers Hn. pose proof (listdir_ok _ _ _ _ Hn) as [-> _].
  pose proof (wf_listdir _ _ _ Hwf Hn) as Hvalid.
  rewrite Forall_forall in Hvalid.
  bind_ok H as data Hrun. step_ok H.
  destruct (for_each_replayable (wav_names (length (Path.comps root) + 2)) wf speakers _
              (fun x Hx => LibriSpeech_speaker_replayable root x (Hvalid x Hx))
              _ _ _ _ Hwf Hrun)
    as (Hwf' & G & suf & -> & R).
  destruct (grows_listdir _ _ _ _ _ G Hn) as (extra & Hn' & _ & Hextra).
  rewrite Hextra, app_nil_r in Hn' by lia.
  rewrite (bind_eq _ _ _ _ _ Hn').
  rewrite (bind_eq _ _ _ _ _ (R w' [] (grows_refl _ _))). reflexivity.
Qed.

(** ** Idempotence of the construction *)

(** C4: where a construction has returned, the same construction over
    the world it left returns the same dataset, with the same entries in
    the same order, and leaves that world as it is: it writes no file,
    and the journal of conversions gets no entry. *)
Theorem construction_again (csv : string -> list (list string)) (cls : pyclass)
    (dataset_type root : string) (w w' : world) (d : dataset) :
  wf w ->
  create csv cls dataset_type root w = (inr d, w') ->
  create csv cls dataset_type root w' = (inr d, w') /\
  journal (snd (create csv cls dataset_type root w')) = journal w'.
Proof.
  intros Hwf H.
  assert (create csv cls dataset_type root w' = (inr d, w')) as Hagain.
  { unfold create in *.
    destruct (String.eqb dataset_type "commonvoice");
      [eapply CommonVoiceDataset_init_again; eassumption|].
    destruct (String.eqb dataset_type "librispeech");
      [eapply LibriSpeechDataset_init_again; eassumption|].
    destruct (String.eqb dataset_type "custom");
      [eapply CustomDataset_init_again; eassumption|].
    discriminate H. }
  rewrite Hagain. auto.
Qed.

Lemma valid_nameb_valid s : valid_nameb s = true -> valid_name s.
Proof.
  unfold valid_nameb, valid_name. intros H. apply andb_true_iff in H as [H1 H2].
  split; [|assumption]. intros ->. discriminate H1.
Qed.

Lemma wfb_wf w : wfb w = true -> wf w.
Proof.
  unfold wfb, wf. intros H k names Hk. apply bool_decide_eq_true in H.
  specialize (H k _ Hk). simpl in H. rewrite forallb_forall in H.
  apply Forall_forall. intros x Hx. apply valid_nameb_valid, H.
  apply list_elem_of_In, Hx.
Qed.

Lemma construction_again_witness :
  create Fixture.plain_csv ClsDataset "librispeech" "/ls"
    (snd (LibriSpeechDataset_init "/ls" Fixture.libri_world))
  = (inr (LibriSpeechDataset
            [("/ls/1/2/1-2-0.wav", "HELLO WORLD" +:+ Fixture.nl);
             ("/ls/1/2/1-2-1.wav", "BYE" +:+ Fixture.nl)]),
     snd (LibriSpeechDataset_init "/ls" Fixture.libri_world)).
Proof.
  apply (construction_again Fixture.plain_csv ClsDataset "librispeech" "/ls"
           Fixture.libri_world).
  - apply wfb_wf. vm_compute. reflexivity.
  - vm_compute. reflexivity.
Defined.

(** ** The transcripts of LibriSpeech *)

Lemma split1_first sep uid rest :
  char_free sep uid = true ->
  Str.split1 sep (uid +:+ String sep rest) = (uid, Some rest).
Proof.
  induction uid as [|c uid IH]; intros H.
  - simpl. rewrite Ascii.eqb_refl. reflexivity.
  - cbn [char_free] in H. apply andb_true_iff in H as [Hc H].
    change (String c uid +:+ String sep rest) with (String c (uid +:+ String sep rest)).
    cbn [Str.split1]. rewrite Ascii.eqb_sym.
    destruct (Ascii.eqb sep c); [discriminate Hc|]. rewrite (IH H). reflexivity.
Qed.

Lemma dict_of_lines_other lines uid (d tr : gmap string string) w w' :
  for_each lines
    (fun x (d : gmap string string) =>
       match Str.split1 " " x with
       | (k, Some v) => ret (<[k := v]> d)
       | (_, None) =>
           raise (ValueError "dictionary update sequence element has length 1; 2 is required")
       end) d w = (inr tr, w') ->
  Forall (fun line => fst (Str.split1 " " line) <> uid) lines ->
  tr !! uid = d !! uid.
Proof.
  revert d w. induction lines as [|x lines IH]; intros d w H Hlines; simpl in H.
  - step_ok H. reflexivity.
  - inversion Hlines as [|? ? Hx Hrest]; subst.
    destruct (Str.split1 " " x) as [k [v|]]; [|bind_ok H as d1 Hd; step_ok Hd].
    bind_ok H as d1 Hd. step_ok Hd. rewrite (IH _ _ H Hrest).
    apply lookup_insert_ne. exact Hx.
Qed.

(** The mapping holds, for an utterance, what follows the first space of
    the last line that begins with its name. *)
Lemma dict_of_lines_last before uid rest after tr w w' :
  dict_of_lines (before ++ (uid +:+ " " +:+ rest) :: after) w = (inr tr, w') ->
  char_free " " uid = true ->
  Forall (fun line => fst (Str.split1 " " line) <> uid) after ->
  tr !! uid = Some rest.
Proof.
  unfold dict_of_lines. intros H Huid Hafter.
  rewrite for_each_app in H. bind_ok H as d1 Hbefore. simpl in H.
  change (" " +:+ rest) with (String " " rest) in H.
  rewrite (split1_first _ _ _ Huid) in H.
  bind_ok H as d2 Hd. step_ok Hd.
  rewrite (dict_of_lines_other _ _ _ _ _ _ H Hafter). apply lookup_insert_eq.
Qed.

Lemma extends_refl st : extends st st.
Proof.
  split; [exists []; rewrite app_nil_r; reflexivity|apply grows_refl, _].
Qed.

Lemma extends_trans a b c : extends a b -> extends b c -> extends a c.
Proof.
  intros [[s1 H1] G1] [[s2 H2] G2]. split.
  - exists (s1 ++ s2). rewrite H2, H1, app_assoc. reflexivity.
  - eapply grows_trans; eassumption || exact _.
Qed.

Lemma extends_elem a b e : extends a b -> e ∈ fst a -> e ∈ fst b.
Proof. intros [[suf ->] _] He. apply elem_of_app. auto. Qed.

Lemma LibriSpeech_file_extends cd tr name s w s' w' :
  LibriSpeech_file cd tr name s w = (inr s', w') -> extends (s, w) (s', w').
Proof.
  intros H. apply LibriSpeech_file_ok in H
    as [(_ & -> & ->)|(_ & t & _ & -> & Hens)]; [apply extends_refl|].
  split; [eexists; reflexivity|].
  eapply ensured_grows; [exact _|eassumption|constructor].
Qed.

Lemma LibriSpeech_chapter_extends sd sp ch s w s' w' :
  LibriSpeech_chapter sd sp ch s w = (inr s', w') -> extends (s, w) (s', w').
Proof.
  unfold LibriSpeech_chapter. intros H.
  bind_ok H as f Hf. apply read_text_ok in Hf as [-> _].
  bind_ok H as tr Htr. apply dict_of_lines_any in Htr as [-> _].
  bind_ok H as names Hn. apply listdir_ok in Hn as [-> _].
  eapply for_each_ok_rel; [apply extends_refl|apply extends_trans| |eassumption].
  intros. eapply LibriSpeech_file_extends; eassumption.
Qed.

Lemma LibriSpeech_speaker_extends root sp s w s' w' :
  LibriSpeech_speaker root sp s w = (inr s', w') -> extends (s, w) (s', w').
Proof.
  unfold LibriSpeech_speaker. intros H.
  bind_ok H as chapters Hn. apply listdir_ok in Hn as [-> _].
  eapply for_each_ok_rel; [apply extends_refl|apply extends_trans| |eassumption].
  intros. eapply LibriSpeech_chapter_extends; eassumption.
Qed.

Lemma lists_grows p name w w' :
  lists p name w -> grows any_names w w' -> lists p name w'.
Proof.
  intros (names & Hn & Hin) G.
  destruct (grows_listdir _ _ _ _ _ G Hn) as (extra & Hn' & _).
  exists (names ++ extra). split; [assumption|]. apply elem_of_app. auto.
Qed.

Lemma lists_listdir p name names w :
  lists p name w -> listdir p w = (inr names, w) -> name ∈ names.
Proof. intros (names' & Hn & Hin) H. congruence. Qed.

(** C6 does not hold as worded: the transcript file has the line
    [1-2-0 HELLO WORLD] and a newline, and the catalog does not pair
    [1-2-0.wav] with [HELLO WORLD]; it keeps the newline. *)
Lemma librispeech_keeps_newline :
  ~ libri_pairs strip_newline "/ls" Fixture.libri_world.
Proof.
  intros H.
  destruct (H (LibriSpeechDataset
                 [("/ls/1/2/1-2-0.wav", "HELLO WORLD" +:+ Fixture.nl);
                  ("/ls/1/2/1-2-1.wav", "BYE" +:+ Fixture.nl)])
              (snd (LibriSpeechDataset_init "/ls" Fixture.libri_world))
              "1" "2" "1-2-0"
              ("1-2-0 HELLO WORLD" +:+ Fixture.nl +:+ "1-2-1 BYE" +:+ Fixture.nl)
              [] ("HELLO WORLD" +:+ Fixture.nl) ["1-2-1 BYE" +:+ Fixture.nl])
    as (data & Hd & Hin).
  - vm_compute. reflexivity.
  - exists ["1"]. split; [vm_compute; reflexivity|set_solver].
  - exists ["2"]. split; [vm_compute; reflexivity|set_solver].
  - exists ["1-2.trans.txt"; "1-2-0.flac"; "1-2-1.flac"].
    split; [vm_compute; reflexivity|set_solver].
  - reflexivity.
  - reflexivity.
  - reflexivity.
  - vm_compute. reflexivity.
  - vm_compute. reflexivity.
  - repeat constructor. vm_compute. discriminate.
  - injection Hd as <-. vm_compute in Hin.
    apply list_elem_of_In in Hin. simpl in Hin.
    destruct Hin as [Hin|[Hin|[]]]; discriminate Hin.
Qed.

(** C6, amended: where a chapter directory lists [uid.flac], [uid]
    holding neither [.flac] nor [.wav], and the last line of the
    transcript file that begins with [uid] and a space goes on with
    [rest], a construction that returns has paired the path of [uid.wav]
    in that directory with [rest] as it stands in the file, its trailing
    newline included. *)
Theorem librispeech_pairs_line_text (root : string) (w w' : world) (d : dataset)
    (speaker_id chapter_id uid f rest : string) (before after : list string) :
  LibriSpeechDataset_init root w = (inr d, w') ->
  lists root speaker_id w ->
  lists (Path.join root speaker_id) chapter_id w ->
  lists (Path.join (Path.join root speaker_id) chapter_id) (uid +:+ ".flac") w ->
  contains uid ".flac" = false ->
  contains uid ".wav" = false ->
  char_free " " uid = true ->
  read_text (Path.join (Path.join (Path.join root speaker_id) chapter_id)
               (speaker_id +:+ "-" +:+ chapter_id +:+ ".trans.txt")) w = (inr f, w) ->
  Str.readlines f = before ++ (uid +:+ " " +:+ rest) :: after ->
  Forall (fun line => fst (Str.split1 " " line) <> uid) after ->
  exists data,
    d = LibriSpeechDataset data /\
    (Path.join (Path.join (Path.join root speaker_id) chapter_id) (uid +:+ ".wav"),
     rest) ∈ data.
Proof.
  intros H Hsp Hch Hflac Hnoflac Hnowav Hnospace Hf Hlines Hafter.
  unfold LibriSpeechDataset_init in H.
  bind_ok H as speakers Hn. pose proof (listdir_ok _ _ _ _ Hn) as [-> _].
  bind_ok H as data Hrun. step_ok H. exists data. split; [reflexivity|].
  (* the speaker *)
  destruct (for_each_ok_elem extends _ _ speaker_id extends_refl extends_trans
              (fun x s w s' w' _ Hx => LibriSpeech_speaker_extends _ _ _ _ _ _ Hx)
              (lists_listdir _ _ _ _ Hsp Hn) _ _ _ _ Hrun)
    as (s1 & w1 & s2 & w2 & E1 & Hspeaker & E2).
  apply (extends_elem _ _ _ E2). simpl. clear E2 Hrun Hn.
  unfold LibriSpeech_speaker in Hspeaker. cbv zeta in Hspeaker.
  bind_ok Hspeaker as chapters Hn. pose proof (listdir_ok _ _ _ _ Hn) as [-> _].
  (* the chapter *)
  destruct (for_each_ok_elem extends _ _ chapter_id extends_refl extends_trans
              (fun x s w s' w' _ Hx => LibriSpeech_chapter_extends _ _ _ _ _ _ _ Hx)
              (lists_listdir _ _ _ _ (lists_grows _ _ _ _ Hch (proj2 E1)) Hn)
              _ _ _ _ Hspeaker)
    as (s3 & w3 & s4 & w4 & E3 & Hchapter & E4).
  apply (extends_elem _ _ _ E4). simpl. clear E4 Hspeaker Hn.
  pose proof (extends_trans _ _ _ E1 E3) as [_ G3]. simpl in G3.
  unfold LibriSpeech_chapter in Hchapter. cbv zeta in Hchapter.
  rewrite (bind_eq _ _ _ _ _ (grows_text _ _ _ _ _ G3 Hf)) in Hchapter.
  bind_ok Hchapter as tr Htr. rewrite Hlines in Htr.
  pose proof (dict_of_lines_last _ _ _ _ _ _ _ Htr Hnospace Hafter) as Huid.
  apply dict_of_lines_any in Htr as [-> _].
  bind_ok Hchapter as names Hn. pose proof (listdir_ok _ _ _ _ Hn) as [-> _].
  (* the file *)
  destruct (for_each_ok_elem extends _ _ (uid +:+ ".flac") extends_refl extends_trans
              (fun x s w s' w' _ Hx => LibriSpeech_file_extends _ _ _ _ _ _ _ Hx)
              (lists_listdir _ _ _ _ (lists_grows _ _ _ _ Hflac G3) Hn)
              _ _ _ _ Hchapter)
    as (s5 & w5 & s6 & w6 & E5 & Hfile & E6).
  apply (extends_elem _ _ _ E6). simpl.
  apply LibriSpeech_file_ok in Hfile as [(Hno & _)|(_ & t & Ht & -> & _)].
  { rewrite endswith_app in Hno. discriminate Hno. }
  assert (Str.replace ".flac" ".wav" (uid +:+ ".flac") = uid +:+ ".wav") as Hwav
    by (apply (replace_from_suffix "." "flac"); [reflexivity|assumption]).
  assert (Str.replace ".wav" EmptyString (uid +:+ ".wav") = uid) as Hkey.
  { unfold Str.replace. rewrite (replace_from_suffix "." "wav"); [|reflexivity|assumption].
    apply append_nil_r. }
  rewrite Hwav in *. rewrite Hkey in Ht. rewrite Huid in Ht. injection Ht as <-.
  apply elem_of_app. right. apply list_elem_of_here.
Qed.

Lemma librispeech_pairs_line_text_witness :
  exists data,
    LibriSpeechDataset
      [("/ls/1/2/1-2-0.wav", "HELLO WORLD" +:+ Fixture.nl);
       ("/ls/1/2/1-2-1.wav", "BYE" +:+ Fixture.nl)]
    = LibriSpeechDataset data /\
    (Path.join (Path.join (Path.join "/ls" "1") "2") ("1-2-0" +:+ ".wav"),
     "HELLO WORLD" +:+ Fixture.nl) ∈ data.
Proof.
  apply (librispeech_pairs_line_text "/ls" Fixture.libri_world
           (snd (LibriSpeechDataset_init "/ls" Fixture.libri_world))
           (LibriSpeechDataset
              [("/ls/1/2/1-2-0.wav", "HELLO WORLD" +:+ Fixture.nl);
               ("/ls/1/2/1-2-1.wav", "BYE" +:+ Fixture.nl)])
           "1" "2" "1-2-0"
           ("1-2-0 HELLO WORLD" +:+ Fixture.nl +:+ "1-2-1 BYE" +:+ Fixture.nl)
           ("HELLO WORLD" +:+ Fixture.nl) [] ["1-2-1 BYE" +:+ Fixture.nl]).
  - vm_compute. reflexivity.
  - exists ["1"]. split; [vm_compute; reflexivity|set_solver].
  - exists ["2"]. split; [vm_compute; reflexivity|set_solver].
  - exists ["1-2.trans.txt"; "1-2-0.flac"; "1-2-1.flac"].
    split; [vm_compute; reflexivity|set_solver].
  - reflexivity.
  - reflexivity.
  - reflexivity.
  - vm_compute. reflexivity.
  - vm_compute. reflexivity.
  - repeat constructor. vm_compute. discriminate.
Defined.

(** ** The lookup of a transcript *)

(** Where the name before [.mp3], [.flac] or [.wav] does not hold that
    extension, replacing the extension is all that [replace] does. *)
Lemma replace_extension_plain ext new p :
  char_free "." ext = true ->
  contains p (String "." ext) = false ->
  Str.replace (String "." ext) new (p +:+ String "." ext) = p +:+ new.
Proof. intros. apply replace_from_suffix; assumption. Qed.

(** The builder looks up the name of the audio file without any [.flac]
    and [.wav]. For [a.wav.flac] that is [a], where the base name is
    [a.wav]: with a transcript line for [a.wav] the construction raises
    [KeyError], and with a line for [a] and none for [a.wav] it returns.
    For names that hold no [.wav] and only one [.flac] it is the base
    name: a missing line raises [KeyError], and no missing line gives an
    entry for each [.flac] file. *)
Example librispeech_looks_up_name_without_wav :
  fst (dict_of_lines (Str.readlines ("a.wav HELLO" +:+ Fixture.nl)) Fixture.libri_world_odd)
  = inr {[ "a.wav" := "HELLO" +:+ Fixture.nl ]} /\
  fst (LibriSpeechDataset_init "/ls" Fixture.libri_world_odd) = inl (KeyError "a") /\
  fst (dict_of_lines (Str.readlines ("a HELLO" +:+ Fixture.nl)) Fixture.libri_world_odd')
  = inr {[ "a" := "HELLO" +:+ Fixture.nl ]} /\
  fst (LibriSpeechDataset_init "/ls" Fixture.libri_world_odd')
  = inr (LibriSpeechDataset [("/ls/1/2/a.wav.wav", "HELLO" +:+ Fixture.nl)]) /\
  fst (LibriSpeechDataset_init "/ls" Fixture.libri_world_missing)
  = inl (KeyError "1-2-1") /\
  fst (LibriSpeechDataset_init "/ls" Fixture.libri_world)
  = inr (LibriSpeechDataset
           [("/ls/1/2/1-2-0.wav", "HELLO WORLD" +:+ Fixture.nl);
            ("/ls/1/2/1-2-1.wav", "BYE" +:+ Fixture.nl)]).
Proof. repeat split; vm_compute; reflexivity. Qed.

Lemma length_append s t :
  String.length (s +:+ t) = (String.length s + String.length t)%nat.
Proof. induction s; simpl; congruence. Qed.

Lemma base_name_app uid : base_name (uid +:+ ".flac") = uid.
Proof.
  induction uid as [|c uid IH]; [reflexivity|].
  change (String c uid +:+ ".flac") with (String c (uid +:+ ".flac")).
  cbn [base_name]. rewrite IH.
  destruct (String.eqb_spec (String c (uid +:+ ".flac")) ".flac") as [Heq|]; [|reflexivity].
  apply (f_equal String.length) in Heq. simpl in Heq.
  rewrite length_append in Heq. simpl in Heq. lia.
Qed.

Lemma base_name_flac name :
  Str.endswith name ".flac" = true -> name = base_name name +:+ ".flac".
Proof.
  intros H. apply endswith_split in H as [uid ->]. rewrite base_name_app. reflexivity.
Qed.

Lemma plain_wav_file uid :
  plain uid = true -> Str.replace ".flac" ".wav" (uid +:+ ".flac") = uid +:+ ".wav".
Proof.
  unfold plain. intros H. apply andb_true_iff in H as [H _].
  apply negb_true_iff in H.
  apply (replace_from_suffix "." "flac"); [reflexivity|assumption].
Qed.

Lemma plain_key uid :
  plain uid = true -> Str.replace ".wav" EmptyString (uid +:+ ".wav") = uid.
Proof.
  unfold plain. intros H. apply andb_true_iff in H as [_ H].
  apply negb_true_iff in H. unfold Str.replace.
  rewrite (replace_from_suffix "." "wav"); [|reflexivity|assumption].
  apply append_nil_r.
Qed.

(** *** Loops without a world *)

Lemma fold_ok_app {A St} (xs ys : list A) (body : A -> St -> exn + St) s :
  fold_ok (xs ++ ys) body s =
  match fold_ok xs body s with
  | inl e => inl e
  | inr s' => fold_ok ys body s'
  end.
Proof.
  revert s. induction xs as [|x xs IH]; intros s; simpl; [reflexivity|].
  destruct (body x s); [reflexivity|apply IH].
Qed.

Lemma fold_ok_flat_map {A B St} (f : A -> list B) (xs : list A)
    (body : B -> St -> exn + St) s :
  fold_ok xs (fun x s => fold_ok (f x) body s) s = fold_ok (flat_map f xs) body s.
Proof.
  revert s. induction xs as [|x xs IH]; intros s; simpl; [reflexivity|].
  rewrite fold_ok_app. destruct (fold_ok (f x) body s); [reflexivity|apply IH].
Qed.

Lemma fold_ok_filter_map {A B St} (keep : A -> bool) (f : A -> B) (xs : list A)
    (body : B -> St -> exn + St) s :
  fold_ok xs (fun x s => if keep x then body (f x) s else inr s) s
  = fold_ok (f <$> List.filter keep xs) body s.
Proof.
  revert s. induction xs as [|x xs IH]; intros s; simpl; [reflexivity|].
  destruct (keep x); simpl; [|apply IH].
  destruct (body (f x) s); [reflexivity|apply IH].
Qed.

(** A loop whose passes compute what [pure] computes, in worlds that keep
    [Inv], computes what the loop of [pure] computes. *)
Lemma for_each_sim {A St} (Inv : world -> Prop) (xs : list A)
    (body : A -> St -> M St) (pure : A -> St -> exn + St) :
  (forall x s w, x ∈ xs -> Inv w ->
     exists w', body x s w = (pure x s, w') /\ Inv w') ->
  forall s w, Inv w ->
    exists w', for_each xs body s w = (fold_ok xs pure s, w') /\ Inv w'.
Proof.
  induction xs as [|x xs IH]; intros Hbody s w Hinv; simpl.
  - exists w. auto.
  - destruct (Hbody x s w (list_elem_of_here _ _) Hinv) as (w1 & Hx & Hinv1).
    unfold bind. rewrite Hx. destruct (pure x s) as [e|s1]; [eauto|].
    apply IH; [|assumption]. intros y s' w' Hy. apply Hbody. right. exact Hy.
Qed.

(** *** The LibriSpeech builder on a corpus that it can read *)

Lemma wav_names_file n cd name :
  valid_name name -> length (Path.comps cd) = n ->
  forall parent nm,
    Path.comps (Path.join cd (Str.replace ".flac" ".wav" name)) = parent ++ [nm] ->
    wav_names n parent [nm].
Proof.
  intros Hname Hcd parent nm Hp.
  rewrite (comps_join _ _ (valid_name_replace_flac _ Hname)) in Hp.
  apply app_inj_tail in Hp as [<- <-]. split.
  - repeat constructor. apply replace_flac_not_flac.
  - intros Hn. contradiction.
Qed.

Lemma LibriSpeech_file_sim n w cd tr name s wt :
  valid_name name -> length (Path.comps cd) = n ->
  (exists names, listdir cd w = (inr names, w)) ->
  (Str.endswith name ".flac" = true ->
   plain (base_name name) = true /\
   (exists_ (Path.join cd (base_name name +:+ ".wav")) w = (inr true, w) \/
    exists a, sf_read (Path.join cd name) w = (inr a, w))) ->
  scanning n w wt ->
  exists w',
    LibriSpeech_file cd tr name s wt =
    (if Str.endswith name ".flac" then expected_entry (cd, tr, name) s else inr s, w') /\
    scanning n w w'.
Proof.
  intros Hname Hcd [names Hdir] Hfile [G Hwf]. unfold LibriSpeech_file.
  destruct (Str.endswith name ".flac") eqn:Hflac; [|exists wt; split; [reflexivity|split; assumption]].
  destruct (Hfile eq_refl) as [Hplain Hsrc]. clear Hfile.
  pose proof (wav_names_file n cd name Hname Hcd) as HP.
  pose proof (valid_name_replace_flac _ Hname) as Hwavname.
  pose proof (base_name_flac _ Hflac) as Hn.
  remember (base_name name) as uid eqn:Huid. subst name. clear Huid.
  rewrite (plain_wav_file _ Hplain) in *. cbv zeta.
  rewrite (plain_key _ Hplain). unfold expected_entry. rewrite base_name_app.
  destruct (exists_eq (Path.join cd (uid +:+ ".wav")) wt) as [e He].
  rewrite (bind_eq _ _ _ _ _ He). destruct e.
  - rewrite bind_ret_l. exists wt.
    destruct (tr !! uid); (split; [reflexivity|split; assumption]).
  - destruct Hsrc as [Hthere|[a Ha]].
    { rewrite (grows_exists _ _ _ _ G Hthere) in He. discriminate He. }
    unfold bind at 1. unfold bind at 1.
    rewrite (grows_audio _ _ _ _ _ G Ha).
    apply listdir_ok in Hdir as [_ Hdir]. unfold lookup_path in Hdir.
    destruct (G _ _ Hdir) as (v' & Hdir' & (extra & -> & _)).
    assert (nodes wt !! Path.comps (Path.join cd (uid +:+ ".wav")) = None) as Hnone.
    { unfold exists_, lookup_path in He.
      destruct (nodes wt !! Path.comps (Path.join cd (uid +:+ ".wav"))) eqn:Hl; [|reflexivity].
      injection He as He. apply negb_false_iff, String.eqb_eq in He.
      rewrite He in Hl. rewrite <- He in Hl at 1.
      rewrite comps_join in Hl by assumption.
      pose proof (f_equal (fun p => length (Path.comps p)) He) as Hlen.
      simpl in Hlen. rewrite comps_join, length_app in Hlen by assumption.
      simpl in Hlen. lia. }
    assert (exists n0, write_file (Path.join cd (uid +:+ ".wav")) a wt = Some n0) as [n0 Hw].
    { unfold write_file. rewrite Hnone.
      rewrite comps_join by assumption. rewrite unsnoc_snoc, Hdir'. eauto. }
    unfold sf_write. rewrite Hw.
    assert (wrote (Path.join cd (uid +:+ ".wav")) wt
              (World n0 (journal wt ++ [SfWrite (Path.join cd (uid +:+ ".wav"))])))
      as Hwrote by (split; [assumption|eauto 6]).
    eexists. split.
    + destruct (tr !! uid); reflexivity.
    + split.
      * eapply grows_trans; [exact _|eassumption|].
        eapply wrote_grows; [exact _|eassumption|assumption].
      * eapply wrote_wf; eassumption.
Qed.

Lemma names_of_listdir p names w :
  listdir p w = (inr names, w) -> names_of p w = names.
Proof. unfold names_of. intros ->. reflexivity. Qed.

Lemma scanning_start n w : wf w -> scanning n w w.
Proof. intros H. split; [apply grows_refl, _|assumption]. Qed.

Lemma LibriSpeech_chapter_sim n w sd sp ch s wt :
  length (Path.comps (Path.join sd ch)) = n ->
  wf w ->
  readable_chapter w sd sp ch ->
  (forall x, x ∈ chapter_flacs w sd sp ch -> plain (base_name (snd x)) = true) ->
  scanning n w wt ->
  exists w',
    LibriSpeech_chapter sd sp ch s wt =
    (fold_ok (chapter_flacs w sd sp ch) expected_entry s, w') /\
    scanning n w w'.
Proof.
  intros Hcd Hwf ((f & tr & Hf & Htr) & (names & Hn) & Hfiles) Hplain [G Hwft].
  unfold chapter_flacs in *. cbv zeta in *.
  assert (transcripts_of
            (Path.join (Path.join sd ch) (sp +:+ "-" +:+ ch +:+ ".trans.txt")) w = tr)
    as Htrs by (unfold transcripts_of; rewrite Hf; simpl; rewrite Htr; reflexivity).
  rewrite Htrs in *. rewrite (names_of_listdir _ _ _ Hn) in *.
  unfold LibriSpeech_chapter. cbv zeta.
  rewrite (bind_eq _ _ _ _ _ (grows_text _ _ _ _ _ G Hf)).
  apply dict_of_lines_any in Htr as [_ Htr].
  rewrite (bind_eq _ _ _ _ _ (Htr wt)).
  destruct (grows_listdir _ _ _ _ _ G Hn) as (extra & Hn' & Hextra & _).
  rewrite (bind_eq _ _ _ _ _ Hn'). rewrite for_each_app.
  pose proof (wf_listdir _ _ _ Hwf Hn) as Hvalid. rewrite Forall_forall in Hvalid.
  destruct (for_each_sim (scanning n w) names
              (LibriSpeech_file (Path.join sd ch) tr)
              (fun name s => if Str.endswith name ".flac"
                             then expected_entry (Path.join sd ch, tr, name) s
                             else inr s)) with (s := s) (w := wt)
    as (w1 & Hrun & Hscan); [|split; assumption|].
  { intros name s0 w0 Hin Hw0.
    apply (LibriSpeech_file_sim n w); eauto.
    intros Hflac. split; [|apply Hfiles; assumption].
    apply (Hplain (Path.join sd ch, tr, name)).
    apply list_elem_of_fmap. exists name. split; [reflexivity|].
    apply list_elem_of_In, filter_In. split; [apply list_elem_of_In, Hin|exact Hflac]. }
  unfold bind. rewrite Hrun.
  rewrite (fold_ok_filter_map (fun name => Str.endswith name ".flac")
             (fun name => (Path.join sd ch, tr, name))).
  destruct (fold_ok _ expected_entry s) as [e|s1]; [eauto|].
  exists w1. split; [|assumption]. apply LibriSpeech_files_skip, Hextra.
Qed.

Lemma LibriSpeech_speaker_sim root w sp s wt :
  valid_name sp ->
  wf w ->
  (exists chapters, listdir (Path.join root sp) w = (inr chapters, w)) ->
  (forall ch, ch ∈ names_of (Path.join root sp) w ->
     readable_chapter w (Path.join root sp) sp ch) ->
  (forall x, x ∈ speaker_flacs w root sp -> plain (base_name (snd x)) = true) ->
  scanning (length (Path.comps root) + 2) w wt ->
  exists w',
    LibriSpeech_speaker root sp s wt =
    (fold_ok (speaker_flacs w root sp) expected_entry s, w') /\
    scanning (length (Path.comps root) + 2) w w'.
Proof.
  intros Hsp Hwf (chapters & Hn) Hread Hplain [G Hwft].
  unfold speaker_flacs in *. rewrite (names_of_listdir _ _ _ Hn) in *.
  unfold LibriSpeech_speaker. cbv zeta.
  destruct (grows_listdir _ _ _ _ _ G Hn) as (extra & Hn' & _ & Hextra).
  rewrite Hextra, app_nil_r in Hn'.
  2:{ rewrite comps_join by assumption. rewrite length_app. simpl. lia. }
  rewrite (bind_eq _ _ _ _ _ Hn').
  pose proof (wf_listdir _ _ _ Hwf Hn) as Hvalid. rewrite Forall_forall in Hvalid.
  rewrite <- fold_ok_flat_map.
  apply for_each_sim; [|split; assumption].
  intros ch s0 w0 Hin Hw0.
  apply LibriSpeech_chapter_sim; auto.
  - rewrite !comps_join by auto. rewrite !length_app. simpl. lia.
  - intros x Hx. apply Hplain. apply list_elem_of_In, in_flat_map.
    exists ch. split; apply list_elem_of_In; assumption.
Qed.

(** On a corpus that the builder can read and whose audio files have
    plain base names, the construction computes the entries of the
    [.flac] files in the order of the scan, up to the first of them
    without a transcript. *)
Lemma LibriSpeechDataset_init_sim root w :
  wf w -> readable_corpus root w -> plain_names root w ->
  fst (LibriSpeechDataset_init root w) =
  match fold_ok (corpus_flacs root w) expected_entry [] with
  | inl e => inl e
  | inr data => inr (LibriSpeechDataset data)
  end.
Proof.
  intros Hwf ((speakers & Hn) & Hread) Hplain.
  unfold plain_names, corpus_flacs in *. rewrite (names_of_listdir _ _ _ Hn) in *.
  unfold LibriSpeechDataset_init. rewrite (bind_eq _ _ _ _ _ Hn).
  pose proof (wf_listdir _ _ _ Hwf Hn) as Hvalid. rewrite Forall_forall in Hvalid.
  rewrite <- fold_ok_flat_map.
  destruct (for_each_sim (scanning (length (Path.comps root) + 2) w) speakers
              (LibriSpeech_speaker root)
              (fun sp s => fold_ok (speaker_flacs w root sp) expected_entry s))
    with (s := @nil (string * string)) (w := w) as (w1 & Hrun & _).
  - intros sp s0 w0 Hin Hw0. destruct (Hread sp Hin) as [Hchapters Hch].
    apply LibriSpeech_speaker_sim; auto.
    intros [[cd tr] name] Hx. apply (Hplain cd tr name).
    apply list_elem_of_In, in_flat_map.
    exists sp. split; apply list_elem_of_In; assumption.
  - apply scanning_start, Hwf.
  - unfold bind. rewrite Hrun. destruct (fold_ok _ _ _); reflexivity.
Qed.

Lemma expected_entries_all flacs data :
  (forall cd tr name, (cd, tr, name) ∈ flacs -> is_Some (tr !! base_name name)) ->
  exists more,
    fold_ok flacs expected_entry data = inr (data ++ more) /\
    length more = length flacs.
Proof.
  revert data. induction flacs as [|[[cd tr] name] flacs IH]; intros data Hall.
  - exists []. rewrite app_nil_r. auto.
  - destruct (Hall cd tr name (list_elem_of_here _ _)) as [t Ht].
    simpl. rewrite Ht.
    destruct (IH (data ++ [(Path.join cd (base_name name +:+ ".wav"), t)])) as (more & -> & Hlen).
    { intros cd' tr' name' Hin. apply (Hall cd' tr' name'). right. exact Hin. }
    eexists. rewrite <- app_assoc. split; [reflexivity|]. simpl. lia.
Qed.

Lemma expected_entries_missing flacs data cd tr name :
  (cd, tr, name) ∈ flacs -> tr !! base_name name = None ->
  exists key, fold_ok flacs expected_entry data = inl (KeyError key).
Proof.
  revert data. induction flacs as [|[[cd' tr'] name'] flacs IH]; intros data Hin Hnone.
  - inversion Hin.
  - simpl. destruct (tr' !! base_name name') as [t|] eqn:Ht; [|eauto].
    apply IH; [|assumption].
    apply elem_of_cons in Hin as [[= -> -> ->]|Hin]; [congruence|exact Hin].
Qed.

(** C7 does not hold as worded. In the first corpus the chapter has the
    one audio file [a.wav.flac], whose base name [a.wav] is a key of the
    transcript mapping, and the construction raises [KeyError] for [a].
    In the second the base name of the one audio file is a key as well,
    the file cannot be decoded, and the construction raises the error of
    the decoder. *)
Lemma librispeech_key_differs_from_base_name :
  (readable_corpus "/ls" Fixture.libri_world_odd /\
   ~ libri_lookup_claimed "/ls" Fixture.libri_world_odd) /\
  (plain_names "/ls" Fixture.libri_world_undecodable /\
   ~ libri_lookup_claimed "/ls" Fixture.libri_world_undecodable).
Proof.
  split; split.
  - split; [eexists; vm_compute; reflexivity|].
    intros sp Hsp. vm_compute in Hsp. apply list_elem_of_singleton in Hsp as ->.
    split; [eexists; vm_compute; reflexivity|].
    intros ch Hch. vm_compute in Hch. apply list_elem_of_singleton in Hch as ->.
    split; [do 2 eexists; split; vm_compute; reflexivity|].
    split; [eexists; vm_compute; reflexivity|].
    intros name Hname Hflac. vm_compute in Hname.
    apply elem_of_cons in Hname as [->|Hname]; [discriminate Hflac|].
    apply list_elem_of_singleton in Hname as ->.
    right. eexists. vm_compute. reflexivity.
  - intros [_ H]. destruct H as (data & Hrun & _).
    + intros cd tr name Hin. vm_compute in Hin.
      apply list_elem_of_singleton in Hin. injection Hin as -> -> ->.
      vm_compute. eauto.
    + vm_compute in Hrun. discriminate Hrun.
  - intros cd tr name Hin. vm_compute in Hin.
    apply list_elem_of_singleton in Hin. injection Hin as -> -> ->. reflexivity.
  - intros [_ H]. destruct H as (data & Hrun & _).
    + intros cd tr name Hin. vm_compute in Hin.
      apply list_elem_of_singleton in Hin. injection Hin as -> -> ->.
      vm_compute. eauto.
    + vm_compute in Hrun. discriminate Hrun.
Qed.

(** C7, amended: over a corpus that the builder can read, and where the
    names of the audio files hold [.flac] only as their extension and no
    [.wav], a [.flac] file whose base name is not a key of the transcript
    mapping of its chapter makes the construction raise [KeyError], and
    where every base name is a key the construction returns a catalog
    with one entry for each [.flac] file. *)
Theorem librispeech_lookup (root : string) (w : world) :
  wf w -> readable_corpus root w -> plain_names root w ->
  libri_lookup_claimed root w.
Proof.
  intros Hwf Hread Hplain.
  pose proof (LibriSpeechDataset_init_sim root w Hwf Hread Hplain) as Hsim.
  split.
  - intros cd tr name Hin Hnone.
    destruct (expected_entries_missing _ [] _ _ _ Hin Hnone) as [key Hkey].
    exists key. rewrite Hsim, Hkey. reflexivity.
  - intros Hall. destruct (expected_entries_all _ [] Hall) as (more & Hmore & Hlen).
    exists more. rewrite Hsim, Hmore. auto.
Qed.

Lemma librispeech_lookup_witness :
  libri_lookup_claimed "/ls" Fixture.libri_world /\
  libri_lookup_claimed "/ls" Fixture.libri_world_missing.
Proof.
  split; apply librispeech_lookup.
  - apply wfb_wf. vm_compute. reflexivity.
  - split; [eexists; vm_compute; reflexivity|].
    intros sp Hsp. vm_compute in Hsp. apply list_elem_of_singleton in Hsp as ->.
    split; [eexists; vm_compute; reflexivity|].
    intros ch Hch. vm_compute in Hch. apply list_elem_of_singleton in Hch as ->.
    split; [do 2 eexists; split; vm_compute; reflexivity|].
    split; [eexists; vm_compute; reflexivity|].
    intros name Hname Hflac. vm_compute in Hname.
    apply elem_of_cons in Hname as [->|Hname]; [discriminate Hflac|].
    apply elem_of_cons in Hname as [->|Hname];
      [|apply list_elem_of_singleton in Hname as ->];
      right; eexists; vm_compute; reflexivity.
  - intros cd tr name Hin. vm_compute in Hin.
    apply elem_of_cons in Hin as [Hin|Hin];
      [|apply list_elem_of_singleton in Hin];
      injection Hin as -> -> ->; reflexivity.
  - apply wfb_wf. vm_compute. reflexivity.
  - split; [eexists; vm_compute; reflexivity|].
    intros sp Hsp. vm_compute in Hsp. apply list_elem_of_singleton in Hsp as ->.
    split; [eexists; vm_compute; reflexivity|].
    intros ch Hch. vm_compute in Hch. apply list_elem_of_singleton in Hch as ->.
    split; [do 2 eexists; split; vm_compute; reflexivity|].
    split; [eexists; vm_compute; reflexivity|].
    intros name Hname Hflac. vm_compute in Hname.
    apply elem_of_cons in Hname as [->|Hname]; [discriminate Hflac|].
    apply elem_of_cons in Hname as [->|Hname];
      [|apply list_elem_of_singleton in Hname as ->];
      right; eexists; vm_compute; reflexivity.
  - intros cd tr name Hin. vm_compute in Hin.
    apply elem_of_cons in Hin as [Hin|Hin];
      [|apply list_elem_of_singleton in Hin];
      injection Hin as -> -> ->; reflexivity.
Defined.

(** * Further properties of the builders and of the accessors *)

(** ** What a construction leaves of the files it finds *)

Lemma bind_any {A B} (m : M A) (k : A -> M B) w r w2 :
  bind m k w = (r, w2) ->
  (exists e, m w = (inl e, w2) /\ r = inl e) \/
  (exists a w1, m w = (inr a, w1) /\ k a w1 = (r, w2)).
Proof.
  unfold bind. destruct (m w) as [[e|a] w1]; [intros [= <- <-]|]; eauto.
Qed.

Lemma for_each_any {A St} (xs : list A) (body : A -> St -> M St) :
  (forall x s w r w', x ∈ xs -> body x s w = (r, w') -> grows any_names w w') ->
  forall s w r w', for_each xs body s w = (r, w') -> grows any_names w w'.
Proof.
  induction xs as [|x xs IH]; intros Hbody s w r w' H; simpl in H.
  - injection H as _ <-. apply grows_refl, _.
  - apply bind_any in H as [(e & Hx & _)|(s1 & w1 & Hx & H)].
    + eapply Hbody; [left|eassumption].
    + eapply grows_trans; [exact _|eapply Hbody; [left|eassumption]|].
      eapply IH; [|eassumption]. intros; eapply Hbody; [right|]; eassumption.
Qed.

Lemma getitem_any (d : gmap string (option string)) k r w w' :
  getitem d k w = (r, w') -> w' = w.
Proof. unfold getitem. destruct (d !! k); intros [= _ <-]; reflexivity. Qed.

Lemma py_int_any v r w w' : py_int v w = (r, w') -> w' = w.
Proof.
  unfold py_int. destruct v as [s|]; [destruct (Str.int s)|];
    intros [= _ <-]; reflexivity.
Qed.

Lemma path_join_any a v r w w' : path_join a v w = (r, w') -> w' = w.
Proof. unfold path_join. destruct v; intros [= _ <-]; reflexivity. Qed.

Lemma read_text_any p r w w' : read_text p w = (r, w') -> w' = w.
Proof. unfold read_text. intros [= _ <-]. reflexivity. Qed.

Lemma listdir_any p r w w' : listdir p w = (r, w') -> w' = w.
Proof. unfold listdir. intros [= _ <-]. reflexivity. Qed.

Lemma dict_of_lines_world lines r w w' : dict_of_lines lines w = (r, w') -> w' = w.
Proof.
  unfold dict_of_lines. destruct (dict_of_lines_from lines ∅) as [r' Hr].
  rewrite Hr. intros [= _ <-]. reflexivity.
Qed.

(** [transformer.build] where [os.path.exists] has said no. *)
Lemma sox_build_any src dst r w w' :
  exists_ dst w = (inr false, w) ->
  sox_build src dst w = (r, w') -> grows any_names w w'.
Proof.
  intros He. unfold sox_build.
  destruct (lookup_path src w) as [[| |a]|];
    try (intros [= _ <-]; apply grows_refl, _).
  destruct (write_file dst (resample a) w) as [n|] eqn:Hw;
    [|intros [= _ <-]; apply grows_refl, _].
  intros [= _ <-]. eapply wrote_grows; [exact _| |constructor].
  split; [eapply exists_false_None; eassumption|eauto 6].
Qed.

(** [soundfile.write] where [os.path.exists] has said no. *)
Lemma sf_write_any dst pcm r w w' :
  exists_ dst w = (inr false, w) ->
  sf_write dst pcm w = (r, w') -> grows any_names w w'.
Proof.
  intros He. unfold sf_write.
  destruct (write_file dst pcm w) as [n|] eqn:Hw;
    [|intros [= _ <-]; apply grows_refl, _].
  intros [= _ <-]. eapply wrote_grows; [exact _| |constructor].
  split; [eapply exists_false_None; eassumption|eauto 6].
Qed.

Lemma CommonVoice_row_any root row data r w w' :
  CommonVoice_row root row data w = (r, w') -> grows any_names w w'.
Proof.
  unfold CommonVoice_row. intros H.
  apply bind_any in H as [(e & Hm & _)|(v & w1 & Hm & H)];
    apply getitem_any in Hm as ->; [apply grows_refl, _|].
  apply bind_any in H as [(e & Hm & _)|(text & w1 & Hm & H)].
  { destruct v; injection Hm as _ <-; apply grows_refl, _. }
  assert (w1 = w) as -> by (destruct v; injection Hm as _ <-; reflexivity). clear Hm.
  apply bind_any in H as [(e & Hm & _)|(vup & w1 & Hm & H)];
    apply getitem_any in Hm as ->; [apply grows_refl, _|].
  apply bind_any in H as [(e & Hm & _)|(up & w1 & Hm & H)];
    apply py_int_any in Hm as ->; [apply grows_refl, _|].
  apply bind_any in H as [(e & Hm & _)|(vdown & w1 & Hm & H)];
    apply getitem_any in Hm as ->; [apply grows_refl, _|].
  apply bind_any in H as [(e & Hm & _)|(down & w1 & Hm & H)];
    apply py_int_any in Hm as ->; [apply grows_refl, _|].
  destruct (_ || _); [injection H as _ <-; apply grows_refl, _|].
  apply bind_any in H as [(e & Hm & _)|(vfile & w1 & Hm & H)];
    apply getitem_any in Hm as ->; [apply grows_refl, _|].
  apply bind_any in H as [(e & Hm & _)|(mp3_path & w1 & Hm & H)];
    apply path_join_any in Hm as ->; [apply grows_refl, _|].
  apply bind_any in H as [(e & Hm & _)|(ex & w1 & Hm & H)];
    [discriminate Hm|].
  pose proof (exists_ok _ _ _ _ Hm) as ->.
  apply bind_any in H as [(e & Hb & _)|(u & w1 & Hb & H)].
  - destruct ex; [discriminate Hb|]. eapply sox_build_any; eassumption.
  - injection H as _ <-.
    destruct ex; [injection Hb as _ <-; apply grows_refl, _|].
    eapply sox_build_any; eassumption.
Qed.

Lemma Custom_row_any root row data r w w' :
  Custom_row root row data w = (r, w') -> grows any_names w w'.
Proof.
  unfold Custom_row. intros H.
  apply bind_any in H as [(e & Hm & _)|(v & w1 & Hm & H)];
    apply getitem_any in Hm as ->; [apply grows_refl, _|].
  destruct v as [[|c text]|]; try (injection H as _ <-; apply grows_refl, _).
  apply bind_any in H as [(e & Hm & _)|(language & w1 & Hm & H)];
    apply getitem_any in Hm as ->; [apply grows_refl, _|].
  destruct (bool_decide _); [|injection H as _ <-; apply grows_refl, _].
  apply bind_any in H as [(e & Hm & _)|(file & w1 & Hm & H)];
    apply getitem_any in Hm as ->; [apply grows_refl, _|].
  apply bind_any in H as [(e & Hm & _)|(p & w1 & Hm & H)];
    apply path_join_any in Hm as ->; [apply grows_refl, _|].
  apply bind_any in H as [(e & Hm & _)|(orig_path & w1 & Hm & H)];
    apply path_join_any in Hm as ->; [apply grows_refl, _|].
  apply bind_any in H as [(e & Hm & _)|(wav_path & w1 & Hm & H)];
    apply path_join_any in Hm as ->; [apply grows_refl, _|].
  apply bind_any in H as [(e & Hm & _)|(ex & w1 & Hm & H)];
    [discriminate Hm|].
  pose proof (exists_ok _ _ _ _ Hm) as ->.
  apply bind_any in H as [(e & Hb & _)|(u & w1 & Hb & H)].
  - destruct ex; [discriminate Hb|]. eapply sox_build_any; eassumption.
  - injection H as _ <-.
    destruct ex; [injection Hb as _ <-; apply grows_refl, _|].
    eapply sox_build_any; eassumption.
Qed.

Lemma LibriSpeech_file_any cd tr name data r w w' :
  LibriSpeech_file cd tr name data w = (r, w') -> grows any_names w w'.
Proof.
  unfold LibriSpeech_file. intros H.
  destruct (Str.endswith name ".flac"); [|injection H as _ <-; apply grows_refl, _].
  apply bind_any in H as [(e & Hm & _)|(ex & w1 & Hm & H)];
    [discriminate Hm|].
  pose proof (exists_ok _ _ _ _ Hm) as ->.
  assert (forall r1 w1,
            (if ex then ret tt
             else let* pcm := sf_read (Path.join cd name) in
                  sf_write (Path.join cd (Str.replace ".flac" ".wav" name)) pcm) w
            = (r1, w1) -> grows any_names w w1) as Hguard.
  { intros r1 w1 Hb. destruct ex; [injection Hb as _ <-; apply grows_refl, _|].
    apply bind_any in Hb as [(e & Hr & _)|(pcm & w2 & Hr & Hb)].
    - unfold sf_read in Hr. injection Hr as _ <-. apply grows_refl, _.
    - apply sf_read_ok in Hr as ->. eapply sf_write_any; eassumption. }
  apply bind_any in H as [(e & Hb & _)|(u & w1 & Hb & H)]; [eapply Hguard, Hb|].
  apply Hguard in Hb.
  destruct (tr !! _); injection H as _ <-; exact Hb.
Qed.

Lemma LibriSpeech_chapter_any sd sp ch data r w w' :
  LibriSpeech_chapter sd sp ch data w = (r, w') -> grows any_names w w'.
Proof.
  unfold LibriSpeech_chapter. intros H.
  apply bind_any in H as [(e & Hm & _)|(f & w1 & Hm & H)];
    apply read_text_any in Hm as ->; [apply grows_refl, _|].
  apply bind_any in H as [(e & Hm & _)|(tr & w1 & Hm & H)];
    apply dict_of_lines_world in Hm as ->; [apply grows_refl, _|].
  apply bind_any in H as [(e & Hm & _)|(names & w1 & Hm & H)];
    apply listdir_any in Hm as ->; [apply grows_refl, _|].
  eapply for_each_any; [|eassumption].
  intros. eapply LibriSpeech_file_any; eassumption.
Qed.

Lemma LibriSpeech_speaker_any root sp data r w w' :
  LibriSpeech_speaker root sp data w = (r, w') -> grows any_names w w'.
Proof.
  unfold LibriSpeech_speaker. intros H.
  apply bind_any in H as [(e & Hm & _)|(chapters & w1 & Hm & H)];
    apply listdir_any in Hm as ->; [apply grows_refl, _|].
  eapply for_each_any; [|eassumption].
  intros. eapply LibriSpeech_chapter_any; eassumption.
Qed.

Lemma create_any csv cls dataset_type root r w w' :
  create csv cls dataset_type root w = (r, w') -> grows any_names w w'.
Proof.
  unfold create. intros H.
  destruct (String.eqb dataset_type "commonvoice").
  { unfold CommonVoiceDataset_init in H.
    apply bind_any in H as [(e & Hm & _)|(f & w1 & Hm & H)];
      apply read_text_any in Hm as ->; [apply grows_refl, _|].
    apply bind_any in H as [(e & Hm & _)|(data & w1 & Hm & H)].
    - eapply for_each_any; [|eassumption].
      intros. eapply CommonVoice_row_any; eassumption.
    - injection H as _ <-. eapply for_each_any; [|eassumption].
      intros. eapply CommonVoice_row_any; eassumption. }
  destruct (String.eqb dataset_type "librispeech").
  { unfold LibriSpeechDataset_init in H.
    apply bind_any in H as [(e & Hm & _)|(speakers & w1 & Hm & H)];
      apply listdir_any in Hm as ->; [apply grows_refl, _|].
    apply bind_any in H as [(e & Hm & _)|(data & w1 & Hm & H)].
    - eapply for_each_any; [|eassumption].
      intros. eapply LibriSpeech_speaker_any; eassumption.
    - injection H as _ <-. eapply for_each_any; [|eassumption].
      intros. eapply LibriSpeech_speaker_any; eassumption. }
  destruct (String.eqb dataset_type "custom").
  { unfold CustomDataset_init in H.
    apply bind_any in H as [(e & Hm & _)|(f & w1 & Hm & H)];
      apply read_text_any in Hm as ->; [apply grows_refl, _|].
    apply bind_any in H as [(e & Hm & _)|(data & w1 & Hm & H)].
    - eapply for_each_any; [|eassumption].
      intros. eapply Custom_row_any; eassumption.
    - injection H as _ <-. eapply for_each_any; [|eassumption].
      intros. eapply Custom_row_any; eassumption. }
  injection H as _ <-. apply grows_refl, _.
Qed.

(** X1: a construction, whether it returns or raises, deletes nothing
    and overwrites nothing: every file that it finds is there afterwards
    with the content it had, and every directory is a directory
    afterwards and lists every name that it listed. *)
Theorem construction_keeps_files (csv : string -> list (list string)) (cls : pyclass)
    (dataset_type root : string) (w w' : world) (r : exn + dataset) :
  create csv cls dataset_type root w = (r, w') ->
  (forall k content, nodes w !! k = Some (TextFile content) ->
     nodes w' !! k = Some (TextFile content)) /\
  (forall k a, nodes w !! k = Some (AudioFile a) ->
     nodes w' !! k = Some (AudioFile a)) /\
  (forall k names, nodes w !! k = Some (Dir names) ->
     exists names', nodes w' !! k = Some (Dir names') /\
       forall name, name ∈ names -> name ∈ names').
Proof.
  intros H. apply create_any in H. repeat split.
  - intros k content Hk. destruct (H _ _ Hk) as (v' & Hk' & Hv). simpl in Hv. congruence.
  - intros k a Hk. destruct (H _ _ Hk) as (v' & Hk' & Hv). simpl in Hv. congruence.
  - intros k names Hk. destruct (H _ _ Hk) as (v' & Hk' & (extra & -> & _)).
    exists (names ++ extra). split; [exact Hk'|].
    intros name Hin. apply elem_of_app. left. exact Hin.
Qed.

Lemma construction_keeps_files_witness :
  nodes (snd (LibriSpeechDataset_init "/ls" Fixture.libri_world_missing))
    !! ["ls"; "1"; "2"; "1-2-0.flac"] = Some Fixture.clip.
Proof.
  apply (construction_keeps_files Fixture.plain_csv ClsDataset "librispeech" "/ls"
           Fixture.libri_world_missing
           (snd (LibriSpeechDataset_init "/ls" Fixture.libri_world_missing))
           (inl (KeyError "1-2-1"))).
  - vm_compute. reflexivity.
  - vm_compute. reflexivity.
Defined.

(** ** The audio files of the catalog *)

Lemma exists_false_before p w w' :
  grows any_names w w' -> exists_ p w' = (inr false, w') ->
  exists_ p w = (inr false, w).
Proof.
  intros G H. destruct (exists_eq p w) as [[|] He]; [|exact He].
  rewrite (grows_exists _ _ _ _ G He) in H. discriminate H.
Qed.

Lemma built_refl st : built st st.
Proof.
  exists [], []. rewrite !app_nil_r.
  split; [reflexivity|]. split; [reflexivity|]. split; [apply grows_refl, _|].
  split; intros ? Hin; inversion Hin.
Qed.

Lemma built_trans a b c : built a b -> built b c -> built a c.
Proof.
  intros (s1 & e1 & Hs1 & Hj1 & G1 & X1 & W1) (s2 & e2 & Hs2 & Hj2 & G2 & X2 & W2).
  exists (s1 ++ s2), (e1 ++ e2). rewrite Hs2, Hs1, Hj2, Hj1, !app_assoc.
  split; [reflexivity|]. split; [reflexivity|].
  split; [eapply grows_trans; eassumption || exact _|]. split.
  - intros e He. apply elem_of_app in He as [He|He]; [|apply X2, He].
    eapply grows_exists; [exact G2|apply X1, He].
  - intros ev Hev. rewrite fmap_app. apply elem_of_app in Hev as [Hev|Hev].
    + split; [apply elem_of_app; left; apply W1, Hev|apply W1, Hev].
    + split; [apply elem_of_app; right; apply W2, Hev|].
      eapply exists_false_before; [exact G1|apply W2, Hev].
Qed.

(** What the guarded conversion leaves, with the entry in the journal. *)
Lemma guard_sox src dst w e w1 u w2 :
  exists_ dst w = (inr e, w1) ->
  (if e then ret tt else sox_build src dst) w1 = (inr u, w2) ->
  exists_ dst w2 = (inr true, w2) /\ grows any_names w w2 /\
  (w2 = w \/
   exists_ dst w = (inr false, w) /\ journal w2 = journal w ++ [SoxBuild src dst]).
Proof.
  intros He Hb. pose proof (ensure_sox _ _ _ _ _ _ _ He Hb) as Hens.
  split; [apply Hens|]. split; [eapply ensured_grows; [exact _|eassumption|constructor]|].
  pose proof (exists_ok _ _ _ _ He) as ->. destruct e.
  - apply ret_ok in Hb as [_ <-]. auto.
  - right. split; [assumption|]. unfold sox_build in Hb.
    destruct (lookup_path src w) as [[| |a]|]; try discriminate.
    destruct (write_file dst (resample a) w); [|discriminate].
    injection Hb as _ <-. reflexivity.
Qed.

Lemma guard_sf src dst w e w1 u w2 :
  exists_ dst w = (inr e, w1) ->
  (if e then ret tt
   else let* pcm := sf_read src in sf_write dst pcm) w1 = (inr u, w2) ->
  exists_ dst w2 = (inr true, w2) /\ grows any_names w w2 /\
  (w2 = w \/
   exists_ dst w = (inr false, w) /\ journal w2 = journal w ++ [SfWrite dst]).
Proof.
  intros He Hb. pose proof (ensure_sf _ _ _ _ _ _ _ He Hb) as Hens.
  split; [apply Hens|]. split; [eapply ensured_grows; [exact _|eassumption|constructor]|].
  pose proof (exists_ok _ _ _ _ He) as ->. destruct e.
  - apply ret_ok in Hb as [_ <-]. auto.
  - right. split; [assumption|].
    bind_ok Hb as pcm Hr. apply sf_read_ok in Hr as ->. unfold sf_write in Hb.
    destruct (write_file dst pcm w); [|discriminate].
    injection Hb as _ <-. reflexivity.
Qed.

Lemma built_entry s w p t copies ev w' :
  exists_ p w' = (inr true, w') -> grows any_names w w' ->
  (w' = w \/ exists_ p w = (inr false, w) /\ journal w' = journal w ++ [ev]) ->
  event_dst ev = p ->
  built (s, w) (s ++ replicate (S copies) (p, t), w').
Proof.
  intros Hex G Hw Hev.
  assert (forall e, e ∈ replicate (S copies) (p, t) -> e = (p, t)) as Hrep.
  { intros e He. apply elem_of_replicate in He as [-> _]. reflexivity. }
  destruct Hw as [->|[Hno Hj]].
  - exists (replicate (S copies) (p, t)), []. rewrite app_nil_r.
    split; [reflexivity|]. split; [reflexivity|]. split; [assumption|]. split.
    + intros e He. rewrite (Hrep e He). exact Hex.
    + intros ? Hin. inversion Hin.
  - exists (replicate (S copies) (p, t)), [ev].
    split; [reflexivity|]. split; [assumption|]. split; [assumption|]. split.
    + intros e He. rewrite (Hrep e He). exact Hex.
    + intros ev' Hin. apply list_elem_of_singleton in Hin as ->. rewrite Hev.
      split; [simpl; left|exact Hno].
Qed.

Lemma CommonVoice_row_built root row s w s' w' :
  CommonVoice_row root row s w = (inr s', w') -> built (s, w) (s', w').
Proof.
  intros H.
  destruct (CommonVoice_row_ok _ _ _ _ _ _ H)
    as (text & up & down & Hf & [(Hr & -> & ->)|(Hr & filename & Hfile & ->)]);
    [apply built_refl|].
  rewrite (CommonVoice_row_eq _ _ _ _ _ _ _ Hf), Hr, Hfile in H. cbv zeta in H.
  bind_ok H as e He. bind_ok H as u Hu. step_ok H.
  destruct (guard_sox _ _ _ _ _ _ _ He Hu) as (Hex & G & Hw).
  eapply (built_entry _ _ _ _ 0); eauto.
Qed.

Lemma Custom_row_built root row s w s' w' :
  Custom_row root row s w = (inr s', w') -> built (s, w) (s', w').
Proof.
  intros H.
  destruct (Custom_row_ok _ _ _ _ _ _ H)
    as [(Hk & -> & ->)|(Hk & file & text & Hfile & Htext & ->)];
    [apply built_refl|].
  rewrite (Custom_row_eq _ _ _ _ Hk), Hfile, Htext in H. cbv zeta in H.
  bind_ok H as e He. bind_ok H as u Hu. step_ok H.
  destruct (guard_sox _ _ _ _ _ _ _ He Hu) as (Hex & G & Hw).
  eapply (built_entry _ _ _ _ 1); eauto.
Qed.

Lemma LibriSpeech_file_built cd tr name s w s' w' :
  LibriSpeech_file cd tr name s w = (inr s', w') -> built (s, w) (s', w').
Proof.
  unfold LibriSpeech_file. intros H.
  destruct (Str.endswith name ".flac"); [|step_ok H; apply built_refl].
  bind_ok H as e He. bind_ok H as u Hu.
  destruct (guard_sf _ _ _ _ _ _ _ He Hu) as (Hex & G & Hw).
  destruct (tr !! _) as [t|]; [|step_ok H]. step_ok H.
  eapply (built_entry _ _ _ _ 0); eauto.
Qed.

Lemma LibriSpeech_chapter_built sd sp ch s w s' w' :
  LibriSpeech_chapter sd sp ch s w = (inr s', w') -> built (s, w) (s', w').
Proof.
  unfold LibriSpeech_chapter. intros H.
  bind_ok H as f Hf. apply read_text_ok in Hf as [-> _].
  bind_ok H as tr Htr. apply dict_of_lines_any in Htr as [-> _].
  bind_ok H as names Hn. apply listdir_ok in Hn as [-> _].
  eapply for_each_ok_rel; [apply built_refl|apply built_trans| |eassumption].
  intros. eapply LibriSpeech_file_built; eassumption.
Qed.

Lemma LibriSpeech_speaker_built root sp s w s' w' :
  LibriSpeech_speaker root sp s w = (inr s', w') -> built (s, w) (s', w').
Proof.
  unfold LibriSpeech_speaker. intros H.
  bind_ok H as chapters Hn. apply listdir_ok in Hn as [-> _].
  eapply for_each_ok_rel; [apply built_refl|apply built_trans| |eassumption].
  intros. eapply LibriSpeech_chapter_built; eassumption.
Qed.

Lemma create_built csv cls dataset_type root w d w' :
  create csv cls dataset_type root w = (inr d, w') ->
  exists data, entries d = Some data /\ built ([], w) (data, w').
Proof.
  unfold create. intros H.
  destruct (String.eqb dataset_type "commonvoice").
  { unfold CommonVoiceDataset_init in H.
    bind_ok H as f Hf. apply read_text_ok in Hf as [-> _].
    bind_ok H as data Hrun. step_ok H. exists data. split; [reflexivity|].
    eapply for_each_ok_rel; [apply built_refl|apply built_trans| |eassumption].
    intros. eapply CommonVoice_row_built; eassumption. }
  destruct (String.eqb dataset_type "librispeech").
  { unfold LibriSpeechDataset_init in H.
    bind_ok H as speakers Hn. apply listdir_ok in Hn as [-> _].
    bind_ok H as data Hrun. step_ok H. exists data. split; [reflexivity|].
    eapply for_each_ok_rel; [apply built_refl|apply built_trans| |eassumption].
    intros. eapply LibriSpeech_speaker_built; eassumption. }
  destruct (String.eqb dataset_type "custom").
  { unfold CustomDataset_init in H.
    bind_ok H as f Hf. apply read_text_ok in Hf as [-> _].
    bind_ok H as data Hrun. step_ok H. exists data. split; [reflexivity|].
    eapply for_each_ok_rel; [apply built_refl|apply built_trans| |eassumption].
    intros. eapply Custom_row_built; eassumption. }
  discriminate H.
Qed.

(** X2: when a construction returns, the audio file of every entry of
    the catalog is there: [os.path.exists] holds of the path that
    [get(i)] returns, for every [i] from [0] to [size() - 1]. *)
Theorem catalog_files_exist (csv : string -> list (list string)) (cls : pyclass)
    (dataset_type root : string) (w w' : world) (d : dataset) :
  create csv cls dataset_type root w = (inr d, w') ->
  exists data,
    entries d = Some data /\
    forall (i : nat) e, data !! i = Some e ->
      get d (Z.of_nat i) w' = (inr e, w') /\
      exists_ (fst e) w' = (inr true, w').
Proof.
  intros H. destruct (create_built _ _ _ _ _ _ _ H)
    as (data & Hd & suf & evs & Hs & _ & _ & Hex & _).
  simpl in *. subst suf. exists data. split; [assumption|].
  intros i e Hi. split.
  - rewrite (get_entries _ _ _ _ Hd).
    destruct (list_getitem_in_range data (Z.of_nat i) w') as (x & Hx & ->).
    + split; [lia|]. apply lookup_lt_Some in Hi. lia.
    + rewrite Nat2Z.id in Hx. congruence.
  - apply Hex. eapply list_elem_of_lookup_2, Hi.
Qed.

Lemma catalog_files_exist_witness :
  exists data,
    entries (CommonVoiceDataset [("/cv/a.wav", "hello"); ("/cv/b.wav", "there")])
    = Some data /\
    forall (i : nat) e, data !! i = Some e ->
      get (CommonVoiceDataset [("/cv/a.wav", "hello"); ("/cv/b.wav", "there")])
        (Z.of_nat i)
        (snd (CommonVoiceDataset_init Fixture.plain_csv "/cv" Fixture.cv_world))
      = (inr e, snd (CommonVoiceDataset_init Fixture.plain_csv "/cv" Fixture.cv_world)) /\
      exists_ (fst e)
        (snd (CommonVoiceDataset_init Fixture.plain_csv "/cv" Fixture.cv_world))
      = (inr true, snd (CommonVoiceDataset_init Fixture.plain_csv "/cv" Fixture.cv_world)).
Proof.
  apply (catalog_files_exist Fixture.plain_csv ClsDataset "commonvoice" "/cv"
           Fixture.cv_world).
  vm_compute. reflexivity.
Defined.

(** X3: when a construction returns, the journal of the audio files
    written is the journal it found followed by the files it wrote, and
    each file it wrote is the audio file of an entry of the catalog and
    was not there when the construction began. *)
Theorem construction_writes_catalog_files (csv : string -> list (list string))
    (cls : pyclass) (dataset_type root : string) (w w' : world) (d : dataset) :
  create csv cls dataset_type root w = (inr d, w') ->
  exists data evs,
    entries d = Some data /\
    journal w' = journal w ++ evs /\
    forall ev, ev ∈ evs ->
      event_dst ev ∈ (fst <$> data) /\
      exists_ (event_dst ev) w = (inr false, w).
Proof.
  intros H. destruct (create_built _ _ _ _ _ _ _ H)
    as (data & Hd & suf & evs & Hs & Hj & _ & _ & Hev).
  simpl in *. subst suf. eauto.
Qed.

Lemma construction_writes_catalog_files_witness :
  exists data evs,
    entries (CustomDataset [("/c/c.wav", "hi"); ("/c/c.wav", "hi")]) = Some data /\
    journal (snd (CustomDataset_init Fixture.plain_csv "/c" Fixture.custom_world))
    = journal Fixture.custom_world ++ evs /\
    forall ev, ev ∈ evs ->
      event_dst ev ∈ (fst <$> data) /\
      exists_ (event_dst ev) Fixture.custom_world = (inr false, Fixture.custom_world).
Proof.
  apply (construction_writes_catalog_files Fixture.plain_csv ClsDataset "custom" "/c"
           Fixture.custom_world).
  vm_compute. reflexivity.
Defined.

(** ** The catalogs of the builders that read a CSV file *)

Lemma lower_char_lower c : Str.lower_char (Str.lower_char c) = Str.lower_char c.
Proof.
  destruct c as [[] [] [] [] [] [] [] []]; vm_compute; reflexivity.
Qed.

Lemma lower_lower s : Str.lower (Str.lower s) = Str.lower s.
Proof. induction s as [|c s IH]; simpl; [reflexivity|]. rewrite lower_char_lower, IH. reflexivity. Qed.

Lemma lower_nonempty s : s <> EmptyString -> Str.lower s <> EmptyString.
Proof. destruct s; [contradiction|discriminate]. Qed.

Lemma cv_catalog_transcripts retains root rows data :
  (forall text up down, retains text up down = true -> text <> EmptyString) ->
  cv_catalog retains root rows = Some data ->
  forall e, e ∈ data -> snd e <> EmptyString /\ Str.lower (snd e) = snd e.
Proof.
  intros Hret. revert data. induction rows as [|row rows IH]; intros data H e He; simpl in H.
  - injection H as <-. inversion He.
  - destruct (cv_fields row) as [[[text up] down]|]; [|discriminate].
    destruct (cv_catalog retains root rows) as [c|]; [|discriminate].
    destruct (retains text up down) eqn:Hr; [|injection H as <-; eauto].
    destruct (row !! "filename") as [[filename|]|]; try discriminate.
    injection H as <-. apply elem_of_cons in He as [->|He]; [|eauto].
    simpl. split; [apply lower_nonempty; eapply Hret; eassumption|apply lower_lower].
Qed.

Lemma cv_retains_text text up down : cv_retains text up down = true -> text <> EmptyString.
Proof.
  unfold cv_retains. intros H ->. rewrite andb_false_r in H. discriminate H.
Qed.

(** X4: every transcript of a Common Voice catalog is non-empty and in
    lower case: [lower()] leaves it as it is. *)
Theorem cv_transcripts_lower_nonempty (csv : string -> list (list string))
    (root : string) (w w' : world) (d : dataset) :
  CommonVoiceDataset_init csv root w = (inr d, w') ->
  exists data,
    d = CommonVoiceDataset data /\
    forall path transcript, (path, transcript) ∈ data ->
      transcript <> EmptyString /\ Str.lower transcript = transcript.
Proof.
  intros H. apply CommonVoiceDataset_init_ok in H as (f & data & _ & -> & Hc).
  exists data. split; [reflexivity|]. intros path transcript He.
  apply (cv_catalog_transcripts _ _ _ _ cv_retains_text Hc (path, transcript) He).
Qed.

Lemma cv_transcripts_lower_nonempty_witness :
  exists data,
    CommonVoiceDataset [("/cv/a.wav", "hello"); ("/cv/b.wav", "there")]
    = CommonVoiceDataset data /\
    forall path transcript, (path, transcript) ∈ data ->
      transcript <> EmptyString /\ Str.lower transcript = transcript.
Proof.
  apply (cv_transcripts_lower_nonempty Fixture.plain_csv "/cv" Fixture.cv_world
           (snd (CommonVoiceDataset_init Fixture.plain_csv "/cv" Fixture.cv_world))).
  vm_compute. reflexivity.
Defined.

Lemma cv_catalog_rows retains root rows data :
  cv_catalog retains root rows = Some data ->
  forall row, row ∈ rows ->
    exists text up down,
      cv_fields row = Some (text, up, down) /\
      (retains text up down = true ->
       exists filename,
         row !! "filename" = Some (Some filename) /\
         (Str.replace ".mp3" ".wav" (Path.join root filename), Str.lower text) ∈ data).
Proof.
  revert data. induction rows as [|row0 rows IH]; intros data H row Hin; simpl in H.
  - inversion Hin.
  - destruct (cv_fields row0) as [[[text up] down]|] eqn:Hf; [|discriminate].
    destruct (cv_catalog retains root rows) as [c|]; [|discriminate].
    assert (forall e, e ∈ c -> e ∈ data) as Hsub.
    { destruct (retains text up down); [|injection H as <-; auto].
      destruct (row0 !! "filename") as [[filename|]|]; try discriminate.
      injection H as <-. intros e He. right. exact He. }
    apply elem_of_cons in Hin as [->|Hin].
    + exists text, up, down. split; [assumption|]. intros Hr. rewrite Hr in H.
      destruct (row0 !! "filename") as [[filename|]|]; try discriminate.
      injection H as <-. exists filename. split; [reflexivity|left].
    + destruct (IH c eq_refl row Hin) as (t & u & dn & Hfr & Hkeep).
      exists t, u, dn. split; [assumption|]. intros Hr.
      destruct (Hkeep Hr) as (filename & Hfile & He). eauto.
Qed.

(** X5: a Common Voice construction that returns has found, in every row
    of the file, kept or not, a text and two vote counts that [int]
    accepts, and has an entry for every row that it keeps; where the path
    of the MP3 file of such a row holds [.mp3] only as its extension, the
    entry has the path with the extension [.wav] in its place. *)
Theorem cv_rows_all_read (csv : string -> list (list string))
    (root : string) (w w' : world) (d : dataset) :
  CommonVoiceDataset_init csv root w = (inr d, w') ->
  exists f data,
    read_text (Path.join root "cv-valid-test.csv") w = (inr f, w) /\
    d = CommonVoiceDataset data /\
    forall row, row ∈ DictReader csv f ->
      exists text up down,
        cv_fields row = Some (text, up, down) /\
        (cv_retains text up down = true ->
         exists filename,
           row !! "filename" = Some (Some filename) /\
           (Str.replace ".mp3" ".wav" (Path.join root filename), Str.lower text) ∈ data /\
           forall stem, Path.join root filename = stem +:+ ".mp3" ->
             contains stem ".mp3" = false ->
             (stem +:+ ".wav", Str.lower text) ∈ data).
Proof.
  intros H. apply CommonVoiceDataset_init_ok in H as (f & data & Hf & -> & Hc).
  exists f, data. split; [assumption|]. split; [reflexivity|]. intros row Hrow.
  destruct (cv_catalog_rows _ _ _ _ Hc row Hrow) as (text & up & down & Hfields & Hkeep).
  exists text, up, down. split; [assumption|]. intros Hr.
  destruct (Hkeep Hr) as (filename & Hfile & He).
  exists filename. split; [assumption|]. split; [assumption|].
  intros stem Hstem Hplain. rewrite Hstem in He.
  rewrite (replace_extension_plain "mp3" ".wav" stem eq_refl Hplain) in He. exact He.
Qed.

Lemma cv_rows_all_read_witness :
  exists f data,
    read_text (Path.join "/cv" "cv-valid-test.csv") Fixture.cv_world
    = (inr f, Fixture.cv_world) /\
    CommonVoiceDataset [("/cv/a.wav", "hello"); ("/cv/b.wav", "there")]
    = CommonVoiceDataset data /\
    forall row, row ∈ DictReader Fixture.plain_csv f ->
      exists text up down,
        cv_fields row = Some (text, up, down) /\
        (cv_retains text up down = true ->
         exists filename,
           row !! "filename" = Some (Some filename) /\
           (Str.replace ".mp3" ".wav" (Path.join "/cv" filename), Str.lower text) ∈ data /\
           forall stem, Path.join "/cv" filename = stem +:+ ".mp3" ->
             contains stem ".mp3" = false ->
             (stem +:+ ".wav", Str.lower text) ∈ data).
Proof.
  apply (cv_rows_all_read Fixture.plain_csv "/cv" Fixture.cv_world
           (snd (CommonVoiceDataset_init Fixture.plain_csv "/cv" Fixture.cv_world))).
  vm_compute. reflexivity.
Defined.

Lemma custom_catalog_twice root rows data :
  custom_catalog 2 root rows = Some data ->
  exists once,
    custom_catalog 1 root rows = Some once /\
    data = flat_map (fun e => [e; e]) once /\
    forall e, e ∈ once -> snd e <> EmptyString.
Proof.
  revert data. induction rows as [|row rows IH]; intros data H; simpl in *.
  - injection H as <-. exists []. repeat split. intros e He. inversion He.
  - destruct (custom_keeps row) as [[|]|] eqn:Hk; try discriminate.
    + destruct (custom_catalog 2 root rows) as [c|]; [|discriminate].
      destruct (IH c eq_refl) as (once & -> & -> & Htexts).
      destruct (row !! "file") as [[file|]|]; try discriminate.
      destruct (row !! "text") as [[text|]|] eqn:Htext; try discriminate.
      injection H as <-. eexists. split; [reflexivity|]. split; [reflexivity|].
      intros e He. apply elem_of_cons in He as [->|He]; [|auto]. simpl.
      unfold custom_keeps in Hk. rewrite Htext in Hk. intros ->. discriminate Hk.
    + destruct (custom_catalog 2 root rows) as [c|]; [|discriminate].
      injection H as <-. destruct (IH c eq_refl) as (once & -> & -> & Htexts). eauto.
Qed.

(** X6: a custom construction that returns has, for the rows that it
    keeps and in their order, the entry of each row twice in succession:
    [size()] is twice the number of kept rows, and no transcript is
    empty. *)
Theorem custom_catalog_doubled (csv : string -> list (list string))
    (root : string) (w w' : world) (d : dataset) :
  CustomDataset_init csv root w = (inr d, w') ->
  exists f once,
    read_text (Path.join root "annotations.csv") w = (inr f, w) /\
    custom_catalog 1 root (DictReader csv f) = Some once /\
    d = CustomDataset (flat_map (fun e => [e; e]) once) /\
    size d w' = (inr (2 * Z.of_nat (length once)), w') /\
    forall e, e ∈ once -> snd e <> EmptyString.
Proof.
  intros H. apply CustomDataset_init_ok in H as (f & data & Hf & -> & Hc).
  apply custom_catalog_twice in Hc as (once & Honce & -> & Htexts).
  exists f, once. repeat split; try assumption.
  simpl. unfold ret. do 2 f_equal.
  clear. induction once as [|e once IH]; simpl length; [reflexivity|]. lia.
Qed.

Lemma custom_catalog_doubled_witness :
  exists f once,
    read_text (Path.join "/c" "annotations.csv") Fixture.custom_world
    = (inr f, Fixture.custom_world) /\
    custom_catalog 1 "/c" (DictReader Fixture.plain_csv f) = Some once /\
    CustomDataset [("/c/c.wav", "hi"); ("/c/c.wav", "hi")]
    = CustomDataset (flat_map (fun e => [e; e]) once) /\
    size (CustomDataset [("/c/c.wav", "hi"); ("/c/c.wav", "hi")])
      (snd (CustomDataset_init Fixture.plain_csv "/c" Fixture.custom_world))
    = (inr (2 * Z.of_nat (length once)),
       snd (CustomDataset_init Fixture.plain_csv "/c" Fixture.custom_world)) /\
    forall e, e ∈ once -> snd e <> EmptyString.
Proof.
  apply (custom_catalog_doubled Fixture.plain_csv "/c" Fixture.custom_world
           (snd (CustomDataset_init Fixture.plain_csv "/c" Fixture.custom_world))).
  vm_compute. reflexivity.
Defined.

(** X7: the catalog of a builder that reads a CSV file is a function of
    that file and of the root: two constructions that return, over worlds
    in which the file has the same text, return the same dataset, whatever
    audio files the two worlds hold. *)
Theorem csv_catalog_from_metadata (csv : string -> list (list string))
    (root f : string) (w1 w1' w2 w2' : world) (d1 d2 : dataset) :
  (read_text (Path.join root "cv-valid-test.csv") w1 = (inr f, w1) ->
   read_text (Path.join root "cv-valid-test.csv") w2 = (inr f, w2) ->
   CommonVoiceDataset_init csv root w1 = (inr d1, w1') ->
   CommonVoiceDataset_init csv root w2 = (inr d2, w2') ->
   d1 = d2) /\
  (read_text (Path.join root "annotations.csv") w1 = (inr f, w1) ->
   read_text (Path.join root "annotations.csv") w2 = (inr f, w2) ->
   CustomDataset_init csv root w1 = (inr d1, w1') ->
   CustomDataset_init csv root w2 = (inr d2, w2') ->
   d1 = d2).
Proof.
  split; intros Hf1 Hf2 H1 H2.
  - apply CommonVoiceDataset_init_ok in H1 as (f1 & data1 & Hr1 & -> & Hc1).
    apply CommonVoiceDataset_init_ok in H2 as (f2 & data2 & Hr2 & -> & Hc2).
    congruence.
  - apply CustomDataset_init_ok in H1 as (f1 & data1 & Hr1 & -> & Hc1).
    apply CustomDataset_init_ok in H2 as (f2 & data2 & Hr2 & -> & Hc2).
    congruence.
Qed.

Lemma csv_catalog_from_metadata_witness :
  CommonVoiceDataset [("/cv/a.wav", "hello"); ("/cv/b.wav", "there")]
  = CommonVoiceDataset [("/cv/a.wav", "hello"); ("/cv/b.wav", "there")].
Proof.
  apply (proj1 (csv_catalog_from_metadata Fixture.plain_csv "/cv"
                  ("filename,text,up_votes,down_votes" +:+ Fixture.nl +:+
                   "a.mp3,Hello,2,0" +:+ Fixture.nl +:+
                   "b.mp3,There,3,-1" +:+ Fixture.nl +:+
                   "c.mp3,x,1,0" +:+ Fixture.nl)
                  Fixture.cv_world
                  (snd (CommonVoiceDataset_init Fixture.plain_csv "/cv" Fixture.cv_world))
                  (snd (CommonVoiceDataset_init Fixture.plain_csv "/cv" Fixture.cv_world))
                  (snd (CommonVoiceDataset_init Fixture.plain_csv "/cv" Fixture.cv_world))
                  _ _));
    vm_compute; reflexivity.
Defined.

(** ** The LibriSpeech catalog *)

(** The entry of a [.flac] file whose base name has a transcript. *)
Lemma expected_entries_list flacs data :
  (forall cd tr name, (cd, tr, name) ∈ flacs -> is_Some (tr !! base_name name)) ->
  exists more,
    fold_ok flacs expected_entry data = inr (data ++ more) /\
    Forall2 (fun x e =>
               fst e = Path.join (fst (fst x)) (base_name (snd x) +:+ ".wav") /\
               snd (fst x) !! base_name (snd x) = Some (snd e)) flacs more.
Proof.
  revert data. induction flacs as [|[[cd tr] name] flacs IH]; intros data Hall.
  - exists []. rewrite app_nil_r. split; [reflexivity|constructor].
  - destruct (Hall cd tr name (list_elem_of_here _ _)) as [t Ht].
    simpl. rewrite Ht.
    destruct (IH (data ++ [(Path.join cd (base_name name +:+ ".wav"), t)]))
      as (more & -> & Hmore).
    { intros cd' tr' name' Hin. apply (Hall cd' tr' name'). right. exact Hin. }
    exists ((Path.join cd (base_name name +:+ ".wav"), t) :: more).
    rewrite <- app_assoc. split; [reflexivity|]. constructor; [|assumption].
    simpl. auto.
Qed.

(** X8: over a corpus that the builder can read, with plain names and a
    transcript for every [.flac] file, the catalog has the entries of the
    [.flac] files in the order of the scan: speakers as the root lists
    them, chapters as the speaker directory lists them, files as the
    chapter directory lists them; each entry pairs the WAV file next to
    the [.flac] file with the transcript of its base name. The files
    that are not [.flac] files, and the WAV files that are there or not,
    make no difference. *)
Theorem librispeech_catalog_in_scan_order (root : string) (w : world) :
  wf w -> readable_corpus root w -> plain_names root w ->
  (forall cd tr name,
     (cd, tr, name) ∈ corpus_flacs root w -> is_Some (tr !! base_name name)) ->
  exists data,
    fst (LibriSpeechDataset_init root w) = inr (LibriSpeechDataset data) /\
    Forall2 (fun x e =>
               fst e = Path.join (fst (fst x)) (base_name (snd x) +:+ ".wav") /\
               snd (fst x) !! base_name (snd x) = Some (snd e))
      (corpus_flacs root w) data.
Proof.
  intros Hwf Hread Hplain Hall.
  destruct (expected_entries_list _ [] Hall) as (more & Hmore & Hentries).
  exists more. split; [|assumption].
  rewrite (LibriSpeechDataset_init_sim root w Hwf Hread Hplain), Hmore. reflexivity.
Qed.

Lemma libri_world_readable : readable_corpus "/ls" Fixture.libri_world.
Proof.
  split; [eexists; vm_compute; reflexivity|].
  intros sp Hsp. vm_compute in Hsp. apply list_elem_of_singleton in Hsp as ->.
  split; [eexists; vm_compute; reflexivity|].
  intros ch Hch. vm_compute in Hch. apply list_elem_of_singleton in Hch as ->.
  split; [do 2 eexists; split; vm_compute; reflexivity|].
  split; [eexists; vm_compute; reflexivity|].
  intros name Hname Hflac. vm_compute in Hname.
  apply elem_of_cons in Hname as [->|Hname]; [discriminate Hflac|].
  apply elem_of_cons in Hname as [->|Hname];
    [|apply list_elem_of_singleton in Hname as ->];
    right; eexists; vm_compute; reflexivity.
Qed.

Lemma libri_world_flacs cd tr name :
  (cd, tr, name) ∈ corpus_flacs "/ls" Fixture.libri_world ->
  plain (base_name name) = true /\ is_Some (tr !! base_name name).
Proof.
  intros Hin. vm_compute in Hin.
  apply elem_of_cons in Hin as [Hin|Hin];
    [|apply list_elem_of_singleton in Hin];
    injection Hin as -> -> ->; (split; [reflexivity|vm_compute; eauto]).
Qed.

Lemma librispeech_catalog_in_scan_order_witness :
  exists data,
    fst (LibriSpeechDataset_init "/ls" Fixture.libri_world)
    = inr (LibriSpeechDataset data) /\
    Forall2 (fun x e =>
               fst e = Path.join (fst (fst x)) (base_name (snd x) +:+ ".wav") /\
               snd (fst x) !! base_name (snd x) = Some (snd e))
      (corpus_flacs "/ls" Fixture.libri_world) data.
Proof.
  apply (librispeech_catalog_in_scan_order "/ls" Fixture.libri_world).
  - apply wfb_wf. vm_compute. reflexivity.
  - apply libri_world_readable.
  - intros cd tr name Hin. apply (libri_world_flacs cd tr name Hin).
  - intros cd tr name Hin. apply (libri_world_flacs cd tr name Hin).
Defined.

(** ** Constructing again in a later world *)






(** ** What a LibriSpeech construction that returns has found *)

Lemma init_reaches_speaker root w d w' sp :
  LibriSpeechDataset_init root w = (inr d, w') -> lists root sp w ->
  exists data s1 w1 s2 w2,
    d = LibriSpeechDataset data /\
    extends ([], w) (s1, w1) /\
    LibriSpeech_speaker root sp s1 w1 = (inr s2, w2) /\
    extends (s2, w2) (data, w').
Proof.
  unfold LibriSpeechDataset_init. intros H Hsp.
  bind_ok H as speakers Hn. pose proof (listdir_ok _ _ _ _ Hn) as [-> _].
  bind_ok H as data Hrun. step_ok H.
  destruct (for_each_ok_elem extends _ _ sp extends_refl extends_trans
              (fun x s w s' w' _ Hx => LibriSpeech_speaker_extends _ _ _ _ _ _ Hx)
              (lists_listdir _ _ _ _ Hsp Hn) _ _ _ _ Hrun)
    as (s1 & w1 & s2 & w2 & E1 & Hspeaker & E2).
  exists data, s1, w1, s2, w2. auto.
Qed.

Lemma speaker_reaches_chapter root sp s1 w1 s2 w2 ch :
  LibriSpeech_speaker root sp s1 w1 = (inr s2, w2) ->
  lists (Path.join root sp) ch w1 ->
  exists s3 w3 s4 w4,
    extends (s1, w1) (s3, w3) /\
    LibriSpeech_chapter (Path.join root sp) sp ch s3 w3 = (inr s4, w4) /\
    extends (s4, w4) (s2, w2).
Proof.
  unfold LibriSpeech_speaker. intros H Hch.
  bind_ok H as chapters Hn. pose proof (listdir_ok _ _ _ _ Hn) as [-> _].
  apply (for_each_ok_elem extends _ _ ch extends_refl extends_trans
           (fun x s w s' w' _ Hx => LibriSpeech_chapter_extends _ _ _ _ _ _ _ Hx)
           (lists_listdir _ _ _ _ Hch Hn) _ _ _ _ H).
Qed.

(** A successful construction has run the body of the chapter loop on
    every chapter that the corpus lists, in a world that extends the one
    it began in. *)
Lemma init_reaches_chapter root w d w' sp ch :
  LibriSpeechDataset_init root w = (inr d, w') ->
  lists root sp w -> lists (Path.join root sp) ch w ->
  exists data w1 s3 w3 s4 w4,
    d = LibriSpeechDataset data /\
    grows any_names w w1 /\
    (exists names, listdir (Path.join root sp) w1 = (inr names, w1)) /\
    grows any_names w w3 /\
    LibriSpeech_chapter (Path.join root sp) sp ch s3 w3 = (inr s4, w4) /\
    extends (s4, w4) (data, w').
Proof.
  intros H Hsp Hch.
  destruct (init_reaches_speaker _ _ _ _ _ H Hsp)
    as (data & s1 & w1 & s2 & w2 & -> & E1 & Hspeaker & E2).
  destruct (speaker_reaches_chapter _ _ _ _ _ _ _ Hspeaker
              (lists_grows _ _ _ _ Hch (proj2 E1)))
    as (s3 & w3 & s4 & w4 & E3 & Hchapter & E4).
  exists data, w1, s3, w3, s4, w4. split; [reflexivity|].
  split; [apply E1|]. split.
  { unfold LibriSpeech_speaker in Hspeaker. bind_ok Hspeaker as chapters Hn.
    pose proof (listdir_ok _ _ _ _ Hn) as [-> _]. eauto. }
  split; [apply (extends_trans _ _ _ E1 E3)|].
  split; [assumption|]. eapply extends_trans; eassumption.
Qed.

Lemma grows_dir w w' p v names' :
  grows any_names w w' -> lookup_path p w = Some v ->
  listdir p w' = (inr names', w') -> exists names, v = Dir names.
Proof.
  unfold listdir, lookup_path. intros G Hv Hn.
  destruct (G _ _ Hv) as (v' & Hv' & Hg). rewrite Hv' in Hn.
  destruct v as [names0| |]; [eauto| |]; simpl in Hg; subst v'; discriminate Hn.
Qed.

(** X11: a LibriSpeech construction returns only if whatever the root
    lists and whatever a speaker directory lists is a directory: a file
    among the speakers or among the chapters makes the construction
    raise. *)
Theorem librispeech_lists_directories (root : string) (w w' : world) (d : dataset)
    (speaker_id : string) :
  LibriSpeechDataset_init root w = (inr d, w') ->
  lists root speaker_id w ->
  (forall v, lookup_path (Path.join root speaker_id) w = Some v ->
     exists names, v = Dir names) /\
  (forall chapter_id v,
     lists (Path.join root speaker_id) chapter_id w ->
     lookup_path (Path.join (Path.join root speaker_id) chapter_id) w = Some v ->
     exists names, v = Dir names).
Proof.
  intros H Hsp. split.
  - intros v Hv.
    destruct (init_reaches_speaker _ _ _ _ _ H Hsp)
      as (data & s1 & w1 & s2 & w2 & _ & E1 & Hspeaker & _).
    unfold LibriSpeech_speaker in Hspeaker. bind_ok Hspeaker as chapters Hn.
    pose proof (listdir_ok _ _ _ _ Hn) as [-> _].
    apply (grows_dir w w1 _ v chapters (proj2 E1) Hv Hn).
  - intros ch v Hch Hv.
    destruct (init_reaches_chapter _ _ _ _ _ _ H Hsp Hch)
      as (data & w1 & s3 & w3 & s4 & w4 & _ & _ & _ & G3 & Hchapter & _).
    unfold LibriSpeech_chapter in Hchapter.
    bind_ok Hchapter as f Hf. apply read_text_ok in Hf as [-> _].
    bind_ok Hchapter as tr Htr. apply dict_of_lines_any in Htr as [-> _].
    bind_ok Hchapter as names Hn. pose proof (listdir_ok _ _ _ _ Hn) as [-> _].
    apply (grows_dir w w3 _ v names G3 Hv Hn).
Qed.

Lemma librispeech_lists_directories_witness :
  (forall v, lookup_path (Path.join "/ls" "1") Fixture.libri_world = Some v ->
     exists names, v = Dir names) /\
  (forall chapter_id v,
     lists (Path.join "/ls" "1") chapter_id Fixture.libri_world ->
     lookup_path (Path.join (Path.join "/ls" "1") chapter_id) Fixture.libri_world = Some v ->
     exists names, v = Dir names).
Proof.
  apply (librispeech_lists_directories "/ls" Fixture.libri_world
           (snd (LibriSpeechDataset_init "/ls" Fixture.libri_world))
           (LibriSpeechDataset
              [("/ls/1/2/1-2-0.wav", "HELLO WORLD" +:+ Fixture.nl);
               ("/ls/1/2/1-2-1.wav", "BYE" +:+ Fixture.nl)])).
  - vm_compute. reflexivity.
  - exists ["1"]. split; [vm_compute; reflexivity|set_solver].
Defined.

Lemma split1_Some sep s k v :
  Str.split1 sep s = (k, Some v) -> s = k +:+ String sep v.
Proof.
  revert k. induction s as [|c s IH]; intros k H; simpl in H; [discriminate|].
  destruct (Ascii.eqb_spec c sep) as [->|Hc].
  - injection H as <- <-. reflexivity.
  - destruct (Str.split1 sep s) as [h t]. injection H as <- ->.
    simpl. rewrite (IH h eq_refl). reflexivity.
Qed.

Lemma dict_of_lines_ok_lines lines (d tr : gmap string string) w w' :
  for_each lines
    (fun x (d : gmap string string) =>
       match Str.split1 " " x with
       | (k, Some v) => ret (<[k := v]> d)
       | (_, None) =>
           raise (ValueError "dictionary update sequence element has length 1; 2 is required")
       end) d w = (inr tr, w') ->
  forall line, line ∈ lines -> exists k v, line = k +:+ " " +:+ v.
Proof.
  revert d w. induction lines as [|x lines IH]; intros d w H line Hin; simpl in H.
  - inversion Hin.
  - destruct (Str.split1 " " x) as [k [v|]] eqn:Hx;
      [|bind_ok H as d1 Hd; step_ok Hd].
    bind_ok H as d1 Hd. step_ok Hd.
    apply elem_of_cons in Hin as [->|Hin]; [|eapply IH; eassumption].
    exists k, v. apply split1_Some in Hx. exact Hx.
Qed.

(** X12: a LibriSpeech construction returns only if every line of every
    transcript file has a space: an empty line, or a line with a name and
    nothing after it, makes the construction raise. *)
Theorem librispeech_lines_have_space (root : string) (w w' : world) (d : dataset)
    (speaker_id chapter_id f line : string) :
  LibriSpeechDataset_init root w = (inr d, w') ->
  lists root speaker_id w ->
  lists (Path.join root speaker_id) chapter_id w ->
  read_text (Path.join (Path.join (Path.join root speaker_id) chapter_id)
               (speaker_id +:+ "-" +:+ chapter_id +:+ ".trans.txt")) w = (inr f, w) ->
  line ∈ Str.readlines f ->
  exists name text, line = name +:+ " " +:+ text.
Proof.
  intros H Hsp Hch Hf Hline.
  destruct (init_reaches_chapter _ _ _ _ _ _ H Hsp Hch)
    as (data & w1 & s3 & w3 & s4 & w4 & _ & _ & _ & G3 & Hchapter & _).
  unfold LibriSpeech_chapter in Hchapter. cbv zeta in Hchapter.
  rewrite (bind_eq _ _ _ _ _ (grows_text _ _ _ _ _ G3 Hf)) in Hchapter.
  bind_ok Hchapter as tr Htr.
  eapply dict_of_lines_ok_lines; eassumption.
Qed.

Lemma librispeech_lines_have_space_witness :
  exists name text, "1-2-1 BYE" +:+ Fixture.nl = name +:+ " " +:+ text.
Proof.
  apply (librispeech_lines_have_space "/ls" Fixture.libri_world
           (snd (LibriSpeechDataset_init "/ls" Fixture.libri_world))
           (LibriSpeechDataset
              [("/ls/1/2/1-2-0.wav", "HELLO WORLD" +:+ Fixture.nl);
               ("/ls/1/2/1-2-1.wav", "BYE" +:+ Fixture.nl)])
           "1" "2"
           ("1-2-0 HELLO WORLD" +:+ Fixture.nl +:+ "1-2-1 BYE" +:+ Fixture.nl)).
  - vm_compute. reflexivity.
  - exists ["1"]. split; [vm_compute; reflexivity|set_solver].
  - exists ["2"]. split; [vm_compute; reflexivity|set_solver].
  - vm_compute. reflexivity.
  - vm_compute. set_solver.
Defined.

Lemma transcripts_of_run p f tr w w1 w2 :
  read_text p w = (inr f, w) ->
  dict_of_lines (Str.readlines f) w1 = (inr tr, w2) ->
  transcripts_of p w = tr.
Proof.
  intros Hf Htr. apply dict_of_lines_any in Htr as [_ Htr].
  unfold transcripts_of. rewrite Hf. simpl. rewrite (Htr w). reflexivity.
Qed.

(** X13: a LibriSpeech construction that returns has skipped no audio
    file: for every name ending in [.flac] that a chapter directory
    lists, the transcript mapping of the chapter has the name without
    its [.flac] and [.wav] as a key, and the catalog has the entry that
    pairs the path of the WAV file with the transcript under that key. *)
Theorem librispeech_every_flac_has_entry (root : string) (w w' : world) (d : dataset)
    (speaker_id chapter_id flac_file f : string) :
  LibriSpeechDataset_init root w = (inr d, w') ->
  lists root speaker_id w ->
  lists (Path.join root speaker_id) chapter_id w ->
  lists (Path.join (Path.join root speaker_id) chapter_id) flac_file w ->
  Str.endswith flac_file ".flac" = true ->
  read_text (Path.join (Path.join (Path.join root speaker_id) chapter_id)
               (speaker_id +:+ "-" +:+ chapter_id +:+ ".trans.txt")) w = (inr f, w) ->
  exists data transcript,
    d = LibriSpeechDataset data /\
    transcripts_of
      (Path.join (Path.join (Path.join root speaker_id) chapter_id)
         (speaker_id +:+ "-" +:+ chapter_id +:+ ".trans.txt")) w
    !! Str.replace ".wav" EmptyString (Str.replace ".flac" ".wav" flac_file)
    = Some transcript /\
    (Path.join (Path.join (Path.join root speaker_id) chapter_id)
       (Str.replace ".flac" ".wav" flac_file), transcript) ∈ data.
Proof.
  intros H Hsp Hch Hflac Hend Hf.
  destruct (init_reaches_chapter _ _ _ _ _ _ H Hsp Hch)
    as (data & w1 & s3 & w3 & s4 & w4 & -> & _ & _ & G3 & Hchapter & E4).
  unfold LibriSpeech_chapter in Hchapter. cbv zeta in Hchapter.
  rewrite (bind_eq _ _ _ _ _ (grows_text _ _ _ _ _ G3 Hf)) in Hchapter.
  bind_ok Hchapter as tr Htr.
  pose proof (transcripts_of_run _ _ _ _ _ _ Hf Htr) as Htrs.
  apply dict_of_lines_any in Htr as [-> _].
  bind_ok Hchapter as names Hn. pose proof (listdir_ok _ _ _ _ Hn) as [-> _].
  destruct (for_each_ok_elem extends _ _ flac_file extends_refl extends_trans
              (fun x s w s' w' _ Hx => LibriSpeech_file_extends _ _ _ _ _ _ _ Hx)
              (lists_listdir _ _ _ _ (lists_grows _ _ _ _ Hflac G3) Hn)
              _ _ _ _ Hchapter)
    as (s5 & w5 & s6 & w6 & E5 & Hfile & E6).
  apply LibriSpeech_file_ok in Hfile as [(Hno & _)|(_ & t & Ht & -> & _)];
    [congruence|].
  exists data, t. split; [reflexivity|]. rewrite Htrs. split; [assumption|].
  apply (extends_elem _ _ _ E4). apply (extends_elem _ _ _ E6). simpl.
  apply elem_of_app. right. apply list_elem_of_here.
Qed.

Lemma librispeech_every_flac_has_entry_witness :
  exists data transcript,
    LibriSpeechDataset [("/ls/1/2/a.wav.wav", "HELLO" +:+ Fixture.nl)]
    = LibriSpeechDataset data /\
    transcripts_of
      (Path.join (Path.join (Path.join "/ls" "1") "2") ("1" +:+ "-" +:+ "2" +:+ ".trans.txt"))
      Fixture.libri_world_odd'
    !! Str.replace ".wav" EmptyString (Str.replace ".flac" ".wav" "a.wav.flac")
    = Some transcript /\
    (Path.join (Path.join (Path.join "/ls" "1") "2")
       (Str.replace ".flac" ".wav" "a.wav.flac"), transcript) ∈ data.
Proof.
  apply (librispeech_every_flac_has_entry "/ls" Fixture.libri_world_odd'
           (snd (LibriSpeechDataset_init "/ls" Fixture.libri_world_odd'))
           (LibriSpeechDataset [("/ls/1/2/a.wav.wav", "HELLO" +:+ Fixture.nl)])
           "1" "2" "a.wav.flac" ("a HELLO" +:+ Fixture.nl)).
  - vm_compute. reflexivity.
  - exists ["1"]. split; [vm_compute; reflexivity|set_solver].
  - exists ["2"]. split; [vm_compute; reflexivity|set_solver].
  - exists ["1-2.trans.txt"; "a.wav.flac"]. split; [vm_compute; reflexivity|set_solver].
  - reflexivity.
  - vm_compute. reflexivity.
Defined.

(** ** The size of a dataset in seconds and in hours *)

Lemma size_in_loop per self data w :
  entries self = Some data ->
  forall rest pre acc,
    data = pre ++ rest ->
    for_each (Z.of_nat <$> seq (length pre) (length rest))
      (fun i acc =>
         let* e := get self i in
         let* pcm := sf_read (fst e) in
         ret (acc ++ [Z.of_N (frames pcm * channels pcm) # per])) acc w
    = if forallb (fun e => is_audio (fst e) w) rest
      then (inr (acc ++ ((fun e => samples_at (fst e) w # per) <$> rest)), w)
      else (inl LibsndfileError, w).
Proof.
  intros Hself. induction rest as [|e rest IH]; intros pre acc Hdata.
  - simpl. rewrite app_nil_r. reflexivity.
  - cbn [length seq fmap list_fmap for_each forallb].
    assert (get self (Z.of_nat (length pre)) w = (inr e, w)) as Hget.
    { rewrite (get_entries _ _ _ _ Hself).
      destruct (list_getitem_in_range data (Z.of_nat (length pre)) w) as (x & Hx & ->).
      - subst data. rewrite length_app. simpl. lia.
      - rewrite Nat2Z.id in Hx. subst data.
        rewrite lookup_app_r, Nat.sub_diag in Hx by lia. simpl in Hx. congruence. }
    unfold bind at 1. unfold bind at 1. rewrite Hget.
    unfold bind at 1.
    assert (sf_read (fst e) w =
            (match lookup_path (fst e) w with
             | Some (AudioFile a) => inr a
             | _ => inl LibsndfileError
             end, w)) as -> by reflexivity.
    assert (is_audio (fst e) w =
            match lookup_path (fst e) w with
            | Some (AudioFile _) => true
            | _ => false
            end) as -> by reflexivity.
    assert (samples_at (fst e) w =
            match lookup_path (fst e) w with
            | Some (AudioFile a) => Z.of_N (frames a * channels a)
            | _ => 0
            end) as -> by reflexivity.
    destruct (lookup_path (fst e) w) as [[| |a]|]; try reflexivity.
    unfold ret at 1. simpl andb.
    specialize (IH (pre ++ [e]) (acc ++ [Z.of_N (frames a * channels a) # per])).
    rewrite length_app in IH. simpl in IH. rewrite Nat.add_1_r in IH.
    rewrite IH by (rewrite <- app_assoc; exact Hdata).
    destruct (forallb _ rest); [|reflexivity].
    rewrite <- app_assoc. reflexivity.
Qed.

Lemma size_in_outcome per self data w :
  entries self = Some data ->
  size_in per self w =
  if forallb (fun e => is_audio (fst e) w) data
  then (inr (fold_left Qplus ((fun e => samples_at (fst e) w # per) <$> data) 0%Q), w)
  else (inl LibsndfileError, w).
Proof.
  intros Hself. unfold size_in.
  rewrite (bind_eq _ _ _ _ _ (size_entries _ _ w Hself)).
  unfold range. rewrite Nat2Z.id.
  pose proof (size_in_loop per self data w Hself data [] [] eq_refl) as Hloop.
  simpl length in Hloop. unfold bind at 1. rewrite Hloop.
  destruct (forallb _ data); reflexivity.
Qed.

(** X14: on a dataset of one of the three classes, [size_seconds()] and
    [size_hours()] return exactly when [soundfile.read] decodes the file
    of every entry of the catalog; when it does not decode one of them,
    both raise the error of the decoder. An empty catalog makes them
    return. They write nothing in either case. *)
Theorem size_needs_every_file (self : dataset) (data : catalog) (w : world) :
  entries self = Some data ->
  (forallb (fun e => is_audio (fst e) w) data = true ->
   exists seconds hours,
     size_seconds self w = (inr seconds, w) /\ size_hours self w = (inr hours, w)) /\
  (forallb (fun e => is_audio (fst e) w) data = false ->
   size_seconds self w = (inl LibsndfileError, w) /\
   size_hours self w = (inl LibsndfileError, w)).
Proof.
  intros Hself. unfold size_seconds, size_hours.
  rewrite !(size_in_outcome _ _ _ _ Hself).
  split; intros ->; eauto.
Qed.

Lemma size_needs_every_file_witness :
  (exists seconds hours,
     size_seconds (CustomDataset [("/c/original/c.wav", "hi")]) Fixture.custom_world
     = (inr seconds, Fixture.custom_world) /\
     size_hours (CustomDataset [("/c/original/c.wav", "hi")]) Fixture.custom_world
     = (inr hours, Fixture.custom_world)) /\
  size_seconds (CustomDataset [("/c/c.wav", "hi"); ("/c/c.wav", "hi")]) Fixture.custom_world
  = (inl LibsndfileError, Fixture.custom_world).
Proof.
  split.
  - apply (size_needs_every_file (CustomDataset [("/c/original/c.wav", "hi")])
             [("/c/original/c.wav", "hi")] Fixture.custom_world eq_refl).
    vm_compute. reflexivity.
  - apply (size_needs_every_file (CustomDataset [("/c/c.wav", "hi"); ("/c/c.wav", "hi")])
             [("/c/c.wav", "hi"); ("/c/c.wav", "hi")] Fixture.custom_world eq_refl).
    vm_compute. reflexivity.
Defined.
